(** * Synthetic digit-addition data: a shallow embedding of
      [src/data/mnist_loader.py] and the properties of its specification.

    The file follows the source function by function:
    - [Addition]    : [produce_addition_set]  (composite sample synthesis)
    - [SemiSup]     : [get_ss_components]     (stratified labelling, neighbours)
    - [Uncertainty] : [inject_uncertainty]    (concept noise over loaders)
    - [GenData]     : [generate_data]         (group map, subsampling cache)
    - [Loading]     : [load_mnist_addition]   (the three splits and their loaders)
    - [HyperParams] : [generate_hyper_param_configs] of [src/utils.py]
    The properties come after the definitions, one module per function
    ([AdditionProps], [SemiSupProps], ...), each followed by examples on the
    small inputs of [Demo].

    Conventions.  Integers of the source are [Z], sizes and positions are
    [nat], Python floats are idealised as rationals [Q].  A raised exception
    is a value of [exn]; a function that may raise returns a [result].  The
    process-wide NumPy generator is an explicit state [rng] threaded through
    every randomised step. *)

From Stdlib Require Import ZArith QArith Qround Lia Lqa Permutation.
From stdpp Require Import base option list gmap strings sorting.

Local Open Scope Z_scope.

(** ** Exceptions and results *)

Inductive exn : Type :=
| ValueError_selected_digits  (* "If selected_digits is a list of lists, ..." *)
| ValueError                  (* any other ValueError raised by NumPy/Python *)
| IndexError
| KeyError
| RuntimeError
| ZeroDivisionError
| UnboundLocalError.

Inductive result (A : Type) : Type :=
| Ok (a : A)
| Raise (e : exn).
Arguments Ok {A} a.
Arguments Raise {A} e.

Definition is_ok {A} (r : result A) : bool :=
  match r with Ok _ => true | Raise _ => false end.

Definition of_option {A} (e : exn) (o : option A) : result A :=
  match o with Some a => Ok a | None => Raise e end.

Definition rbind {A B} (r : result A) (k : A -> result B) : result B :=
  match r with Ok a => k a | Raise e => Raise e end.

Declare Scope result_scope.
Delimit Scope result_scope with res.
Notation "'let+' x ':=' r 'in' k" := (rbind r (fun x => k))
  (at level 10, x pattern, r at level 100, k at level 200) : result_scope.

(** Python's [int(b)] for a boolean [b]. *)
Definition int_of_bool (b : bool) : Z := if b then 1 else 0.

(** ** The shared random generator

    [raw] is the stream of integers the generator will deliver and [cursor]
    the number of draws consumed so far.  Every NumPy call of the source that
    draws a number advances the cursor by one. *)

Record rng : Type := MkRng { raw : nat -> Z; cursor : nat }.

Definition next_raw (g : rng) : Z * rng :=
  (raw g (cursor g), MkRng (raw g) (S (cursor g))).

(** A computation over a mutable state [S] that may raise.  [M] is the case
    where the only state is the generator. *)
Definition ST (S A : Type) : Type := S -> result (A * S).
Abbreviation M := (ST rng).

Definition ret {S A} (a : A) : ST S A := fun s => Ok (a, s).
Definition raise {S A} (e : exn) : ST S A := fun _ => Raise e.
Definition bind {S A B} (m : ST S A) (k : A -> ST S B) : ST S B :=
  fun s => match m s with
           | Ok (a, s') => k a s'
           | Raise e => Raise e
           end.
Definition lift {S A} (r : result A) : ST S A :=
  fun s => match r with Ok a => Ok (a, s) | Raise e => Raise e end.

(** Run a generator computation inside a larger state [W * rng]. *)
Definition with_rng {W A} (m : M A) : ST (W * rng) A :=
  fun '(w, g) => match m g with
                 | Ok (a, g') => Ok (a, (w, g'))
                 | Raise e => Raise e
                 end.

Declare Scope rand_scope.
Delimit Scope rand_scope with rand.
Notation "'let*' x ':=' m 'in' k" := (bind m (fun x => k))
  (at level 10, x pattern, m at level 100, k at level 200) : rand_scope.

(** [for x in xs: body] collecting one value per iteration. *)
Fixpoint for_each {S A B} (body : A -> ST S B) (xs : list A)
  : ST S (list B) :=
  match xs with
  | [] => ret []
  | x :: xs' =>
      (let* b := body x in let* bs := for_each body xs' in ret (b :: bs))%rand
  end.

(** [for x in xs: acc = body(acc, x)]. *)
Fixpoint for_fold {S A T} (body : T -> A -> ST S T) (xs : list A) (t : T)
  : ST S T :=
  match xs with
  | [] => ret t
  | x :: xs' => (let* t' := body t x in for_fold body xs' t')%rand
  end.

(** [enumerate(xs)] *)
Definition enumerate {A} (xs : list A) : list (nat * A) := imap pair xs.

(** [dict((x, i) for (i, x) in enumerate(xs))]: a later occurrence of a key
    overwrites an earlier one. *)
Definition remap_of {K} `{Countable K} (xs : list K) : gmap K nat :=
  foldl (fun m '(idx, x) => <[x := idx]> m) ∅ (enumerate xs).

(** Reading a [defaultdict]: the default when the key is absent. *)
Definition getd {K} `{Countable K} {V} (d : V) (m : gmap K V) (k : K) : V :=
  default d (m !! k).

(** [a[idxs]] for a list of positions: [IndexError] when one is out of range. *)
Definition take_rows {A} (a : list A) (idxs : list nat) : result (list A) :=
  of_option IndexError (mapM (fun i => a !! i) idxs).

(** [for x in xs: ...] over a computation that may raise. *)
Definition traverse {A B} (f : A -> result B) : list A -> result (list B) :=
  fix go (xs : list A) : result (list B) :=
    match xs with
    | [] => Ok []
    | x :: xs' => (let+ b := f x in let+ bs := go xs' in Ok (b :: bs))%res
    end.

(** Comparisons of idealised floats. *)
Definition Qlt_bool (a b : Q) : bool := negb (Qle_bool b a).

(** [np.random.choice(n)] and [np.random.randint(0, n)]: a position below
    [n]; both raise [ValueError] when [n] is not positive. *)
Definition choice (n : nat) : M nat :=
  fun g =>
    if (n =? 0)%nat then Raise ValueError
    else let '(r, g') := next_raw g in
         Ok (Z.to_nat (r mod Z.of_nat n), g').

Definition randint0 (n : nat) : M nat := choice n.

(** [np.random.uniform(low, high)]: NumPy draws 53 random bits [u / 2^53]
    and returns [low + (high - low) * u]. *)
Definition unit_draw (r : Z) : Q := (r mod 2 ^ 53) # (2 ^ 53).

Definition uniform (low high : Q) : M Q :=
  fun g => let '(r, g') := next_raw g in
           Ok ((low + (high - low) * unit_draw r)%Q, g').

(** [np.random.permutation(n)]: NumPy shuffles [arange(n)] from the last
    position down, swapping position [i] with a position drawn from [0..i]. *)
Definition swap (l : list nat) (i j : nat) : list nat :=
  match l !! i, l !! j with
  | Some a, Some b => <[i := b]> (<[j := a]> l)
  | _, _ => l
  end.

Fixpoint shuffle (i : nat) (l : list nat) : M (list nat) :=
  match i with
  | O => ret l
  | S i' => (let* j := choice (S i) in shuffle i' (swap l i j))%rand
  end.

Definition permutation (n : nat) : M (list nat) := shuffle (n - 1) (seq 0 n).

(** [sorted(xs)] and [sorted(set(xs))] on positions. *)
Definition sorted (xs : list nat) : list nat := merge_sort (≤)%nat xs.
Definition sorted_set (xs : list nat) : list nat := sorted (remove_dups xs).

(** The slice [xs[:k]] for an integer [k]; a negative [k] counts from the
    end. *)
Definition slice_to {A} (k : Z) (xs : list A) : list A :=
  if k <? 0 then take (length xs - Z.to_nat (- k)) xs
  else take (Z.to_nat k) xs.

(** ** [produce_addition_set] *)

Module Addition.

(** [selected_digits] as a caller passes it: one list of digits shared by all
    operand positions, or one list of digits per operand position. *)
Inductive selected_digits_arg : Type :=
| DigitList (ds : list Z)
| DigitLists (dss : list (list Z)).

(** Lines 185-191 (and 518-521 of [generate_data]): replicate a flat list,
    reject a list of lists of the wrong length.  [selected_digits[0]] raises
    [IndexError] on an empty list before either branch is taken. *)
Definition check_selected_digits (num_operands : nat)
    (selected_digits : selected_digits_arg) : result (list (list Z)) :=
  match selected_digits with
  | DigitList [] | DigitLists [] => Raise IndexError
  | DigitList ds => Ok (replicate num_operands ds)
  | DigitLists dss =>
      if negb (length dss =? num_operands)%nat
      then Raise ValueError_selected_digits
      else Ok dss
  end.

(** Line 193: [dict((dig, idx) for (idx, dig) in enumerate(operand_digits))] *)
Definition operand_remap (operand_digits : list Z) : gmap Z nat :=
  remap_of operand_digits.

(** Lines 200-203: the positions of [y] whose digit is allowed. *)
Definition filter_idxs (y : list Z) (allowed_digits : list Z) : list nat :=
  omap (fun '(idx, digit) =>
          if bool_decide (digit ∈ allowed_digits) then Some idx else None)
       (enumerate y).

(** [torch.nn.functional.one_hot(torch.LongTensor([i]), num_classes=n)] *)
Definition one_hot (i n : nat) : result (list Z) :=
  if (i <? n)%nat
  then Ok ((fun k => int_of_bool (k =? i)%nat) <$> seq 0 n)
  else Raise RuntimeError.

(** [np.max(xs)]: raises on an empty sequence. *)
Definition np_max (xs : list Z) : result Z :=
  match xs with
  | [] => Raise ValueError
  | x :: xs' => Ok (foldl Z.max x xs')
  end.

(** Lines 255-260: the label transform, for an integer threshold. *)
Definition transform_label (even_labels : bool) (threshold_labels : option Z)
    (sample_label : Z) : Z :=
  if even_labels then int_of_bool (sample_label mod 2 =? 0)
  else match threshold_labels with
       | Some t => int_of_bool (t <=? sample_label)
       | None => sample_label
       end.

Section WithImages.

(** One corpus image (a pixel grid).  The synthesis never looks inside an
    image: it copies operand images and concatenates them along one axis, so a
    composite image is kept as the list of its operand images. *)
Context {image : Type}.

(** Lines 262-273 and 278-289: channel replication, transpose, division by
    255, additive Gaussian noise and clipping.  They act on pixels only (the
    noise draws from the shared generator) and are taken as given. *)
Variable finish_images : list (list image) -> M (list (list image)).

(** The four local accumulators of the per-sample loop body. *)
Record acc : Type := MkAcc {
  operands : list image;
  concepts : list (list Z);
  sample_label : Z;
  selected : list Z
}.

(** One synthesized sample: the operand images (to be concatenated), the raw
    digits drawn for them, the concatenated concept vector and the task
    label. *)
Record sample : Type := MkSample {
  s_operands : list image;
  s_selected : list Z;
  s_concepts : list Z;
  s_label : Z
}.

(** Everything [zip] hands to one iteration of the operand loop. *)
Record operand_pool : Type := MkPool {
  operand_digits : list Z;
  remap : gmap Z nat;
  total_samples : list image;
  total_labels : list Z
}.

(** Lines 221-248: the body of the loop over operand positions. *)
Definition operand_step (even_concepts : bool) (a : acc) (p : operand_pool)
  : M acc :=
  (let* img_idx := choice (length (total_samples p)) in
   let* digit := lift (of_option IndexError (total_labels p !! img_idx)) in
   let* img := lift (of_option IndexError (total_samples p !! img_idx)) in
   let* concept_vals := lift (
     if (2 <? length (operand_digits p))%nat then
       (let+ r := of_option KeyError (remap p !! digit) in
        if even_concepts
        then Ok [int_of_bool (Z.of_nat r mod 2 =? 0)]
        else one_hot r (length (operand_digits p)))%res
     else if even_concepts then Ok [int_of_bool (digit mod 2 =? 0)]
     else (let+ max_bound := np_max (operand_digits p) in
           Ok [int_of_bool (digit =? max_bound)])%res) in
   ret {| operands := operands a ++ [img];
          concepts := concepts a ++ [concept_vals];
          sample_label := sample_label a + digit;
          selected := selected a ++ [digit] |})%rand.

(** Lines 211-261: one iteration of the loop over [range(dataset_size)].
    [np.concatenate] raises on an empty list of operands. *)
Definition synth_sample (even_concepts even_labels : bool)
    (threshold_labels : option Z) (pools : list operand_pool) : M sample :=
  (let* a := for_fold (operand_step even_concepts) pools
               {| operands := []; concepts := []; sample_label := 0;
                  selected := [] |} in
   match operands a with
   | [] => raise ValueError
   | _ =>
       ret {| s_operands := operands a;
              s_selected := selected a;
              s_concepts := concat (concepts a);
              s_label :=
                transform_label even_labels threshold_labels (sample_label a) |}
   end)%rand.

(** Lines 200-205: the images and the labels of one operand's pool. *)
Definition operand_total (X : list image) (y : list Z)
    (allowed_digits : list Z) : result (list image * list Z) :=
  let filter_idxs := filter_idxs y allowed_digits in
  (let+ xs := take_rows X filter_idxs in
   let+ ls := take_rows y filter_idxs in
   Ok (xs, ls))%res.

(** Lines 193-205 and the [zip] of line 215: remap tables and digit pools. *)
Definition build_pools (X : list image) (y : list Z)
    (selected_digits : list (list Z)) : result (list operand_pool) :=
  let operand_remaps := operand_remap <$> selected_digits in
  (let+ totals := traverse (operand_total X y) selected_digits in
   Ok ((fun '(ds, rm, (xs, ls)) => MkPool ds rm xs ls)
         <$> zip (zip selected_digits operand_remaps) totals))%res.

(** Lines 182-264: the samples, in order.  [y] is the label column (after
    line 184 for a column vector).  The final [np.concatenate] over the
    samples raises when [dataset_size] is zero. *)
Definition synthesize (X : list image) (y : list Z) (dataset_size : nat)
    (num_operands : nat) (selected_digits : selected_digits_arg)
    (even_concepts even_labels : bool) (threshold_labels : option Z)
  : M (list sample) :=
  (let* dss := lift (check_selected_digits num_operands selected_digits) in
   let* pools := lift (build_pools X y dss) in
   let* samples :=
     for_each (fun _ : nat =>
                 synth_sample even_concepts even_labels threshold_labels pools)
              (seq 0 dataset_size) in
   match samples with
   | [] => raise ValueError
   | _ => ret samples
   end)%rand.

(** The returned triple. *)
Record bundle : Type := MkBundle {
  sum_train_samples : list (list image);
  sum_train_labels : list Z;
  sum_train_concepts : list (list Z)
}.

(** [concepts[:, cols]] *)
Definition select_columns {A} (cols : list nat) (rows : list (list A))
  : result (list (list A)) :=
  traverse (fun r => take_rows r cols) rows.

Definition produce_addition_set (X : list image) (y : list Z)
    (dataset_size : nat) (num_operands : nat)
    (selected_digits : selected_digits_arg)
    (sample_concepts : option (list nat))
    (even_concepts even_labels : bool) (threshold_labels : option Z)
    (concept_transform : option (list (list Z) -> result (list (list Z))))
  : M bundle :=
  (let* samples := synthesize X y dataset_size num_operands selected_digits
                     even_concepts even_labels threshold_labels in
   let cs := s_concepts <$> samples in
   let* cs := lift (match sample_concepts with
                    | Some cols => select_columns cols cs
                    | None => Ok cs
                    end) in
   let* cs := lift (match concept_transform with
                    | Some f => f cs
                    | None => Ok cs
                    end) in
   let* xs := finish_images (s_operands <$> samples) in
   ret {| sum_train_samples := xs;
          sum_train_labels := s_label <$> samples;
          sum_train_concepts := cs |})%rand.

End WithImages.

End Addition.

(** ** [get_ss_components] *)

Module SemiSup.

(** Lines 36-38: [class_count[y] += 1] for every label. *)
Definition count_classes (ys : list Z) : gmap Z nat :=
  foldl (fun m y => <[y := S (getd 0%nat m y)]> m) ∅ ys.

(** The two dictionaries the stratification loop updates. *)
Record strat : Type := MkStrat {
  l_choice : gmap nat bool;
  labeled_count : gmap Z nat
}.

(** Lines 41-46: the body of the loop over [enumerate(ys)]. *)
Definition stratify_step (labeled_ratio : Q) (class_count : gmap Z nat)
    (st : strat) (iy : nat * Z) : strat :=
  let '(idx, y) := iy in
  let class_label := y in
  if Qlt_bool (inject_Z (Z.of_nat (getd 0%nat (labeled_count st) class_label)))
              (labeled_ratio
               * inject_Z (Z.of_nat (getd 0%nat class_count class_label)))
  then {| l_choice := <[idx := true]> (l_choice st);
          labeled_count :=
            <[class_label := S (getd 0%nat (labeled_count st) class_label)]>
              (labeled_count st) |}
  else {| l_choice := <[idx := false]> (l_choice st);
          labeled_count := labeled_count st |}.

(** Lines 35-46: the [training] branch. *)
Definition stratify (labeled_ratio : Q) (ys : list Z) : strat :=
  let class_count := count_classes ys in
  foldl (stratify_step labeled_ratio class_count)
        {| l_choice := ∅; labeled_count := ∅ |} (enumerate ys).

(** Lines 48-49: every sample labelled. *)
Definition all_labeled (n : nat) : gmap nat bool :=
  foldl (fun m idx => <[idx := true]> m) ∅ (seq 0 n).

(** The value a Python loop variable holds once [for v in range(n)] has
    ended: the last position, or whatever it held before when the range is
    empty ([None] stands for an unbound name). *)
Definition after_range (before : option nat) (n : nat) : option nat :=
  match n with O => before | S m => Some m end.

(** [sum] of a list of rationals. *)
Definition Qsum (qs : list Q) : Q := foldr Qplus 0%Q qs.

(** What the neighbour search returns for one sample. *)
Record nbr_info : Type := MkNbr { indices : list nat; weights : list Q }.

(** What the function returns, tensor by tensor. *)
Record components {feature concept : Type} : Type := MkComponents {
  out_xs : list feature;
  out_ys : list Z;
  out_cs : list concept;
  out_l : list bool;
  out_nbr_concepts : list (list concept);
  out_nbr_weights : list (list Q)
}.
Arguments components : clear implicits.

Section WithSearch.

(** A flattened image and one row of the concept array. *)
Context {feature concept : Type}.

(** scikit-learn's [NearestNeighbors(n_neighbors=k, metric='cosine')]:
    [kneighbors k fitted queries] fits the index on [fitted] and returns, for
    every query, [k] cosine distances and the [k] positions within [fitted]
    they belong to.  The search itself is taken as given. *)
Variable kneighbors :
  nat -> list feature -> list feature -> result (list (list Q) * list (list nat)).

(** Lines 16-31. *)
Definition nearest_neighbors (xs : list feature) (l_choice : gmap nat bool)
    (k : nat) : result (list nbr_info) :=
  let labeled_features :=
    omap (fun '(idx, f) => if getd false l_choice idx then Some f else None)
         (enumerate xs) in
  (let+ (distances, indices) := kneighbors k labeled_features xs in
   let weights :=
     (fun row => let w := (fun d => / (d + (1 # 1000000)))%Q <$> row in
                 (fun v => v / Qsum w)%Q <$> w) <$> distances in
   Ok ((fun '(idx, w) => MkNbr idx w) <$> zip indices weights))%res.

(** Lines 60-72: one iteration of the final loop.  [idx] is the variable as
    it stands when the loop starts; the loop variable [i] is not read. *)
Definition gather (cs : list concept) (l_choice : gmap nat bool)
    (nbrs : list nbr_info) (idx : option nat) (i : nat)
  : result (bool * list concept * list Q) :=
  (let+ idx := of_option UnboundLocalError idx in
   let l := getd false l_choice idx in
   let+ nbr_info := of_option IndexError (nbrs !! idx) in
   let nbr_indices := indices nbr_info in
   let+ nbr_concepts := take_rows cs nbr_indices in
   let nbr_weights := weights nbr_info in
   Ok (l, nbr_concepts, nbr_weights))%res.

Definition get_ss_components (xs : list feature) (ys : list Z)
    (cs : list concept) (labeled_ratio : Q) (training : bool)
  : result (components feature concept) :=
  let l_choice :=
    if training then l_choice (stratify labeled_ratio ys)
    else all_labeled (length ys) in
  (* [idx] after lines 40 and 48 *)
  let idx := after_range None (length ys) in
  (* lines 51-55: the count, and the ratio that is logged *)
  let count :=
    length (filter (fun idx => getd false l_choice idx = true)
                   (seq 0 (size l_choice))) in
  let idx := after_range idx (size l_choice) in
  if (size l_choice =? 0)%nat then Raise ZeroDivisionError
  else
    (let+ nbrs := nearest_neighbors xs l_choice 2 in
     let+ rows := traverse (gather cs l_choice nbrs idx) (seq 0 (length ys)) in
     Ok {| out_xs := xs; out_ys := ys; out_cs := cs;
           out_l := (fun r => r.1.1) <$> rows;
           out_nbr_concepts := (fun r => r.1.2) <$> rows;
           out_nbr_weights := (fun r => r.2) <$> rows |})%res.

End WithSearch.

End SemiSup.

(** ** [inject_uncertainty] *)

Module Uncertainty.

(** One channel of one image ([x[i, ch, :, :]]), its pixels in row-major
    order; the source only ever combines such planes pixel by pixel. *)
Abbreviation plane := (list Q).

(** A tensor of images [B x C x H x W] and a concept tensor [B x n]. *)
Abbreviation images := (list (list plane)).
Abbreviation concept_matrix := (list (list Q)).

(** *** Tensors in memory

    Tensors are objects with identity: a [TensorDataset] holds references to
    its tensors, [c.numpy()] is a view of the same buffer as [c], and an
    assignment [c_new[i, j] = v] is visible through every reference.  The
    store maps a location to the tensor that lives there. *)

Inductive tensor : Type :=
| TImages (x : images)
| TLabels (y : list Z)
| TConcepts (c : concept_matrix).

Abbreviation loc := nat.
Abbreviation store := (list tensor).

(** [TensorDataset(x, y, c)] and [DataLoader(dataset, batch_size, num_workers)].
    The loop of line 96 unpacks three tensors from every batch, so the
    datasets it can go through are triples.  A loader that exists has passed
    the constructor's checks, so its batch size is positive. *)
Record tensor_dataset : Type := MkDataset { ds_x : loc; ds_y : loc; ds_c : loc }.
Record data_loader : Type := MkLoader {
  dataset : tensor_dataset;
  batch_size : positive;
  num_workers : nat
}.

(** State of a call: the tensors in memory and the shared generator. *)
Definition world : Type := (store * rng)%type.

Definition alloc (t : tensor) : ST world loc :=
  fun '(m, g) => Ok (length m, (m ++ [t], g)).

Definition read_images (l : loc) : ST world images :=
  fun '(m, g) => match m !! l with
                 | Some (TImages x) => Ok (x, (m, g))
                 | _ => Raise RuntimeError
                 end.
Definition read_labels (l : loc) : ST world (list Z) :=
  fun '(m, g) => match m !! l with
                 | Some (TLabels y) => Ok (y, (m, g))
                 | _ => Raise RuntimeError
                 end.
Definition read_concepts (l : loc) : ST world concept_matrix :=
  fun '(m, g) => match m !! l with
                 | Some (TConcepts c) => Ok (c, (m, g))
                 | _ => Raise RuntimeError
                 end.

(** In-place update of the buffer at [l]. *)
Definition write (l : loc) (t : tensor) : ST world unit :=
  fun '(m, g) => if (l <? length m)%nat then Ok (tt, (<[l := t]> m, g))
                 else Raise RuntimeError.

(** *** Iterating a loader

    The sequential sampler cuts [range(len(dataset))] into consecutive runs of
    [batch_size] positions (the last one may be shorter). *)
Fixpoint chunks_fuel {A} (fuel n : nat) (l : list A) : list (list A) :=
  match fuel, l with
  | _, [] => []
  | O, _ => []
  | S fuel', _ => take n l :: chunks_fuel fuel' n (drop n l)
  end.
Definition chunks {A} (n : positive) (l : list A) : list (list A) :=
  chunks_fuel (length l) (Pos.to_nat n) l.

(** [pure] view of [take_rows] inside a stateful computation. *)
Definition rows_of {S A} (a : list A) (idxs : list nat) : ST S (list A) :=
  lift (take_rows a idxs).

(** One step of the loader's iterator: [dataset[i]] for every position of the
    batch, then the default collate function stacks the rows into three new
    tensors.  The batch tensors are fresh objects; they share no memory with
    the dataset's tensors. *)
Definition next_batch (ds : tensor_dataset) (batch : list nat)
  : ST world (loc * loc * loc) :=
  (let* x := read_images (ds_x ds) in
   let* y := read_labels (ds_y ds) in
   let* c := read_concepts (ds_c ds) in
   let* xb := rows_of x batch in
   let* yb := rows_of y batch in
   let* cb := rows_of c batch in
   let* lx := alloc (TImages xb) in
   let* ly := alloc (TLabels yb) in
   let* lc := alloc (TConcepts cb) in
   ret (lx, ly, lc))%rand.

(** [len(dataset)] is the leading size of its first tensor. *)
Definition dataset_len (ds : tensor_dataset) : ST world nat :=
  (let* x := read_images (ds_x ds) in ret (length x))%rand.

(** *** The perturbation of one batch (lines 98-153)

    [x_new] and [c_new] are views of the batch tensors [x] and [c]: there is
    one image buffer and one concept buffer, threaded here as the pair
    [(x, c)] that every read and every assignment go through. *)

(** [shape[1]] of the image tensor and [shape[-1]] of the concept tensor. *)
Definition channels (x : images) : nat :=
  match x with [] => 0%nat | r :: _ => length r end.
Definition ncols (c : concept_matrix) : nat :=
  match c with [] => 0%nat | r :: _ => length r end.

Definition get2 {A} (a : list (list A)) (i j : nat) : result A :=
  of_option IndexError (a !! i ≫= fun r => r !! j).
Definition set2 {A} (a : list (list A)) (i j : nat) (v : A) : list (list A) :=
  match a !! i with
  | Some r => <[i := <[j := v]> r]> a
  | None => a
  end.

(** [x[mask, ch, :, :]]: plane [ch] of the rows where the mask holds. *)
Definition masked_planes (x : images) (c : concept_matrix) (j : nat)
    (value : Q) (ch : nat) : result (list plane) :=
  if (ch <? channels x)%nat then
    (let+ col := traverse
                   (fun r : list Q => of_option IndexError (r !! j)) c in
     let rows := omap (fun '(v, r) => if Qeq_bool v value then Some r else None)
                      (zip col x) in
     traverse (fun r : list plane => of_option IndexError (r !! ch))
                      rows)%res
  else Raise IndexError.

(** [p * a + b * q], pixel by pixel. *)
Definition blend (p : plane) (a b : Q) (q : plane) : plane :=
  zip_with (fun u v => (u * a + b * v)%Q) p q.

(** Lines 117-153: the body of the loop over rows [i] of column [j]. *)
Definition cell_step (uncertain_width : Q) (mixing threshold : bool)
    (j ch : nat) (possible_options_pos possible_options_neg : list plane)
    (xc : images * concept_matrix) (i : nat) : M (images * concept_matrix) :=
  let '(x, c) := xc in
  (let* old := lift (get2 c i j) in
   let* (x, c) :=
     if Qeq_bool old 1 then
       let* v := uniform (1 - uncertain_width) 1 in
       let c := set2 c i j v in
       if mixing then
         let* selected_mix := randint0 (length possible_options_neg) in
         let* other :=
           lift (of_option IndexError (possible_options_neg !! selected_mix)) in
         let* mine := lift (get2 x i ch) in
         ret (set2 x i ch (blend mine v (1 - v) other), c)
       else ret (x, c)
     else
       let* v := uniform 0 uncertain_width in
       let c := set2 c i j v in
       if mixing then
         let* selected_mix := randint0 (length possible_options_pos) in
         let* other :=
           lift (of_option IndexError (possible_options_pos !! selected_mix)) in
         let* mine := lift (get2 x i ch) in
         ret (set2 x i ch (blend mine (1 - v) v other), c)
       else ret (x, c) in
   if threshold then
     let* v := lift (get2 c i j) in
     ret (x, set2 c i j (inject_Z (int_of_bool (Qle_bool (1 # 2) v))))
   else ret (x, c))%rand.

(** Lines 101-153: the body of the loop over columns [j]. *)
Definition column_step (uncertain_width : Q) (mixing threshold : bool)
    (xc : images * concept_matrix) (j : nat) : M (images * concept_matrix) :=
  let '(x, c) := xc in
  let num_operands :=
    if (2 <? channels x)%nat then channels x else 1%nat in
  let ch := (j `div` num_operands)%nat in
  (let* (pos, neg) :=
     if mixing then
       let* pos := lift (masked_planes x c j 1 ch) in
       let* neg := lift (masked_planes x c j 0 ch) in
       ret (pos, neg)
     else ret ([], []) in
   for_fold (cell_step uncertain_width mixing threshold j ch pos neg)
            (seq 0 (length c)) (x, c))%rand.

(** Lines 98-153 for one batch. *)
Definition perturb_batch (uncertain_width : Q) (mixing threshold : bool)
    (x : images) (c : concept_matrix) : M (images * concept_matrix) :=
  if Qeq_bool uncertain_width 0 then ret (x, c)
  else for_fold (column_step uncertain_width mixing threshold)
                (seq 0 (ncols c)) (x, c).

(** *** The loop over batches and over datasets *)

(** Lines 96-156: one batch.  The lists [xs], [ys], [cs] of the source hold
    references to the batch buffers, kept here as locations. *)
Definition batch_step (ds : tensor_dataset) (uncertain_width : Q)
    (mixing threshold : bool) (acc : list loc * list loc * list loc)
    (batch : list nat) : ST world (list loc * list loc * list loc) :=
  let '(xs, ys, cs) := acc in
  (let* (lx, ly, lc) := next_batch ds batch in
   let* x := read_images lx in
   let* c := read_concepts lc in
   let* (x_new, c_new) :=
     with_rng (perturb_batch uncertain_width mixing threshold x c) in
   let* _ := write lx (TImages x_new) in
   let* _ := write lc (TConcepts c_new) in
   ret (xs ++ [lx], ys ++ [ly], cs ++ [lc]))%rand.

(** [np.concatenate(arrays, axis=0)] / [torch.cat]: raises on no arrays. *)
Definition concatenate {A} (arrays : list (list A)) : result (list A) :=
  match arrays with
  | [] => Raise ValueError
  | _ => Ok (concat arrays)
  end.

(** The constructor checks of [DataLoader]. *)
Definition make_loader (ds : tensor_dataset) (batch_size num_workers : Z)
  : result data_loader :=
  if num_workers <? 0 then Raise ValueError
  else match batch_size with
       | Zpos b => Ok (MkLoader ds b (Z.to_nat num_workers))
       | _ => Raise ValueError
       end.

(** Lines 91-161: one input loader. *)
Definition inject_one (uncertain_width : Q) (batch_size num_workers : Z)
    (mixing threshold : bool) (ds : data_loader) : ST world data_loader :=
  (let* n := dataset_len (dataset ds) in
   let* (xs, ys, cs) :=
     for_fold (batch_step (dataset ds) uncertain_width mixing threshold)
              (chunks (Uncertainty.batch_size ds) (seq 0 n)) ([], [], []) in
   let* xs := for_each read_images xs in
   let* x := lift (concatenate xs) in
   let* ys := for_each read_labels ys in
   let* y := lift (concatenate ys) in
   let* cs := for_each read_concepts cs in
   let* c := lift (concatenate cs) in
   let* lx := alloc (TImages x) in
   let* ly := alloc (TLabels y) in
   let* lc := alloc (TConcepts c) in
   lift (make_loader (MkDataset lx ly lc) batch_size num_workers))%rand.

Section WithSeed.

(** [seed_everything(s)]: the state of the generator right after seeding. *)
Variable seed_everything : Z -> rng.

Definition inject_uncertainty (datasets : list data_loader)
    (uncertain_width : Q) (batch_size num_workers : Z)
    (mixing threshold : bool) : ST world (list data_loader) :=
  (let* _ := (fun '(m, _) => Ok (tt, (m, seed_everything 42))) in
   for_each (inject_one uncertain_width batch_size num_workers mixing
               threshold) datasets)%rand.

End WithSeed.

End Uncertainty.

(** ** [generate_data] *)

Module GenData.

Import Addition.

(** The keys of [config] that the function reads before the loaders are
    built; [None] is an absent key, for which [config.get] supplies the
    default. *)
Record config : Type := MkConfig {
  selected_digits : option selected_digits_arg;
  num_operands : option nat;
  even_concepts : option bool;
  even_labels : option bool;
  threshold_labels : option Z;
  sampling_percent : option Q;
  sampling_groups : option bool
}.

(** A [dict] keyed by operand position, in insertion order. *)
Abbreviation dict V := (list (nat * V)).

Definition dict_mem {V} (k : nat) (d : dict V) : bool :=
  bool_decide (k ∈ d.*1).

(** [d[k] = v] *)
Definition dict_set {V} (k : nat) (v : V) (d : dict V) : dict V :=
  if dict_mem k d
  then (fun kv : nat * V => if (kv.1 =? k)%nat then (k, v) else kv) <$> d
  else d ++ [(k, v)].

(** What lines 526-540 leave in [num_concepts], [concept_group_map] and
    [n_tasks]; [None] is the name [n_tasks] still unbound. *)
Record layout : Type := MkLayout {
  num_concepts : nat;
  concept_group_map : dict (list nat);
  n_tasks : option Z
}.

(** Lines 534-537: the body of the loop over [enumerate(selected_digits)]. *)
Definition layout_step (st : nat * dict (list nat) * Z)
    (od : nat * list Z) : result (nat * dict (list nat) * Z) :=
  let '(num_concepts, concept_group_map, n_tasks) := st in
  let '(operand_idx, used_operand_digits) := od in
  let num_curr_concepts :=
    if (2 <? length used_operand_digits)%nat
    then length used_operand_digits else 1%nat in
  let concept_group_map :=
    dict_set operand_idx (seq num_concepts num_curr_concepts)
             concept_group_map in
  let num_concepts := (num_concepts + num_curr_concepts)%nat in
  (let+ m := np_max used_operand_digits in
   Ok (num_concepts, concept_group_map, n_tasks + m))%res.

Fixpoint layout_loop (st : nat * dict (list nat) * Z)
    (ods : list (nat * list Z)) : result (nat * dict (list nat) * Z) :=
  match ods with
  | [] => Ok st
  | od :: ods' => (let+ st' := layout_step st od in layout_loop st' ods')%res
  end.

(** Lines 526-540. *)
Definition initial_layout (even_concepts even_labels : bool)
    (threshold_labels : option Z) (num_operands : nat)
    (selected_digits : list (list Z)) : result layout :=
  (let+ lay :=
     if even_concepts then
       Ok (MkLayout num_operands
                    ((fun i => (i, [i])) <$> seq 0 num_operands) None)
     else
       let+ (num_concepts, concept_group_map, n_tasks) :=
         layout_loop (0%nat, [], 1) (enumerate selected_digits) in
       Ok (MkLayout num_concepts concept_group_map (Some n_tasks)) in
   if even_labels || bool_decide (threshold_labels ≠ None)
   then Ok (MkLayout (num_concepts lay) (concept_group_map lay) (Some 1))
   else Ok lay)%res.

(** *** The selection cache

    One [.npy] file per directory, kind of selection, sampling percentage and
    operand count.  The percentage enters the file name through its printed
    form, which is the same for equal numbers. *)
Abbreviation cache_key := (string * bool * (Z * positive) * nat)%type.

Definition cache_file (root_dir : string) (groups : bool)
    (sampling_percent : Q) (num_operands : nat) : cache_key :=
  let q := Qred sampling_percent in
  (root_dir, groups, (Qnum q, Qden q), num_operands).

(** State of a call: the files under [root_dir] and the shared generator. *)
Definition world : Type := (gmap cache_key (list nat) * rng)%type.

(** Lines 554-560 and 573-579: load the file when it exists and [rerun] is
    off, else draw a permutation of [range(total)], keep the sorted first
    [new_n] entries and save them. *)
Definition cached_selection (rerun : bool) (file : cache_key)
    (total : nat) (new_n : Z) : ST world (list nat) :=
  fun '(fs, g) =>
    match (if rerun then None else fs !! file) with
    | Some saved => Ok (saved, (fs, g))
    | None =>
        match permutation total g with
        | Ok (perm, g') =>
            let selection := sorted (slice_to new_n perm) in
            Ok (selection, (<[file := selection]> fs, g'))
        | Raise e => Raise e
        end
    end.

(** [int(np.ceil(n * p))] *)
Definition ceil_of (n : nat) (p : Q) : Z :=
  Qceiling (inject_Z (Z.of_nat n) * p).

(** Lines 585-596: the rebuilt concept-group map. *)
Definition regroup_inner (selected_concepts : list nat) (remap : gmap nat nat)
    (selected_concept : nat) (new_concept_group : dict (list nat))
    (item : nat * list nat) : dict (list nat) :=
  let '(concept_group_name, group_concepts) := item in
  if bool_decide (selected_concept ∈ group_concepts) then
    if dict_mem concept_group_name new_concept_group then new_concept_group
    else
      dict_set concept_group_name
        (omap (fun other_concept =>
                 if bool_decide (other_concept ∈ selected_concepts)
                 then remap !! other_concept else None)
              group_concepts)
        new_concept_group
  else new_concept_group.

Definition regroup (concept_group_map : dict (list nat))
    (selected_concepts : list nat) : dict (list nat) :=
  let remap := remap_of selected_concepts in
  foldl (fun new_concept_group selected_concept =>
           foldl (regroup_inner selected_concepts remap selected_concept)
                 new_concept_group concept_group_map)
        [] selected_concepts.

(** What the subsampling block leaves behind: the raw selection (groups in
    group mode, concepts otherwise), the selected concepts, and the new
    [num_concepts] and [concept_group_map]. *)
Record subsampled : Type := MkSub {
  selection : list nat;
  selected_concepts : list nat;
  new_n_concepts : Z;
  new_concept_group : dict (list nat)
}.

(** Lines 546-602, entered when [sampling_percent != 1]. *)
Definition subsample (root_dir : string) (rerun : bool) (num_operands : nat)
    (sampling_percent : Q) (sampling_groups : bool)
    (num_concepts : nat) (concept_group_map : dict (list nat))
  : ST world subsampled :=
  (let* (selection, selected_concepts, new_n_concepts) :=
     if sampling_groups then
       let new_n_groups := ceil_of (length concept_group_map) sampling_percent in
       let selected_groups_file :=
         cache_file root_dir true sampling_percent num_operands in
       let* selected_groups :=
         cached_selection rerun selected_groups_file
                          (length concept_group_map) new_n_groups in
       let group_concepts := concept_group_map.*2 in
       let* chosen := lift (take_rows group_concepts selected_groups) in
       let selected_concepts := sorted_set (concat chosen) in
       ret (selected_groups, selected_concepts,
            Z.of_nat (length selected_concepts))
     else
       let new_n_concepts := ceil_of num_concepts sampling_percent in
       let selected_concepts_file :=
         cache_file root_dir false sampling_percent num_operands in
       let* selected_concepts :=
         cached_selection rerun selected_concepts_file
                          num_concepts new_n_concepts in
       ret (selected_concepts, selected_concepts, new_n_concepts) in
   ret {| selection := selection;
          selected_concepts := selected_concepts;
          new_n_concepts := new_n_concepts;
          new_concept_group := regroup concept_group_map selected_concepts |}
  )%rand.

(** Lines 542-611: subsample unless [sampling_percent] is 1.  Leaves the
    current [num_concepts] and [concept_group_map] and the columns the
    concept transform selects (if any). *)
Definition apply_sampling (config : config) (root_dir : string)
    (rerun : bool) (num_operands : nat) (lay : layout)
  : ST world (Z * dict (list nat) * option (list nat)) :=
  let sampling_percent := default 1%Q (sampling_percent config) in
  let sampling_groups := default false (sampling_groups config) in
  if negb (Qeq_bool sampling_percent 1) then
    (let* sub := subsample root_dir rerun num_operands sampling_percent
                           sampling_groups (num_concepts lay)
                           (concept_group_map lay) in
     ret (new_n_concepts sub, new_concept_group sub,
          Some (selected_concepts sub)))%rand
  else ret (Z.of_nat (num_concepts lay), concept_group_map lay, None).

(** The returned metadata [(num_concepts, n_tasks, concept_group_map)]. *)
Definition metadata : Type := (Z * Z * dict (list nat))%type.

Section WithLoaders.

(** The three loaders and the imbalance vector. *)
Context {loaders imbalance : Type}.

(** Lines 613-651: [load_mnist_addition] on the downloaded corpus and the
    optional scan of the training loader.  It receives the configuration, the
    per-operand digits, the selected concepts of the concept transform (if
    any) and the current [num_concepts]. *)
Variable load_and_weigh :
  config -> list (list Z) -> option (list nat) -> Z ->
  ST world (loaders * imbalance).

Definition generate_data (config : config) (root_dir : string)
    (rerun : bool) : ST world (loaders * imbalance * metadata) :=
  let selected_digits :=
    default (DigitList [0; 1]) (selected_digits config) in
  let num_operands := default 32%nat (num_operands config) in
  (let* selected_digits :=
     lift (check_selected_digits num_operands selected_digits) in
   let even_concepts := default false (even_concepts config) in
   let even_labels := default false (even_labels config) in
   let threshold_labels := threshold_labels config in
   let* lay := lift (initial_layout even_concepts even_labels threshold_labels
                                    num_operands selected_digits) in
   let* (num_concepts, concept_group_map, concept_transform) :=
     apply_sampling config root_dir rerun num_operands lay in
   let* (dls, imbalance) :=
     load_and_weigh config selected_digits concept_transform num_concepts in
   let* n_tasks := lift (of_option UnboundLocalError (n_tasks lay)) in
   ret (dls, imbalance, (num_concepts, n_tasks, concept_group_map)))%rand.

End WithLoaders.

End GenData.

(** ** Small concrete inputs

    Corpora, generators and collaborators small enough to run the functions
    above on; the examples among the properties below use them. *)

Module Demo.

(** A generator whose [k]-th raw draw is [7 k + 3]. *)
Definition rng0 : rng := MkRng (fun k => Z.of_nat k * 7 + 3) 0.

(** A corpus of six "images" (named by numbers) and their digits. *)
Definition X0 : list Z := [100; 101; 102; 103; 104; 105].
Definition y0 : list Z := [0; 1; 2; 1; 0; 5].

(** No pixel post-processing. *)
Definition finish0 : list (list Z) -> M (list (list Z)) := ret.

(** A neighbour search for features named by numbers: it needs [k] fitted
    points, and answers a query below 102 with the fitted positions [0; 1]
    and any other query with [1; 0]. *)
Definition knn0 (k : nat) (fitted queries : list Z)
  : result (list (list Q) * list (list nat)) :=
  if (length fitted <? k)%nat then Raise ValueError
  else Ok ((fun _ => [0; 1 # 2]%Q) <$> queries,
           (fun q => if q <? 102 then [0; 1]%nat else [1; 0]%nat) <$> queries).

(** Three samples with two channels of one pixel and two concepts each, in a
    loader of batch size two. *)
Definition x1 : Uncertainty.images :=
  [[[1]; [2]]; [[3]; [4]]; [[5]; [6]]]%Q.
Definition c1 : Uncertainty.concept_matrix := [[1; 0]; [0; 1]; [1; 1]]%Q.
Definition store1 : list Uncertainty.tensor :=
  [Uncertainty.TImages x1; Uncertainty.TLabels [0; 1; 2];
   Uncertainty.TConcepts c1].
Definition loader1 : Uncertainty.data_loader :=
  Uncertainty.MkLoader (Uncertainty.MkDataset 0 1 2) 2 0.

(** A loader stage that does nothing. *)
Definition load0 (_ : GenData.config) (_ : list (list Z))
    (_ : option (list nat)) (_ : Z) : ST GenData.world (unit * unit) :=
  ret (tt, tt).

(** Three operands with three, two and four allowed digits, the layout
    [generate_data] computes for them, and a run of the subsampling block at
    one half on an empty cache directory, by groups or by concepts. *)
Definition digits3 : list (list Z) := [[0; 1; 2]; [0; 1]; [3; 4; 5; 6]].
Definition layout3 : GenData.layout :=
  GenData.MkLayout 8 [(0, [0; 1; 2]); (1, [3]); (2, [4; 5; 6; 7])]%nat
                   (Some 10).

Definition config_even : GenData.config :=
  GenData.MkConfig (Some (Addition.DigitLists digits3)) (Some 3%nat)
                   (Some true) None None None None.
Definition config_even_mismatch : GenData.config :=
  GenData.MkConfig (Some (Addition.DigitLists [[0; 1]])) (Some 2%nat)
                   (Some true) None None None None.


(** Seeding puts the generator back at the start of its stream. *)
Definition seed0 (_ : Z) : rng := rng0.

(** What [inject_uncertainty] returns on [loader1] for width 1/10 without
    mixing: the loaders and the store afterwards. *)
Definition injected (threshold : bool)
  : list Uncertainty.data_loader * Uncertainty.world :=
  match Uncertainty.inject_uncertainty seed0 [loader1] (1 # 10) 2 0 false
          threshold (store1, rng0) with
  | Ok r => r
  | Raise _ => ([], ([], rng0))
  end.

End Demo.

(** ** [load_mnist_addition] *)

Module Loading.

Import Addition SemiSup.

(** What a call may raise: an exception of the functions above, or the
    failed assertion of [TensorDataset]. *)
Inductive error : Type :=
| Raised (e : exn)
| AssertionError.       (* "Size mismatch between tensors" *)

(** A computation over the shared generator that may fail with an
    [error]. *)
Definition LM (A : Type) : Type := rng -> error + A * rng.

Definition pure {A} (a : A) : LM A := fun g => inr (a, g).
Definition fail {A} (e : error) : LM A := fun _ => inl e.
Definition and_then {A B} (m : LM A) (k : A -> LM B) : LM B :=
  fun g => match m g with
           | inr (a, g') => k a g'
           | inl e => inl e
           end.
(** A call of one of the functions above. *)
Definition call {A} (m : M A) : LM A :=
  fun g => match m g with
           | Ok r => inr r
           | Raise e => inl (Raised e)
           end.
Definition of_result {A} (r : result A) : LM A := call (lift r).

Declare Scope load_scope.
Delimit Scope load_scope with load.
Notation "'let%' x ':=' m 'in' k" := (and_then m (fun x => k))
  (at level 10, x pattern, m at level 100, k at level 200) : load_scope.

(** [int(q)] for an idealised float: rounding towards zero. *)
Definition int_of (q : Q) : Z :=
  if Qle_bool 0 q then Qfloor q else Qceiling q.

(** Lines 328-333: one range per operand, starting at the number of groups
    collected so far. *)
Definition concept_groups (selected_digits : list (list Z))
  : list (list nat) :=
  foldl (fun concept_groups operand_digits =>
           concept_groups
             ++ [seq (length concept_groups) (length operand_digits)])
        [] selected_digits.

Section WithCorpus.

(** A digit image of the corpus. *)
Context {image : Type}.

(** A composite sample: the operand images, to be concatenated. *)
Abbreviation composite := (list image).

(** [TensorDataset(x, y, c, l, ncs, nws)]: six tensors with one row per
    sample. *)
Record ss_dataset : Type := MkSsDataset {
  t_x : list composite;
  t_y : list Z;
  t_c : list (list Z);
  t_l : list bool;
  t_ncs : list (list (list Z));
  t_nws : list (list Q)
}.

(** [DataLoader(dataset, batch_size=..., num_workers=...)] *)
Record ss_loader : Type := MkSsLoader {
  ss_dataset_of : ss_dataset;
  ss_batch_size : positive;
  ss_num_workers : nat
}.

(** What the function returns: the test loader alone under [test_only],
    else the three loaders ([val_dl] is [None] without validation share). *)
Inductive loaded : Type :=
| TestOnly (test_dl : ss_loader)
| Loaders (train_dl : ss_loader) (val_dl : option ss_loader)
          (test_dl : ss_loader).

(** Lines 335-356 and 400-420: the MNIST split ([train] or not) as an array
    of images and the column of their digits; the download may fail. *)
Variable mnist : bool -> result (list image * list Z).

(** [sklearn.model_selection.train_test_split(x, y, test_size=...)], which
    shuffles with the shared generator; it returns
    [(x_train, x_val, y_train, y_val)]. *)
Variable train_test_split :
  list image -> list Z -> Q ->
  M (list image * list image * list Z * list Z).

(** The pixel stage of [produce_addition_set] for one noise level (the
    image format and the channel layout are the same in all calls). *)
Variable finish_images : Q -> list composite -> M (list composite).

(** The neighbour search of [get_ss_components]. *)
Variable kneighbors :
  nat -> list composite -> list composite ->
  result (list (list Q) * list (list nat)).

(** [np.random.seed(s)]: the generator right after seeding. *)
Variable np_random_seed : Z -> rng.

(** [TensorDataset] on what [get_ss_components] returns.  The label tensor
    went through [squeeze()]: with one sample it has no dimension left, and
    asking for its first size raises [IndexError].  Otherwise the
    constructor asserts that the six tensors have as many rows. *)
Definition tensor_dataset (c : components composite (list Z))
  : LM ss_dataset :=
  if (length (out_ys c) =? 1)%nat then fail (Raised IndexError)
  else if forallb (Nat.eqb (length (out_xs c)))
            [length (out_ys c); length (out_cs c); length (out_l c);
             length (out_nbr_concepts c); length (out_nbr_weights c)]
  then pure {| t_x := out_xs c; t_y := out_ys c; t_c := out_cs c;
               t_l := out_l c; t_ncs := out_nbr_concepts c;
               t_nws := out_nbr_weights c |}
  else fail AssertionError.

(** The constructor checks of [DataLoader]. *)
Definition data_loader (data : ss_dataset) (batch_size num_workers : Z)
  : LM ss_loader :=
  if num_workers <? 0 then fail (Raised ValueError)
  else match batch_size with
       | Zpos b => pure (MkSsLoader data b (Z.to_nat num_workers))
       | _ => fail (Raised ValueError)
       end.

(** [inject_uncertainty] on a loader over six tensors.  The loop header of
    line 96 unpacks every batch into the three names [x, y, c]: the first
    batch has six tensors and the unpacking raises [ValueError]; a loader
    with no batch leaves nothing to concatenate at line 157, which raises
    [ValueError] as well.  (The generator is reseeded before either.) *)
Definition inject_uncertainty (concept_groups : list (list nat))
    (ld : ss_loader) : LM ss_loader :=
  match Uncertainty.chunks (ss_batch_size ld)
          (seq 0 (length (t_x (ss_dataset_of ld)))) with
  | [] => fail (Raised ValueError)
  | _ :: _ => fail (Raised ValueError)
  end.

Section WithArguments.

Variable labeled_ratio : Q.
Variable seed : Z.
Variable train_dataset_size test_dataset_size : nat.
Variable num_operands : nat.
Variable selected_digits : list (list Z).
Variable uncertain_width : Q.
Variable val_percent : Q.
Variable batch_size num_workers : Z.
Variable test_only : bool.
Variable sample_concepts : option (list nat).
Variable even_concepts even_labels : bool.
Variable threshold_labels : option Z.
Variable concept_transform :
  option (list (list Z) -> result (list (list Z))).
Variable noise_level : Q.
Variable test_noise_level : option Q.

(** Lines 359-395, 429-464 and 468-504: one split, from the corpus arrays to
    its loader. *)
Definition build_split (X : list image) (y : list Z) (dataset_size : nat)
    (noise_level : Q) (labeled_ratio : Q) (training : bool)
  : LM ss_loader :=
  (let% b := call (produce_addition_set (finish_images noise_level) X y
                     dataset_size num_operands (DigitLists selected_digits)
                     sample_concepts even_concepts even_labels
                     threshold_labels concept_transform) in
   let% components :=
     of_result (get_ss_components kneighbors (sum_train_samples b)
                  (sum_train_labels b) (sum_train_concepts b)
                  labeled_ratio training) in
   let% data := tensor_dataset components in
   let% dl := data_loader data batch_size num_workers in
   if negb (Qeq_bool uncertain_width 0) && negb even_concepts
   then inject_uncertainty (concept_groups selected_digits) dl
   else pure dl)%load.

(** Lines 293-506.  [selected_digits] is a list of lists, as
    [generate_data] passes it (the loop of lines 328-333 takes the length of
    every entry).  The size of the validation split is
    [int(train_dataset_size * val_percent)]; [produce_addition_set] uses a
    size in [range] only, where a negative one counts as zero. *)
Definition load_mnist_addition : LM loaded :=
  let test_noise_level := default noise_level test_noise_level in
  (let% _ := (fun _ => inr (tt, np_random_seed seed)) in
   let% (x_test, y_test) := of_result (mnist false) in
   let% test_dl := build_split x_test y_test test_dataset_size
                               test_noise_level 1 false in
   if test_only then pure (TestOnly test_dl)
   else
     let% (x_train, y_train) := of_result (mnist true) in
     let% (x_train, y_train, val_dl) :=
       if negb (Qeq_bool val_percent 0) then
         let% (x_train, x_val, y_train, y_val) :=
           call (train_test_split x_train y_train val_percent) in
         let% val_dl :=
           build_split x_val y_val
             (Z.to_nat (int_of (inject_Z (Z.of_nat train_dataset_size)
                                * val_percent)))
             noise_level 1 false in
         pure (x_train, y_train, Some val_dl)
       else pure (x_train, y_train, None) in
     let% train_dl := build_split x_train y_train train_dataset_size
                                  noise_level labeled_ratio true in
     pure (Loaders train_dl val_dl test_dl))%load.

End WithArguments.

End WithCorpus.

End Loading.

(** ** [generate_hyper_param_configs] ([src/utils.py]) *)

Module HyperParams.

(** What an experiment configuration holds: the values of a YAML or JSON
    file.  A string is the sequence of its characters. *)
#[local] Set Warnings "-register-all".
Inductive value : Type :=
| VNone
| VBool (b : bool)
| VInt (n : Z)
| VFloat (q : Q)
| VStr (s : string)
| VList (items : list value)
| VDict (entries : list (string * value)).

(** A configuration: a [dict] with string keys. *)
Abbreviation config := (gmap string value).

(** The three [ValueError]s the function raises itself, by message, and the
    errors of the interpreter on values of the wrong kind. *)
Inductive error : Type :=
| ValueError_unknown_field     (* 'All variable names in ... must be
                                  existing fields in the config. ...' *)
| ValueError_not_a_list        (* '... we expect it to be a list of values.' *)
| ValueError_unsupported_mode  (* 'The only supported values for
                                  grid_search_mode are ...' *)
| TypeError                    (* not iterable, or an unhashable key *)
| AttributeError.              (* no method [lower] *)

Inductive outcome (A : Type) : Type :=
| Return (a : A)
| Throw (e : error).
Arguments Return {A} a.
Arguments Throw {A} e.

Definition and_then {A B} (r : outcome A) (k : A -> outcome B) : outcome B :=
  match r with Return a => k a | Throw e => Throw e end.

Declare Scope outcome_scope.
Delimit Scope outcome_scope with out.
Notation "'let!' x ':=' r 'in' k" := (and_then r (fun x => k))
  (at level 10, x pattern, r at level 100, k at level 200) : outcome_scope.

(** A loop whose body may raise, collecting one value per iteration. *)
Fixpoint each {A B} (body : A -> outcome B) (xs : list A) : outcome (list B) :=
  match xs with
  | [] => Return []
  | x :: xs' =>
      (let! b := body x in let! bs := each body xs' in Return (b :: bs))%out
  end.

(** [for var in vars]: the items of a list, the characters of a string, the
    keys of a dict; anything else is not iterable. *)
Definition iterate (vars : value) : outcome (list value) :=
  match vars with
  | VList items => Return items
  | VStr s =>
      Return ((fun c => VStr (String c EmptyString))
                <$> String.list_ascii_of_string s)
  | VDict entries => Return (VStr <$> entries.*1)
  | VNone | VBool _ | VInt _ | VFloat _ => Throw TypeError
  end.

(** Lines 171-177, the body of the loop over [vars]: [var not in config]
    hashes [var] (a list or a dict is unhashable), and no key of the
    configuration equals a value that is not a string. *)
Definition check_var (config : config) (var : value)
  : outcome (string * list value) :=
  match var with
  | VList _ | VDict _ => Throw TypeError
  | VStr name =>
      match config !! name with
      | None => Throw ValueError_unknown_field
      | Some (VList options) => Return (name, options)
      | Some _ => Throw ValueError_not_a_list
      end
  | VNone | VBool _ | VInt _ | VFloat _ => Throw ValueError_unknown_field
  end.

(** [itertools.product] over the pools: the rightmost pool advances
    fastest; no pool at all gives the one empty tuple. *)
Fixpoint product {A} (pools : list (list A)) : list (list A) :=
  match pools with
  | [] => [[]]
  | pool :: rest => x ← pool; cons x <$> product rest
  end.

(** [zip] over the iterables: stops with the shortest; no iterable at all gives
    nothing. *)
Fixpoint zip_all {A} (iterables : list (list A)) : list (list A) :=
  match iterables with
  | [] => []
  | it :: rest =>
      match rest with
      | [] => (fun x => [x]) <$> it
      | _ => zip_with cons it (zip_all rest)
      end
  end.

(** Lines 188-190: a copy of the configuration with every variable set. *)
Definition assign (config : config) (names : list string)
    (specific_vals : list value) : HyperParams.config :=
  foldl (fun current '(var_name, new_val) => <[var_name := new_val]> current)
        config (zip names specific_vals).

Section WithStrings.

(** [str.lower] and [str.strip], taken as given. *)
Variable lower strip : string -> string.

(** Line 178. *)
Definition search_mode (config : config) : outcome string :=
  match default (VStr "exhaustive") (config !! "grid_search_mode"%string) with
  | VStr s => Return (strip (lower s))
  | _ => Throw AttributeError
  end.

Definition generate_hyper_param_configs (config : config)
  : outcome (list HyperParams.config) :=
  match config !! "grid_variables"%string with
  | None => Return [config]
  | Some vars =>
      (let! vars := iterate vars in
       let! checked := each (check_var config) vars in
       let options := checked.*2 in
       let! mode := search_mode config in
       let! iterator :=
         if bool_decide (mode ∈ ["grid"; "exhaustive"]%string)
         then Return (product options)
         else if bool_decide (mode ∈ ["paired"]%string)
         then Return (zip_all options)
         else Throw ValueError_unsupported_mode in
       Return (assign config checked.*1 <$> iterator))%out
  end.

End WithStrings.

End HyperParams.

Module HyperDemo.

Import HyperParams.

(** [lower] and [strip] on ASCII text. *)
Definition lower0 (s : string) : string :=
  String.string_of_list_ascii
    ((fun c => let n := Ascii.nat_of_ascii c in
               if ((65 <=? n) && (n <=? 90))%nat
               then Ascii.ascii_of_nat (n + 32) else c)
       <$> String.list_ascii_of_string s).

Definition is_space (c : Ascii.ascii) : bool :=
  bool_decide (Ascii.nat_of_ascii c ∈ [9; 10; 11; 12; 13; 32]%nat).

Fixpoint drop_spaces (l : list Ascii.ascii) : list Ascii.ascii :=
  match l with
  | c :: l' => if is_space c then drop_spaces l' else l
  | [] => []
  end.

Definition strip0 (s : string) : string :=
  String.string_of_list_ascii
    (rev (drop_spaces (rev (drop_spaces (String.list_ascii_of_string s))))).

(** A search over two learning rates and three batch sizes. *)
Definition grid_config (mode : string) : config :=
  list_to_map
    [("grid_variables", VList [VStr "lr"; VStr "batch_size"]);
     ("lr", VList [VInt 1; VInt 2]);
     ("batch_size", VList [VInt 8; VInt 16; VInt 32]);
     ("epochs", VInt 50);
     ("grid_search_mode", VStr mode)]%string.

Definition configs_of (mode : string) : list config :=
  match generate_hyper_param_configs lower0 strip0 (grid_config mode) with
  | Return rs => rs
  | Throw _ => []
  end.

(** The second configuration of the paired search. *)
Definition second_paired : config :=
  default ∅ (configs_of "paired" !! 1%nat).

(** A choice of one option per variable. *)
Definition pick0 (name : string) : value :=
  if bool_decide (name = "lr"%string) then VInt 2 else VInt 16.

(** A search over a field that is no list, in a mode that does not exist. *)
Definition broken_config : config :=
  list_to_map
    [("grid_variables", VList [VStr "lr"; VStr "dropout"; VStr "batch_size"]);
     ("lr", VList [VInt 1; VInt 2]);
     ("dropout", VFloat (1 # 2));
     ("grid_search_mode", VStr "random")]%string.

End HyperDemo.

(** ** Further inputs to run the functions on *)

Module Scenarios.

Import Demo.

(** The three samples of [store1] in a single batch. *)
Definition loader3 : Uncertainty.data_loader :=
  Uncertainty.MkLoader (Uncertainty.MkDataset 0 1 2) 3 0.

(** What [inject_uncertainty] returns on [loader3] for width 1/10 with
    mixing. *)
Definition mixed : list Uncertainty.data_loader * Uncertainty.world :=
  match Uncertainty.inject_uncertainty seed0 [loader3] (1 # 10) 3 0 true
          false (store1, rng0) with
  | Ok r => r
  | Raise _ => ([], ([], rng0))
  end.

(** A corpus for [load_mnist_addition]: both splits are [X0] with the digits
    [y0]; the validation share is the first half of the training split. *)
Definition mnist0 (_ : bool) : result (list Z * list Z) := Ok (X0, y0).
Definition split0 (x : list Z) (y : list Z) (_ : Q)
  : M (list Z * list Z * list Z * list Z) :=
  ret (drop 3 x, take 3 x, drop 3 y, take 3 y).
Definition finish_at (_ : Q) : list (list Z) -> M (list (list Z)) := ret.

(** A neighbour search for composite samples: it needs [k] fitted points and
    answers every query with the fitted positions [0; 1]. *)
Definition knn1 (k : nat) (fitted queries : list (list Z))
  : result (list (list Q) * list (list nat)) :=
  if (length fitted <? k)%nat then Raise ValueError
  else Ok ((fun _ => [0; 1 # 2]%Q) <$> queries,
           (fun _ => [0; 1]%nat) <$> queries).

(** [load_mnist_addition] on that corpus: three training and two test
    samples of two operands over the digits 0 and 1, a validation share of
    two thirds, batches of two. *)
Definition load_small (uncertain_width : Q) (num_workers : Z)
    (test_only : bool)
  : Loading.LM Loading.loaded :=
  Loading.load_mnist_addition mnist0 split0 finish_at knn1 seed0
    (1 # 2) 42 3 2 2 [[0; 1]; [0; 1]] uncertain_width (2 # 3) 2 num_workers
    test_only None false false None None 0 None.

End Scenarios.

(** * Properties *)

(** ** The state-and-exception monad *)

Lemma bind_Ok {S A B} (m : ST S A) (k : A -> ST S B) s r :
  bind m k s = Ok r -> exists a s1, m s = Ok (a, s1) /\ k a s1 = Ok r.
Proof.
  unfold bind. destruct (m s) as [[a s1]|e]; [eauto | discriminate].
Qed.

Lemma rbind_Ok {A B} (r : result A) (k : A -> result B) b :
  rbind r k = Ok b -> exists a, r = Ok a /\ k a = Ok b.
Proof. destruct r; cbn; [eauto | discriminate]. Qed.

Lemma lift_Ok {S A} (r : result A) (s : S) a s' :
  lift r s = Ok (a, s') -> r = Ok a /\ s' = s.
Proof. unfold lift. destruct r; [intros [= <- <-]; auto | discriminate]. Qed.

Lemma ret_Ok {S A} (a : A) (s : S) b s' :
  ret a s = Ok (b, s') -> b = a /\ s' = s.
Proof. unfold ret. intros [= <- <-]. auto. Qed.

Lemma of_option_Ok {A} e (o : option A) a :
  of_option e o = Ok a -> o = Some a.
Proof. destruct o; cbn; [intros [= <-]; auto | discriminate]. Qed.

(** Break a successful run of a monadic block into the runs of its steps. *)
Ltac unbind H :=
  repeat first
    [ apply bind_Ok in H as (? & ? & ? & H)
    | apply rbind_Ok in H as (? & ? & H) ];
  repeat match goal with
    | H' : lift _ _ = Ok (_, _) |- _ => apply lift_Ok in H' as [H' ->]
    | H' : ret _ _ = Ok (_, _) |- _ => apply ret_Ok in H' as [-> ->]
    | H' : of_option _ _ = Ok _ |- _ => apply of_option_Ok in H'
    end.

(** A property of the accumulator that every iteration preserves holds when
    the loop ends. *)
Lemma for_fold_invariant {S A T} (body : T -> A -> ST S T) (P : T -> Prop)
    xs t s t' s' :
  (forall t x s t' s', P t -> body t x s = Ok (t', s') -> P t') ->
  P t -> for_fold body xs t s = Ok (t', s') -> P t'.
Proof.
  intros Hstep. revert t s. induction xs as [|x xs IH]; intros t s Ht H.
  - apply ret_Ok in H as [-> _]. done.
  - cbn in H. apply bind_Ok in H as (t1 & s1 & H1 & H). eauto.
Qed.

(** The same with the processed prefix of the list made explicit. *)
Lemma for_fold_prefix {S A T} (body : T -> A -> ST S T)
    (P : list A -> T -> Prop) xs t s t' s' :
  (forall done_ t x s t' s',
      P done_ t -> body t x s = Ok (t', s') -> P (done_ ++ [x]) t') ->
  P [] t -> for_fold body xs t s = Ok (t', s') -> P xs t'.
Proof.
  intros Hstep. 
  enough (forall done_ t s, P done_ t -> for_fold body xs t s = Ok (t', s') ->
                       P (done_ ++ xs) t') as G by (apply (G [])).
  induction xs as [|x xs IH]; intros done_ t0 s0 Ht H.
  - apply ret_Ok in H as [-> _]. by rewrite app_nil_r.
  - cbn in H. apply bind_Ok in H as (t1 & s1 & H1 & H).
    rewrite (cons_middle x done_ xs), app_assoc. eauto.
Qed.

(** Every value a [for_each] loop collects comes from a successful run of
    its body. *)
Lemma for_each_Forall {S A B} (body : A -> ST S B) (Q : B -> Prop) xs s bs s' :
  (forall x s b s', body x s = Ok (b, s') -> Q b) ->
  for_each body xs s = Ok (bs, s') -> Forall Q bs.
Proof.
  intros Hbody. revert s bs. induction xs as [|x xs IH]; intros s bs H.
  - apply ret_Ok in H as [-> _]. constructor.
  - cbn in H. unbind H. constructor; eauto.
Qed.

Lemma traverse_Forall2 {A B} (f : A -> result B) xs bs :
  traverse f xs = Ok bs -> Forall2 (fun x b => f x = Ok b) xs bs.
Proof.
  revert bs. induction xs as [|x xs IH]; intros bs H; cbn in H.
  - injection H as <-. constructor.
  - unbind H. injection H as <-. constructor; auto.
Qed.

Lemma take_rows_Forall2 {A} (a : list A) idxs rows :
  take_rows a idxs = Ok rows -> Forall2 (fun i r => a !! i = Some r) idxs rows.
Proof.
  unfold take_rows. intros H. apply of_option_Ok in H. by apply mapM_Some_1.
Qed.

(** ** The generator *)

Lemma choice_lt n g i g' : choice n g = Ok (i, g') -> (i < n)%nat.
Proof.
  unfold choice. destruct (n =? 0)%nat eqn:E; [discriminate|].
  apply Nat.eqb_neq in E. cbn. intros [= <- _].
  pose proof (Z.mod_pos_bound (raw g (cursor g)) (Z.of_nat n)). lia.
Qed.

Lemma unit_draw_range r : (0 <= unit_draw r /\ unit_draw r < 1)%Q.
Proof.
  unfold unit_draw, Qle, Qlt. cbn -[Z.pow Z.modulo].
  pose proof (Z.mod_pos_bound r (2 ^ 53)). lia.
Qed.

Lemma uniform_range low high g v g' :
  (low <= high)%Q -> uniform low high g = Ok (v, g') ->
  (low <= v /\ v <= high)%Q.
Proof.
  unfold uniform. cbn. intros Hlh [= <- _].
  pose proof (unit_draw_range (raw g (cursor g))) as [H0 H1].
  split; nra.
Qed.

(** ** Properties of [produce_addition_set] *)

Module AdditionProps.

Import Addition.

(** The sum of the raw digits of a sample. *)
Definition Zsum (ds : list Z) : Z := foldr Z.add 0 ds.

(** The concept width one operand contributes, in the words of the
    specification. *)
Definition operand_width (even_concepts : bool) (allowed_digits : list Z)
  : nat :=
  if even_concepts then 1%nat
  else if (length allowed_digits <=? 2)%nat then 1%nat
  else length allowed_digits.

(** The same for an allowed-digit set given as a set. *)
Definition set_width (even_concepts : bool) (allowed : gset Z) : nat :=
  if even_concepts then 1%nat
  else if (size allowed <=? 2)%nat then 1%nat
  else size allowed.

(** The image [od.1] and the digit [od.2] stand at one position of the corpus
    and the digit is allowed for the operand. *)
Definition drawn_from {image} (X : list image) (y : list Z)
    (allowed_digits : list Z) (od : image * Z) : Prop :=
  exists i, X !! i = Some od.1 /\ y !! i = Some od.2 /\ od.2 ∈ allowed_digits.



(** A list of digits without repetition has the width of the set it lists. *)
Lemma operand_width_set ec (ds : list Z) :
  NoDup ds -> operand_width ec ds = set_width ec (list_to_set ds).
Proof.
  intros Hnd. unfold operand_width, set_width.
  by rewrite size_list_to_set.
Qed.

Lemma Zsum_snoc ds d : Zsum (ds ++ [d]) = Zsum ds + d.
Proof. unfold Zsum. induction ds; cbn; lia. Qed.


Lemma one_hot_length i n v : one_hot i n = Ok v -> length v = n.
Proof.
  unfold one_hot. destruct (i <? n)%nat; [|discriminate].
  intros [= <-]. by rewrite length_fmap, length_seq.
Qed.

Lemma elem_of_enumerate {A} (xs : list A) i x :
  (i, x) ∈ enumerate xs <-> xs !! i = Some x.
Proof.
  unfold enumerate. rewrite list_elem_of_lookup. split.
  - intros (k & Hk). rewrite list_lookup_imap in Hk.
    destruct (xs !! k) eqn:E; cbn in Hk; [|discriminate]. by injection Hk as -> ->.
  - intros H. exists i. by rewrite list_lookup_imap, H.
Qed.

Lemma filter_idxs_spec y allowed i :
  i ∈ filter_idxs y allowed -> exists d, y !! i = Some d /\ d ∈ allowed.
Proof.
  unfold filter_idxs. rewrite list_elem_of_omap. intros ([k d] & Hin & H).
  case_bool_decide; [|discriminate]. injection H as ->.
  apply elem_of_enumerate in Hin. eauto.
Qed.

Section WithImages.

Context {image : Type}.

(** What one run of the operand loop body adds to the accumulators. *)
Lemma operand_step_spec ec (a : acc (image:=image)) p g a' g' :
  operand_step ec a p g = Ok (a', g') ->
  exists i img digit cv,
    total_samples p !! i = Some img /\ total_labels p !! i = Some digit /\
    operands a' = operands a ++ [img] /\
    selected a' = selected a ++ [digit] /\
    sample_label a' = sample_label a + digit /\
    concepts a' = concepts a ++ [cv] /\
    length cv = operand_width ec (operand_digits p).
Proof.
  unfold operand_step. intros H. unbind H.
  match goal with H : choice _ _ = _ |- _ => clear H end.
  exists x, x3, x1, x5. repeat split; try done.
  unfold operand_width.
  destruct (2 <? length (operand_digits p))%nat eqn:E.
  - apply Nat.ltb_lt in E.
    destruct (length (operand_digits p) <=? 2)%nat eqn:E'; [apply Nat.leb_le in E'; lia|].
    unbind H3. destruct ec; [by injection H3 as <-|by apply one_hot_length in H3].
  - apply Nat.ltb_ge in E.
    destruct (length (operand_digits p) <=? 2)%nat eqn:E'; [|apply Nat.leb_gt in E'; lia].
    destruct ec; [by injection H3 as <-|].
    unbind H3. by injection H3 as <-.
Qed.

(** The pools follow the operand specification: pool [k] keeps the digits of
    operand [k], and its images and labels are corpus entries with an allowed
    label, image and label taken at the same position. *)
Definition pool_of (X : list image) (y : list Z) (ds : list Z)
    (p : operand_pool (image:=image)) : Prop :=
  operand_digits p = ds /\
  forall i img d, total_samples p !! i = Some img ->
                  total_labels p !! i = Some d -> drawn_from X y ds (img, d).

Lemma operand_total_spec (X : list image) y ds xs ls :
  operand_total X y ds = Ok (xs, ls) ->
  forall i img d, xs !! i = Some img -> ls !! i = Some d ->
                  drawn_from X y ds (img, d).
Proof.
  unfold operand_total. intros H. unbind H. injection H as -> ->.
  apply take_rows_Forall2 in H0, H1. intros i img d Hx Hl.
  destruct (Forall2_lookup_r _ _ _ _ _ H0 Hx) as (k & Hk & HX).
  destruct (Forall2_lookup_r _ _ _ _ _ H1 Hl) as (k' & Hk' & Hy).
  assert (k' = k) as -> by congruence.
  destruct (filter_idxs_spec y ds k) as (d' & Hd' & Hin);
    [by eapply list_elem_of_lookup_2|].
  exists k. cbn. repeat split; [done|done|congruence].
Qed.

Lemma build_pools_spec (X : list image) y dss pools :
  build_pools X y dss = Ok pools -> Forall2 (pool_of X y) dss pools.
Proof.
  unfold build_pools. intros H. unbind H. injection H as <-.
  apply traverse_Forall2 in H0.
  induction H0 as [|ds [xs ls] dss totals Hhd Htl IH]; cbn; constructor; [|done].
  split; [done|]. cbn. by apply operand_total_spec.
Qed.

(** The operand loop: what it appends to the accumulators. *)
Lemma operand_loop_spec (X : list image) y ec dss pools :
  Forall2 (pool_of X y) dss pools ->
  forall a g a' g',
  for_fold (operand_step ec) pools a g = Ok (a', g') ->
  exists imgs ds cvs,
    operands a' = operands a ++ imgs /\
    selected a' = selected a ++ ds /\
    sample_label a' = sample_label a + Zsum ds /\
    concepts a' = concepts a ++ cvs /\
    length (concat cvs) = sum_list (operand_width ec <$> dss) /\
    Forall2 (drawn_from X y) dss (zip imgs ds) /\
    length imgs = length ds.
Proof.
  induction 1 as [|allowed p dss pools [Hdig Hp] _ IH]; intros a g a' g' H.
  - apply ret_Ok in H as [-> _]. exists [], [], [].
    rewrite !app_nil_r. cbn. repeat split; [by rewrite Z.add_0_r | constructor].
  - cbn in H. apply bind_Ok in H as (a1 & g1 & Hstep & H).
    apply operand_step_spec in Hstep
      as (i & img & digit & cv & Hi & Hd & Ho & Hs & Hl & Hc & Hcv).
    apply IH in H as (imgs & ds & cvs & -> & -> & -> & -> & Hw & Hdr & Hlen).
    exists (img :: imgs), (digit :: ds), (cv :: cvs).
    rewrite Ho, Hs, Hl, Hc, <- !app_assoc. unfold Zsum in *. cbn.
    repeat split; [lia | | | lia].
    + rewrite length_app, Hw, Hcv, Hdig. done.
    + constructor; [by eapply Hp | done].
Qed.

(** One sample: label, concept width and provenance of the operands. *)
Lemma synth_sample_spec (X : list image) y ec el thr dss pools g s g' :
  Forall2 (pool_of X y) dss pools ->
  synth_sample ec el thr pools g = Ok (s, g') ->
  s_label s = transform_label el thr (Zsum (s_selected s)) /\
  length (s_concepts s) = sum_list (operand_width ec <$> dss) /\
  Forall2 (drawn_from X y) dss (zip (s_operands s) (s_selected s)).
Proof.
  intros Hpools H. unfold synth_sample in H.
  apply bind_Ok in H as (a & g1 & Hloop & H).
  eapply operand_loop_spec in Hloop
    as (imgs & ds & cvs & Ho & Hs & Hl & Hc & Hw & Hdr & _); [|done].
  cbn in Ho, Hs, Hl, Hc.
  assert (s = MkSample (operands a) (selected a) (concat (concepts a))
                       (transform_label el thr (sample_label a))) as ->.
  { destruct (operands a); [discriminate|]. by apply ret_Ok in H as [-> _]. }
  cbn. rewrite Hs, Hl, Hc, Ho. split; [f_equal; lia | by split].
Qed.

Lemma check_selected_digits_length n sd dss :
  check_selected_digits n sd = Ok dss -> length dss = n.
Proof.
  destruct sd as [[|d ds]|[|ds dss']]; cbn; try discriminate.
  - intros [= <-]. by rewrite length_replicate.
  - destruct n as [|n]; [discriminate|].
    destruct (length dss' =? n)%nat eqn:E; [|discriminate].
    apply Nat.eqb_eq in E. intros [= <-]. cbn. lia.
Qed.

(** All samples of a bundle. *)
Lemma synthesize_spec (X : list image) y size n sd ec el thr g samples g' :
  synthesize X y size n sd ec el thr g = Ok (samples, g') ->
  exists dss,
    check_selected_digits n sd = Ok dss /\
    Forall (fun s =>
              s_label s = transform_label el thr (Zsum (s_selected s)) /\
              length (s_concepts s) = sum_list (operand_width ec <$> dss) /\
              Forall2 (drawn_from X y) dss (zip (s_operands s) (s_selected s)))
           samples.
Proof.
  unfold synthesize. intros H.
  apply bind_Ok in H as (dss & g1 & Hc & H). apply lift_Ok in Hc as [Hc ->].
  apply bind_Ok in H as (pools & g2 & Hp & H). apply lift_Ok in Hp as [Hp ->].
  apply bind_Ok in H as (ss & g3 & Hs & H).
  assert (samples = ss) as ->
    by (destruct ss; [discriminate | by apply ret_Ok in H as [-> _]]).
  exists dss. split; [done|].
  apply build_pools_spec in Hp.
  eapply for_each_Forall; [|exact Hs].
  cbn. intros _ s0 s1 s0' Hs1. by eapply synth_sample_spec.
Qed.

Lemma produce_addition_set_samples finish (X : list image) y size n sd sc ec
    el thr ct g b g' :
  produce_addition_set finish X y size n sd sc ec el thr ct g = Ok (b, g') ->
  exists samples g1,
    synthesize X y size n sd ec el thr g = Ok (samples, g1) /\
    sum_train_labels b = s_label <$> samples /\
    (sc = None -> ct = None -> sum_train_concepts b = s_concepts <$> samples).
Proof.
  unfold produce_addition_set. intros H.
  apply bind_Ok in H as (samples & g1 & Hs & H).
  apply bind_Ok in H as (cs1 & g2 & H1 & H). apply lift_Ok in H1 as [H1 ->].
  apply bind_Ok in H as (cs2 & g3 & H2 & H). apply lift_Ok in H2 as [H2 ->].
  apply bind_Ok in H as (xs & g4 & Hx & H). apply ret_Ok in H as [-> _].
  exists samples, g1. cbn. repeat split; [done|].
  intros -> ->. congruence.
Qed.

End WithImages.



End AdditionProps.

Module AdditionExamples.

Import Addition AdditionProps Demo.




End AdditionExamples.

(** ** The operand-specification check of both entry points *)

Module CheckProps.

Import Addition GenData.

Lemma check_mismatch n dss :
  length dss <> n ->
  exists e, check_selected_digits n (DigitLists dss) = Raise e /\
            (dss <> [] -> e = ValueError_selected_digits).
Proof.
  intros Hlen. destruct dss as [|ds dss]; cbn.
  - exists IndexError. split; [done|]. by intros [].
  - destruct n as [|n]; [by eexists|].
    destruct (length dss =? n)%nat eqn:E; [apply Nat.eqb_eq in E; cbn in Hlen; lia|].
    by eexists.
Qed.

Lemma produce_addition_set_check_raises {image} finish (X : list image) y size
    n sd sc ec el thr ct g e :
  check_selected_digits n sd = Raise e ->
  produce_addition_set finish X y size n sd sc ec el thr ct g = Raise e.
Proof.
  intros H. unfold produce_addition_set, synthesize, bind, lift. by rewrite H.
Qed.

Lemma generate_data_check_raises {loaders imbalance}
    (load : config -> list (list Z) -> option (list nat) -> Z ->
            ST world (loaders * imbalance)) cfg root rerun w e :
  check_selected_digits (default 32%nat (num_operands cfg))
    (default (DigitList [0; 1]) (selected_digits cfg)) = Raise e ->
  generate_data load cfg root rerun w = Raise e.
Proof.
  intros H. unfold generate_data, bind, lift. by rewrite H.
Qed.

(** C9.  [produce_addition_set] and [generate_data] raise whenever
    [selected_digits] is a list of lists whose length differs from
    [num_operands] (with the length-mismatch [ValueError], unless the list is
    empty and [selected_digits[0]] fails first).  The check (lines 185-191 and
    518-521, the first step of both functions) does not raise that error on
    a flat list, which it replicates over the operand positions, nor on a
    list of lists of length exactly [num_operands], which it keeps. *)
Theorem selected_digits_length_check {image loaders imbalance}
    (finish : list (list image) -> M (list (list image)))
    (load : config -> list (list Z) -> option (list nat) -> Z ->
            ST world (loaders * imbalance)) (n : nat) :
  (forall dss, length dss <> n ->
     (forall X y size sc ec el thr ct g,
        exists e,
          produce_addition_set finish X y size n (DigitLists dss) sc ec el thr
                               ct g = Raise e /\
          (dss <> [] -> e = ValueError_selected_digits)) /\
     (forall cfg root rerun w,
        default (DigitList [0; 1]) (selected_digits cfg) = DigitLists dss ->
        default 32%nat (num_operands cfg) = n ->
        exists e,
          generate_data load cfg root rerun w = Raise e /\
          (dss <> [] -> e = ValueError_selected_digits))) /\
  (forall ds,
     check_selected_digits n (DigitList ds) <> Raise ValueError_selected_digits
     /\ (ds <> [] ->
         check_selected_digits n (DigitList ds) = Ok (replicate n ds))) /\
  (forall dss, length dss = n ->
     check_selected_digits n (DigitLists dss)
       <> Raise ValueError_selected_digits /\
     (dss <> [] -> check_selected_digits n (DigitLists dss) = Ok dss)).
Proof.
  split; [|split].
  - intros dss Hlen. destruct (check_mismatch n dss Hlen) as (e & He & Hne).
    split.
    + intros. exists e. split; [|done].
      by apply produce_addition_set_check_raises.
    + intros cfg root rerun w Hsd Hn. exists e. split; [|done].
      apply generate_data_check_raises. by rewrite Hsd, Hn.
  - intros [|d ds]; cbn; split; done.
  - intros [|ds dss] <-; cbn; [split; done|].
    rewrite Nat.eqb_refl. cbn. split; done.
Qed.

End CheckProps.

Module CheckExamples.

Import Addition GenData CheckProps Demo.

Lemma selected_digits_length_check_witness :
  (exists e,
     produce_addition_set finish0 X0 y0 3 2 (DigitLists [[0; 1; 2]]) None
                          false false None None rng0 = Raise e /\
     ([[0; 1; 2]] <> [] -> e = ValueError_selected_digits)) /\
  check_selected_digits 2 (DigitList [0; 1]) = Ok [[0; 1]; [0; 1]] /\
  check_selected_digits 2 (DigitLists [[0; 1]; [5]]) = Ok [[0; 1]; [5]].
Proof.
  pose proof (selected_digits_length_check finish0 load0 2) as (H1 & H2 & H3).
  split; [|split].
  - apply (H1 [[0; 1; 2]]). cbn. lia.
  - apply (H2 [0; 1]). done.
  - apply (H3 [[0; 1]; [5]]); done.
Defined.

End CheckExamples.

(** ** Properties of [get_ss_components] *)

Module SemiSupProps.

Import SemiSup.

(** Number of samples of class [k]. *)
Definition class_size (ys : list Z) (k : Z) : nat :=
  length (filter (fun z => z = k) ys).


(** The number of labelled samples the loop grants a class of [n] samples:
    the least count that is not below [r * n]. *)
Definition quota (r : Q) (n : nat) : nat :=
  Z.to_nat (Qceiling (r * inject_Z (Z.of_nat n))).

Lemma Qlt_bool_iff a b : Qlt_bool a b = true <-> (a < b)%Q.
Proof.
  unfold Qlt_bool. rewrite negb_true_iff, <- not_true_iff_false, Qle_bool_iff.
  split; [apply Qnot_le_lt | apply Qlt_not_le].
Qed.

Lemma lt_ceiling (z : Z) (q : Q) : (inject_Z z < q)%Q <-> z < Qceiling q.
Proof.
  split; intros H.
  - rewrite Zlt_Qlt. eapply Qlt_le_trans; [exact H | apply Qle_ceiling].
  - eapply Qle_lt_trans; [|apply Qceiling_lt]. rewrite <- Zle_Qle. lia.
Qed.

Lemma below_quota c r n :
  Qlt_bool (inject_Z (Z.of_nat c)) (r * inject_Z (Z.of_nat n)) = true
  <-> (c < quota r n)%nat.
Proof. rewrite Qlt_bool_iff, lt_ceiling. unfold quota. lia. Qed.

Lemma enumerate_snoc {A} (xs : list A) x :
  enumerate (xs ++ [x]) = enumerate xs ++ [(length xs, x)].
Proof.
  unfold enumerate. rewrite imap_app. cbn. by rewrite Nat.add_0_r.
Qed.



Lemma class_size_snoc p y k :
  class_size (p ++ [y]) k
  = (class_size p k + if decide (y = k) then 1 else 0)%nat.
Proof.
  unfold class_size. rewrite filter_app, length_app. f_equal.
  rewrite filter_cons, filter_nil. by destruct (decide (y = k)).
Qed.


(** The state of the stratification loop after a prefix [p] of the labels:
    every class has used up its quota as far as its samples allow, and a
    sample is flagged exactly when fewer than the quota of its class precede
    it within the class. *)
Lemma stratify_prefix r cc p :
  let st := foldl (stratify_step r cc)
                  {| l_choice := ∅; labeled_count := ∅ |} (enumerate p) in
  (forall y, getd 0%nat (labeled_count st) y
             = (class_size p y `min` quota r (getd 0%nat cc y))%nat) /\
  (forall j, l_choice st !! j
             = (fun y => bool_decide (class_size (take j p) y
                                      < quota r (getd 0%nat cc y))%nat)
                 <$> p !! j).
Proof.
  induction p as [|y p IH] using rev_ind; cbn.
  - split; [intros y|intros j]; unfold getd; rewrite lookup_empty; cbn.
    + unfold class_size. cbn. lia.
    + by rewrite lookup_nil.
  - rewrite enumerate_snoc, foldl_app. cbn.
    set (st := foldl _ _ (enumerate p)) in *. cbn in IH.
    destruct IH as [Hcnt Hflag]. unfold stratify_step.
    destruct (Qlt_bool _ _) eqn:E; cbn.
    + apply below_quota in E. rewrite Hcnt in E. split.
      * intros k. rewrite class_size_snoc. unfold getd at 1.
        destruct (decide (y = k)) as [->|Hne].
        -- rewrite lookup_insert_eq. cbn. rewrite Hcnt. lia.
        -- rewrite lookup_insert_ne by done. fold (getd 0%nat (labeled_count st) k).
           rewrite Hcnt. lia.
      * intros j. destruct (decide (j = length p)) as [->|Hne].
        -- rewrite lookup_insert_eq, list_lookup_middle by done. cbn.
           rewrite take_app_length. f_equal. symmetry. apply bool_decide_eq_true. lia.
        -- rewrite lookup_insert_ne by done. rewrite Hflag.
           destruct (decide (j < length p)%nat).
           ++ rewrite lookup_app_l by done. rewrite take_app_le by lia. done.
           ++ rewrite !lookup_ge_None_2; [done| rewrite length_app; cbn; lia | lia].
    + apply not_true_iff_false in E. rewrite below_quota, Hcnt in E. split.
      * intros k. rewrite class_size_snoc, Hcnt.
        destruct (decide (y = k)) as [->|Hne]; lia.
      * intros j. destruct (decide (j = length p)) as [->|Hne].
        -- rewrite lookup_insert_eq, list_lookup_middle by done. cbn.
           rewrite take_app_length. f_equal. symmetry. apply bool_decide_eq_false. lia.
        -- rewrite lookup_insert_ne by done. rewrite Hflag.
           destruct (decide (j < length p)%nat).
           ++ rewrite lookup_app_l by done. rewrite take_app_le by lia. done.
           ++ rewrite !lookup_ge_None_2; [done| rewrite length_app; cbn; lia | lia].
Qed.






End SemiSupProps.

Module SemiSupExamples.

Import SemiSup SemiSupProps Demo.



(** The final loop of [get_ss_components] never reads its loop variable:
    every returned row is the one of the position [idx] was left at. *)
Lemma traverse_const {A B} (r : result B) (xs : list A) bs :
  traverse (fun _ => r) xs = Ok bs ->
  xs = [] \/ exists b, r = Ok b /\ bs = replicate (length xs) b.
Proof.
  revert bs. induction xs as [|x xs IH]; intros bs H; [by left|right].
  cbn in H. apply rbind_Ok in H as (b & Hb & H).
  apply rbind_Ok in H as (bs' & Hbs & H). injection H as <-.
  exists b. split; [done|]. cbn. f_equal.
  destruct (IH _ Hbs) as [->|(b' & Hb' & ->)]; [by injection Hbs as <-|].
  congruence.
Qed.

Lemma get_ss_components_rows_equal {feature concept} knn (xs : list feature)
    ys (cs : list concept) r training out :
  get_ss_components knn xs ys cs r training = Ok out ->
  exists l row w,
    out_l out = replicate (length ys) l /\
    out_nbr_concepts out = replicate (length ys) row /\
    out_nbr_weights out = replicate (length ys) w.
Proof.
  unfold get_ss_components. intros H.
  destruct (size _ =? 0)%nat; [discriminate|].
  apply rbind_Ok in H as (nbrs & Hn & H).
  apply rbind_Ok in H as (rows & Hrows & H). injection H as <-. cbn.
  unfold gather in Hrows.
  destruct (length ys) as [|n] eqn:E.
  - injection Hrows as <-. by exists false, [], [].
  - apply traverse_const in Hrows as [Hnil|([[l row] w] & _ & ->)];
      [discriminate|].
    exists l, row, w. rewrite !fmap_replicate, length_seq. done.
Qed.

(** C3 (the code departs from it).  Four samples, classes [0; 0; 1; 1],
    ratio 1/2: the stratification flags samples 0 and 2.  The search finds,
    for samples 0 and 1, the fitted positions [0; 1] (samples 0 and 2) and,
    for samples 2 and 3, the fitted positions [1; 0].  The function returns
    for every sample the flag of sample 3 and the concept rows [cs[1]; cs[0]],
    that is the neighbour positions of sample 3 read as positions of the full
    concept array. *)
Theorem get_ss_components_at_failing_input :
  exists out nbrs,
    get_ss_components knn0 [100; 101; 102; 103] [0; 0; 1; 1]
                      [[1]; [2]; [3]; [4]] (1 # 2) true = Ok out /\
    getd false (l_choice (stratify (1 # 2) [0; 0; 1; 1])) <$> [0; 1; 2; 3]%nat
      = [true; false; true; false] /\
    nearest_neighbors knn0 [100; 101; 102; 103]
                      (l_choice (stratify (1 # 2) [0; 0; 1; 1])) 2 = Ok nbrs /\
    indices <$> nbrs = [[0; 1]; [0; 1]; [1; 0]; [1; 0]]%nat /\
    out_l out = [false; false; false; false] /\
    out_nbr_concepts out = [[[2]; [1]]; [[2]; [1]]; [[2]; [1]]; [[2]; [1]]].
Proof.
  eexists _, _. split; [vm_compute; reflexivity|].
  split; [vm_compute; reflexivity|].
  split; [vm_compute; reflexivity|]. vm_compute. done.
Qed.

End SemiSupExamples.

(** ** Properties of [inject_uncertainty] *)

Module UncertaintyProps.

Import Uncertainty.

(** Loops over [range(n)] and over a list, with an invariant that may speak
    about the state. *)
Lemma for_fold_range {St T} (body : T -> nat -> ST St T)
    (P : nat -> T -> St -> Prop) n t s t' s' :
  (forall i t s t' s',
      (i < n)%nat -> P i t s -> body t i s = Ok (t', s') -> P (S i) t' s') ->
  P 0%nat t s -> for_fold body (seq 0 n) t s = Ok (t', s') -> P n t' s'.
Proof.
  intros Hstep.
  enough (forall m a t s, (a + m = n)%nat -> P a t s ->
            for_fold body (seq a m) t s = Ok (t', s') -> P n t' s') as G
    by (intros; by apply (G n 0%nat t s)).
  induction m as [|m IH]; intros a t0 s0 Ha HP H; cbn in H.
  - apply ret_Ok in H as [-> ->]. by replace n with a by lia.
  - apply bind_Ok in H as (t1 & s1 & H1 & H).
    apply (IH (S a) t1 s1); [lia | | done].
    eapply Hstep; [|done|done]. lia.
Qed.

Lemma for_fold_list {St A T} (body : T -> A -> ST St T)
    (P : list A -> T -> St -> Prop) xs t s t' s' :
  (forall done_ x rest t s t' s',
      xs = done_ ++ x :: rest -> P done_ t s ->
      body t x s = Ok (t', s') -> P (done_ ++ [x]) t' s') ->
  P [] t s -> for_fold body xs t s = Ok (t', s') -> P xs t' s'.
Proof.
  intros Hstep.
  enough (forall rest done_ t s, xs = done_ ++ rest -> P done_ t s ->
            for_fold body rest t s = Ok (t', s') -> P xs t' s') as G
    by (intros; by apply (G xs [] t s)).
  induction rest as [|x rest IH]; intros done_ t0 s0 Hxs HP H; cbn in H.
  - apply ret_Ok in H as [-> ->]. by rewrite Hxs, app_nil_r.
  - apply bind_Ok in H as (t1 & s1 & H1 & H).
    apply (IH (done_ ++ [x]) t1 s1); [by rewrite <- app_assoc | | done].
    by eapply Hstep.
Qed.

(** *** One batch *)

(** Entry [(i, j)] of a matrix given as a list of rows. *)
Definition cell {A} (a : list (list A)) (i j : nat) : option A :=
  a !! i ≫= fun r => r !! j.

(** The band of width [w] of an entry whose original value was [old]. *)
Definition in_band (w old v : Q) : Prop :=
  ((old == 1 -> 1 - w <= v /\ v <= 1) /\
   (old == 0 -> 0 <= v /\ v <= w))%Q.

(** What the specification asks of one concept entry [new] whose original
    value was [old]: a value in the band, or under [threshold] a hard 0 or 1,
    which is 1 exactly when the value drawn in the band reached one half. *)
Definition cell_ok (w : Q) (threshold : bool) (old new : Q) : Prop :=
  if threshold
  then (new = 0%Q \/ new = 1%Q) /\
       exists v, in_band w old v /\ (new = 1%Q <-> (1 # 2 <= v)%Q)
  else in_band w old new.

(** All rows have the same number of columns. *)
Definition rectangular (c : concept_matrix) : Prop :=
  Forall (fun r => length r = ncols c) c.

Lemma get2_Ok {A} (a : list (list A)) i j v :
  get2 a i j = Ok v <-> cell a i j = Some v.
Proof.
  unfold get2, cell. destruct (a !! i ≫= _); cbn; split; congruence.
Qed.

Lemma cell_set2_eq {A} (a : list (list A)) i j old v :
  cell a i j = Some old -> cell (set2 a i j v) i j = Some v.
Proof.
  unfold cell, set2. destruct (a !! i) as [r|] eqn:E; cbn; [|done].
  intros Hj. rewrite list_lookup_insert_eq by (by eapply lookup_lt_Some).
  cbn. rewrite list_lookup_insert_eq by (by eapply lookup_lt_Some). done.
Qed.

Lemma cell_set2_ne {A} (a : list (list A)) i j i' j' v :
  (i', j') <> (i, j) -> cell (set2 a i j v) i' j' = cell a i' j'.
Proof.
  unfold cell, set2. intros Hne. destruct (a !! i) as [r|] eqn:E; [|done].
  destruct (decide (i' = i)) as [->|Hi].
  - rewrite list_lookup_insert_eq by (by eapply lookup_lt_Some).
    rewrite E. cbn. rewrite list_lookup_insert_ne; [done | congruence].
  - by rewrite list_lookup_insert_ne.
Qed.

Lemma set2_set2 {A} (a : list (list A)) i j u v :
  set2 (set2 a i j u) i j v = set2 a i j v.
Proof.
  assert (set2 a i j u = match a !! i with
                         | Some r => <[i := <[j := u]> r]> a
                         | None => a
                         end) as -> by done.
  unfold set2. destruct (a !! i) as [r|] eqn:E; [|by rewrite E].
  rewrite list_lookup_insert_eq by (by eapply lookup_lt_Some).
  rewrite list_insert_insert_eq. f_equal. apply list_insert_insert_eq.
Qed.

Lemma set2_rows {A} (a : list (list A)) i j v :
  Forall2 (fun r0 r => length r0 = length r) a (set2 a i j v).
Proof.
  unfold set2. destruct (a !! i) as [r|] eqn:E.
  - apply Forall2_same_length_lookup_2; [by rewrite length_insert|].
    intros k r0 r1 H0 H1. destruct (decide (k = i)) as [->|Hne].
    + rewrite list_lookup_insert_eq in H1 by (by eapply lookup_lt_Some).
      injection H1 as <-. rewrite length_insert. congruence.
    + rewrite list_lookup_insert_ne in H1 by done. congruence.
  - apply Forall2_same_length_lookup_2; [done|]. intros. congruence.
Qed.

Lemma Qeq_bool_false a b : Qeq_bool a b = false -> ~ (a == b)%Q.
Proof. intros H E. apply Qeq_bool_iff in E. congruence. Qed.

(** One assignment [c_new[i, j] = ...]: the entry gets a value in the band of
    its old value, or a hard 0/1 under [threshold]. *)
Lemma cell_step_spec w mixing threshold j ch pos neg x c i g x' c' g' :
  (0 <= w)%Q ->
  cell_step w mixing threshold j ch pos neg (x, c) i g = Ok ((x', c'), g') ->
  exists old v, cell c i j = Some old /\ c' = set2 c i j v /\
                cell_ok w threshold old v.
Proof.
  intros Hw H. unfold cell_step in H.
  apply bind_Ok in H as (old & g1 & Hold & H). apply lift_Ok in Hold as [Hold ->].
  apply get2_Ok in Hold.
  apply bind_Ok in H as ([x1 c1] & g2 & Hmid & H).
  assert (exists v, c1 = set2 c i j v /\ in_band w old v) as (v & -> & Hband).
  { destruct (Qeq_bool old 1) eqn:E.
    - apply Qeq_bool_iff in E.
      apply bind_Ok in Hmid as (v & g3 & Hv & Hmid).
      apply uniform_range in Hv; [|lra].
      assert (c1 = set2 c i j v) as ->.
      { destruct mixing.
        - apply bind_Ok in Hmid as (? & ? & _ & Hmid).
          apply bind_Ok in Hmid as (? & ? & _ & Hmid).
          apply bind_Ok in Hmid as (? & ? & _ & Hmid).
          by apply ret_Ok in Hmid as [[= _ ->] _].
        - by apply ret_Ok in Hmid as [[= _ ->] _]. }
      exists v. split; [done|]. split; [done|]. intros E0. rewrite E in E0. lra.
    - apply Qeq_bool_false in E.
      apply bind_Ok in Hmid as (v & g3 & Hv & Hmid).
      apply uniform_range in Hv; [|lra].
      assert (c1 = set2 c i j v) as ->.
      { destruct mixing.
        - apply bind_Ok in Hmid as (? & ? & _ & Hmid).
          apply bind_Ok in Hmid as (? & ? & _ & Hmid).
          apply bind_Ok in Hmid as (? & ? & _ & Hmid).
          by apply ret_Ok in Hmid as [[= _ ->] _].
        - by apply ret_Ok in Hmid as [[= _ ->] _]. }
      exists v. split; [done|]. split; [done|]. done. }
  exists old. unfold cell_ok. destruct threshold.
  - apply bind_Ok in H as (v' & g3 & Hv' & H). apply lift_Ok in Hv' as [Hv' ->].
    apply ret_Ok in H as [[= _ ->] _].
    apply get2_Ok in Hv'. rewrite (cell_set2_eq _ _ _ _ v Hold) in Hv'.
    injection Hv' as <-.
    eexists. split; [done|]. split; [by rewrite set2_set2|].
    destruct (Qle_bool (1 # 2) v) eqn:E; cbn.
    + apply Qle_bool_iff in E. split; [by right|]. exists v.
      split; [exact Hband|]. split; [by intros _ | by intros _].
    + split; [by left|]. exists v. split; [exact Hband|].
      split; [discriminate|].
      intros E'. apply Qle_bool_iff in E'. congruence.
  - apply ret_Ok in H as [[= _ ->] _]. by exists v.
Qed.

(** The concept buffer [c] part-way through the loops, against the batch
    [c0] as the loader delivered it: same shape, the entries in [D] already
    assigned, the others untouched. *)
Definition progress (w : Q) (threshold : bool) (D : nat -> nat -> Prop)
    (c0 c : concept_matrix) : Prop :=
  Forall2 (fun r0 r => length r0 = length r) c0 c /\
  forall i j old, cell c0 i j = Some old ->
    exists new, cell c i j = Some new /\
                (D i j -> cell_ok w threshold old new) /\
                (~ D i j -> new = old).

Lemma progress_start w threshold c0 :
  progress w threshold (fun _ _ => False) c0 c0.
Proof.
  split.
  - apply Forall2_same_length_lookup_2; [done|]. intros. congruence.
  - intros i j old H. exists old. tauto.
Qed.

Lemma progress_iff w threshold (D D' : nat -> nat -> Prop) c0 c :
  (forall i j old, cell c0 i j = Some old -> D i j <-> D' i j) ->
  progress w threshold D c0 c -> progress w threshold D' c0 c.
Proof.
  intros Hiff [Hshape Hcells]. split; [done|].
  intros i j old H. destruct (Hcells i j old H) as (new & Hn & H1 & H2).
  exists new. specialize (Hiff i j old H). tauto.
Qed.

Lemma progress_assign w threshold (D D' : nat -> nat -> Prop) c0 c i j old v :
  progress w threshold D c0 c ->
  ~ D i j -> cell c i j = Some old -> cell_ok w threshold old v ->
  (forall i' j', D' i' j' <-> D i' j' \/ (i', j') = (i, j)) ->
  progress w threshold D' c0 (set2 c i j v).
Proof.
  intros [Hshape Hcells] HnD Hold Hok HD'. split.
  - pose proof (set2_rows c i j v) as Hrows.
    apply Forall2_same_length_lookup_2.
    + rewrite (Forall2_length _ _ _ Hshape). by eapply Forall2_length.
    + intros k r0 r1 H0 H1.
      destruct (Forall2_lookup_l _ _ _ _ _ Hshape H0) as (r & Hr & Hlen).
      destruct (Forall2_lookup_l _ _ _ _ _ Hrows Hr) as (r1' & Hr1 & Hlen').
      congruence.
  - intros i' j' old0 H0. destruct (Hcells i' j' old0 H0) as (new & Hn & H1 & H2).
    destruct (decide ((i', j') = (i, j))) as [[= -> ->]|Hne].
    + exists v. split; [by eapply cell_set2_eq|].
      assert (old = old0) as <- by (rewrite (H2 HnD) in Hn; congruence).
      split; [done|]. intros Hn'. exfalso. apply Hn', HD'. by right.
    + exists new. rewrite cell_set2_ne by done. split; [done|].
      rewrite HD'. split; [intros [?|?]; [auto | done] | intros ?; apply H2; tauto].
Qed.

Lemma cell_lt {A} (a : list (list A)) i j v :
  cell a i j = Some v -> (i < length a)%nat.
Proof.
  unfold cell. destruct (a !! i) eqn:E; [|done]. intros _.
  by eapply lookup_lt_Some.
Qed.

(** The loop over the rows of column [j]. *)
Lemma column_step_spec w mixing threshold c0 x c j g x' c' g' :
  (0 <= w)%Q ->
  progress w threshold (fun _ j' => (j' < j)%nat) c0 c ->
  column_step w mixing threshold (x, c) j g = Ok ((x', c'), g') ->
  progress w threshold (fun _ j' => (j' < S j)%nat) c0 c'.
Proof.
  intros Hw Hc0 H. unfold column_step in H.
  apply bind_Ok in H as ([pos neg] & g1 & _ & H).
  set (ch := (j `div` _)%nat) in H.
  pose (P := fun (i : nat) (xc : images * concept_matrix) (_ : rng) =>
               progress w threshold
                 (fun i' j' => (j' < j)%nat \/ (j' = j /\ i' < i)%nat) c0 xc.2).
  assert (length c0 = length c) as Hlen by (by eapply Forall2_length, Hc0).
  enough (P (length c) (x', c') g') as HP.
  { eapply progress_iff; [|exact HP]. cbn. intros i' j' old Hcell.
    apply cell_lt in Hcell. lia. }
  eapply (for_fold_range _ P); [| |exact H].
  - intros i [x1 c1] s [x2 c2] s' Hi HP Hstep. unfold P in *. cbn in *.
    apply cell_step_spec in Hstep as (old & v & Hold & -> & Hok); [|done].
    eapply progress_assign; [exact HP | cbn; lia | exact Hold | exact Hok |].
    cbn. intros i' j'. split.
    + intros [?|[-> ?]]; [auto|].
      destruct (decide (i' = i)) as [->|?]; [by right | left; right; lia].
    + intros [[?|[-> ?]]|[= -> ->]]; [auto | right; lia | right; lia].
  - unfold P. cbn. eapply progress_iff; [|exact Hc0]. cbn. intros. lia.
Qed.

Lemma progress_ncols w threshold D c0 c :
  progress w threshold D c0 c -> ncols c = ncols c0.
Proof.
  intros [Hshape _]. destruct Hshape as [|r0 r c0' c' Hr _]; cbn; [done|lia].
Qed.

(** The whole batch: every entry of a rectangular batch ends within its
    band, or as a hard 0 or 1. *)
Lemma perturb_batch_spec w mixing threshold x c g x' c' g' :
  (0 < w)%Q -> rectangular c ->
  perturb_batch w mixing threshold x c g = Ok ((x', c'), g') ->
  Forall2 (Forall2 (cell_ok w threshold)) c c'.
Proof.
  intros Hw Hrect H. unfold perturb_batch in H.
  destruct (Qeq_bool w 0) eqn:E; [apply Qeq_bool_iff in E; lra|].
  pose (P := fun (j : nat) (xc : images * concept_matrix) (_ : rng) =>
               progress w threshold (fun _ j' => (j' < j)%nat) c xc.2).
  assert (P (ncols c) (x', c') g') as [Hshape Hcells].
  { eapply (for_fold_range _ P); [| |exact H].
    - intros j [x1 c1] s [x2 c2] s' _ HP Hstep. unfold P in *. cbn in *.
      eapply column_step_spec; [lra | exact HP | exact Hstep].
    - unfold P. cbn. eapply progress_iff; [|apply progress_start].
      cbn. intros. lia. }
  cbn in Hshape, Hcells.
  apply Forall2_same_length_lookup_2; [by eapply Forall2_length|].
  intros i r0 r Hr0 Hr.
  apply Forall2_same_length_lookup_2.
  { destruct (Forall2_lookup_l _ _ _ _ _ Hshape Hr0) as (r' & Hr' & Hl). congruence. }
  intros j old new Hold Hnew.
  destruct (Hcells i j old) as (new' & Hn' & Hok & _).
  { unfold cell. by rewrite Hr0. }
  assert (new' = new) as -> by (unfold cell in Hn'; rewrite Hr in Hn'; cbn in Hn'; congruence).
  apply Hok. pose proof (proj1 (Forall_lookup _ _) Hrect i r0 Hr0) as Hlen.
  cbn in Hlen. rewrite <- Hlen. by eapply lookup_lt_Some.
Qed.

(** *** Batches of a loader *)

Lemma chunks_fuel_concat {A} fuel n (l : list A) :
  (0 < n)%nat -> (length l <= fuel)%nat -> concat (chunks_fuel fuel n l) = l.
Proof.
  intros Hn. revert l. induction fuel as [|fuel IH]; intros l Hl.
  - by destruct l; [|cbn in Hl; lia].
  - destruct l as [|a l]; [done|].
    cbn [chunks_fuel concat]. rewrite IH; [apply take_drop|].
    rewrite length_drop. cbn in *. lia.
Qed.

Lemma chunks_concat {A} n (l : list A) : concat (chunks n l) = l.
Proof. apply chunks_fuel_concat; lia. Qed.

Lemma Forall2_concat_rel {A B} (R : A -> B -> Prop) ls ks :
  Forall2 (Forall2 R) ls ks -> Forall2 R (concat ls) (concat ks).
Proof. induction 1; cbn; [constructor | by apply Forall2_app]. Qed.

(** The rows a loader collates over all its batches are the rows of the
    dataset, in order. *)
Lemma rows_of_all_batches {A} (c : list A) n (cbs : list (list A)) :
  Forall2 (fun batch cb => take_rows c batch = Ok cb)
          (chunks n (seq 0 (length c))) cbs ->
  concat cbs = c.
Proof.
  intros H.
  assert (Forall2 (fun i r => c !! i = Some r) (seq 0 (length c)) (concat cbs))
    as Hrows.
  { rewrite <- (chunks_concat n (seq 0 (length c))).
    apply Forall2_concat_rel. eapply Forall2_impl; [exact H|].
    intros batch cb Hb. by apply take_rows_Forall2. }
  apply list_eq. intros i.
  destruct (decide (i < length c)%nat) as [Hi|Hi].
  - destruct (Forall2_lookup_l _ _ _ i i Hrows) as (r & Hr & Hc).
    { by rewrite lookup_seq_lt. }
    congruence.
  - rewrite !lookup_ge_None_2; [done | lia |].
    rewrite <- (Forall2_length _ _ _ Hrows), length_seq. lia.
Qed.

Lemma rectangular_rows c idxs cb :
  rectangular c -> take_rows c idxs = Ok cb -> rectangular cb.
Proof.
  intros Hrect H. apply take_rows_Forall2 in H.
  assert (Forall (fun r => length r = ncols c) cb) as Hall.
  { apply Forall_lookup. intros k r Hk.
    destruct (Forall2_lookup_r _ _ _ _ _ H Hk) as (i & _ & Hi).
    by apply (proj1 (Forall_lookup _ _) Hrect i r). }
  unfold rectangular. destruct cb as [|r cb]; [constructor|].
  cbn. inversion Hall as [|? ? Hr Hall']; subst.
  constructor; [done|]. eapply Forall_impl; [exact Hall'|]. cbn. congruence.
Qed.

(** *** Reading, allocating and writing tensors *)

Lemma alloc_Ok t m g l m' g' :
  alloc t (m, g) = Ok (l, (m', g')) ->
  l = length m /\ m' = m ++ [t] /\ g' = g.
Proof. cbn. by intros [= <- <- <-]. Qed.

Lemma read_images_Ok l m g x m' g' :
  read_images l (m, g) = Ok (x, (m', g')) ->
  m !! l = Some (TImages x) /\ m' = m /\ g' = g.
Proof. cbn. destruct (m !! l) as [[]|]; try done. by intros [= <- <- <-]. Qed.

Lemma read_labels_Ok l m g y m' g' :
  read_labels l (m, g) = Ok (y, (m', g')) ->
  m !! l = Some (TLabels y) /\ m' = m /\ g' = g.
Proof. cbn. destruct (m !! l) as [[]|]; try done. by intros [= <- <- <-]. Qed.

Lemma read_concepts_Ok l m g c m' g' :
  read_concepts l (m, g) = Ok (c, (m', g')) ->
  m !! l = Some (TConcepts c) /\ m' = m /\ g' = g.
Proof. cbn. destruct (m !! l) as [[]|]; try done. by intros [= <- <- <-]. Qed.

Lemma write_Ok l t m g u m' g' :
  write l t (m, g) = Ok (u, (m', g')) ->
  (l < length m)%nat /\ m' = <[l := t]> m /\ g' = g.
Proof.
  unfold write. destruct (l <? length m)%nat eqn:E; [|discriminate].
  apply Nat.ltb_lt in E. destruct u. intros [= <- <-]. by repeat split.
Qed.

Lemma with_rng_Ok {W A} (f : M A) (m : W) g a m' g' :
  with_rng f (m, g) = Ok (a, (m', g')) -> f g = Ok (a, g') /\ m' = m.
Proof. cbn. destruct (f g) as [[a0 g0]|]; [|done]. by intros [= <- <- <-]. Qed.

Lemma rows_of_Ok {St A} (a : list A) idxs (s : St) rows s' :
  rows_of a idxs s = Ok (rows, s') -> take_rows a idxs = Ok rows /\ s' = s.
Proof. apply lift_Ok. Qed.

(** Reading a list of buffers leaves the state alone. *)
Lemma read_each_concepts ls m g vs m' g' :
  for_each read_concepts ls (m, g) = Ok (vs, (m', g')) ->
  Forall2 (fun l v => m !! l = Some (TConcepts v)) ls vs /\ m' = m /\ g' = g.
Proof.
  revert vs m' g'. induction ls as [|l ls IH]; intros vs m' g' H; cbn in H.
  - apply ret_Ok in H as [-> [= <- <-]]. by repeat split.
  - apply bind_Ok in H as (v & [m1 g1] & Hv & H).
    apply read_concepts_Ok in Hv as (Hv & -> & ->).
    apply bind_Ok in H as (vs' & [m2 g2] & Hvs & H).
    apply IH in Hvs as (Hvs & -> & ->).
    apply ret_Ok in H as [-> [= <- <-]]. repeat split; by constructor.
Qed.

Lemma read_each_images ls m g vs m' g' :
  for_each read_images ls (m, g) = Ok (vs, (m', g')) -> m' = m /\ g' = g.
Proof.
  revert vs m' g'. induction ls as [|l ls IH]; intros vs m' g' H; cbn in H.
  - by apply ret_Ok in H as [-> [= <- <-]].
  - apply bind_Ok in H as (v & [m1 g1] & Hv & H).
    apply read_images_Ok in Hv as (Hv & -> & ->).
    apply bind_Ok in H as (vs' & [m2 g2] & Hvs & H).
    apply IH in Hvs as (-> & ->).
    by apply ret_Ok in H as [-> [= <- <-]].
Qed.

Lemma read_each_labels ls m g vs m' g' :
  for_each read_labels ls (m, g) = Ok (vs, (m', g')) -> m' = m /\ g' = g.
Proof.
  revert vs m' g'. induction ls as [|l ls IH]; intros vs m' g' H; cbn in H.
  - by apply ret_Ok in H as [-> [= <- <-]].
  - apply bind_Ok in H as (v & [m1 g1] & Hv & H).
    apply read_labels_Ok in Hv as (Hv & -> & ->).
    apply bind_Ok in H as (vs' & [m2 g2] & Hvs & H).
    apply IH in Hvs as (-> & ->).
    by apply ret_Ok in H as [-> [= <- <-]].
Qed.

(** One batch: three fresh tensors are appended to the store and nothing
    else changes; the third holds the perturbed concepts of the batch. *)
Lemma batch_step_spec ds w mixing threshold xs ys cs batch m g acc' m' g' :
  batch_step ds w mixing threshold (xs, ys, cs) batch (m, g)
    = Ok (acc', (m', g')) ->
  exists c cb xb x_new yb c_new,
    m !! ds_c ds = Some (TConcepts c) /\
    take_rows c batch = Ok cb /\
    perturb_batch w mixing threshold xb cb g = Ok ((x_new, c_new), g') /\
    m' = m ++ [TImages x_new; TLabels yb; TConcepts c_new] /\
    acc' = (xs ++ [length m], ys ++ [S (length m)], cs ++ [S (S (length m))]).
Proof.
  unfold batch_step, next_batch. intros H.
  apply bind_Ok in H as ([[lx ly] lc] & [m1 g1] & Hnb & H).
  apply bind_Ok in Hnb as (x & [ma ga] & Hx & Hnb).
  apply read_images_Ok in Hx as (Hx & -> & ->).
  apply bind_Ok in Hnb as (y & [ma ga] & Hy & Hnb).
  apply read_labels_Ok in Hy as (Hy & -> & ->).
  apply bind_Ok in Hnb as (c & [ma ga] & Hc & Hnb).
  apply read_concepts_Ok in Hc as (Hc & -> & ->).
  apply bind_Ok in Hnb as (xb & [ma ga] & Hxb & Hnb).
  apply rows_of_Ok in Hxb as [Hxb [= -> ->]].
  apply bind_Ok in Hnb as (yb & [ma ga] & Hyb & Hnb).
  apply rows_of_Ok in Hyb as [Hyb [= -> ->]].
  apply bind_Ok in Hnb as (cb & [ma ga] & Hcb & Hnb).
  apply rows_of_Ok in Hcb as [Hcb [= -> ->]].
  apply bind_Ok in Hnb as (lx' & [ma ga] & Hlx & Hnb).
  apply alloc_Ok in Hlx as (-> & -> & ->).
  apply bind_Ok in Hnb as (ly' & [ma ga] & Hly & Hnb).
  apply alloc_Ok in Hly as (-> & -> & ->).
  apply bind_Ok in Hnb as (lc' & [ma ga] & Hlc & Hnb).
  apply alloc_Ok in Hlc as (-> & -> & ->).
  apply ret_Ok in Hnb as [[= -> -> ->] [= -> ->]].
  rewrite !length_app in *. cbn [length] in *.
  replace (length m + 1)%nat with (S (length m)) in * by lia.
  replace (S (length m) + 1)%nat with (S (S (length m))) in * by lia.
  rewrite <- !app_assoc in H. cbn [app] in H.
  apply bind_Ok in H as (x1 & [ma ga] & Hx1 & H).
  apply read_images_Ok in Hx1 as (Hx1 & -> & ->).
  rewrite list_lookup_middle in Hx1 by done. injection Hx1 as <-.
  apply bind_Ok in H as (c1 & [ma ga] & Hc1 & H).
  apply read_concepts_Ok in Hc1 as (Hc1 & -> & ->).
  rewrite lookup_app_r in Hc1 by lia.
  replace (S (S (length m)) - length m)%nat with 2%nat in Hc1 by lia.
  injection Hc1 as <-.
  apply bind_Ok in H as ([x_new c_new] & [ma ga] & Hp & H).
  apply with_rng_Ok in Hp as [Hp ->].
  apply bind_Ok in H as (u1 & [mb gb] & Hw1 & H).
  apply write_Ok in Hw1 as (_ & -> & ->).
  apply bind_Ok in H as (u2 & [mc gc] & Hw2 & H).
  apply write_Ok in Hw2 as (_ & -> & ->).
  apply ret_Ok in H as [-> [= -> ->]].
  exists c, cb, xb, x_new, yb, c_new. repeat split; try done.
  rewrite insert_app_r_alt by lia. rewrite Nat.sub_diag. cbn.
  rewrite insert_app_r_alt by lia.
  replace (S (S (length m)) - length m)%nat with 2%nat by lia. done.
Qed.

Lemma Forall2_exists_mid {A B C} (R : A -> B -> Prop) (Q : B -> C -> Prop)
    (l : list A) (k : list C) :
  Forall2 (fun a c => exists b, R a b /\ Q b c) l k ->
  exists m, Forall2 R l m /\ Forall2 Q m k.
Proof.
  induction 1 as [|a c l k (b & HR & HQ) _ (m & Hm1 & Hm2)].
  - exists []. split; constructor.
  - exists (b :: m). split; by constructor.
Qed.

Lemma concatenate_Ok {A} (ls : list (list A)) l :
  concatenate ls = Ok l -> l = concat ls.
Proof. destruct ls; [done|]. by intros [= <-]. Qed.

Lemma make_loader_Ok ds b n ld : make_loader ds b n = Ok ld -> dataset ld = ds.
Proof.
  unfold make_loader. destruct (n <? 0); [done|].
  destruct b; try done. by intros [= <-].
Qed.

(** One input loader: the store only grows, the returned dataset lives in
    the new part, and its concept tensor relates entry by entry to the one of
    the input dataset. *)
Lemma inject_one_spec w bs nw mixing threshold ld m g out m' g' :
  inject_one w bs nw mixing threshold ld (m, g) = Ok (out, (m', g')) ->
  exists ext,
    m' = m ++ ext /\
    (length m <= ds_x (dataset out) /\ length m <= ds_y (dataset out) /\
     length m <= ds_c (dataset out))%nat /\
    forall x c,
      m !! ds_x (dataset ld) = Some (TImages x) ->
      m !! ds_c (dataset ld) = Some (TConcepts c) ->
      length x = length c -> rectangular c -> (0 < w)%Q ->
      exists c', m' !! ds_c (dataset out) = Some (TConcepts c') /\
                 Forall2 (Forall2 (cell_ok w threshold)) c c'.
Proof.
  unfold inject_one, dataset_len. intros H.
  apply bind_Ok in H as (n & [m0 g0] & Hn & H).
  apply bind_Ok in Hn as (x0 & [ma ga] & Hx0 & Hn).
  apply read_images_Ok in Hx0 as (Hx0 & -> & ->).
  apply ret_Ok in Hn as [-> [= -> ->]].
  apply bind_Ok in H as ([[xs ys] cs] & [m1 g1] & Hloop & H).
  pose (batch_ok := fun cb cb' : concept_matrix =>
          rectangular cb -> (0 < w)%Q ->
          Forall2 (Forall2 (cell_ok w threshold)) cb cb').
  pose (P := fun (done_ : list (list nat)) (acc : list loc * list loc * list loc)
                 (s : world) =>
          exists ext, s.1 = m ++ ext /\
            forall c, m !! ds_c (dataset ld) = Some (TConcepts c) ->
              Forall2 (fun batch lc => exists cb cb',
                         take_rows c batch = Ok cb /\
                         s.1 !! lc = Some (TConcepts cb') /\ batch_ok cb cb')
                      done_ acc.2).
  assert (P (chunks (batch_size ld) (seq 0 (length x0))) (xs, ys, cs) (m1, g1))
    as (ext1 & Hext1 & Hrel).
  { eapply (for_fold_list _ P); [| |exact Hloop].
    - intros done_ batch rest [[xs1 ys1] cs1] [s gs] acc' [s' gs'] _
             (ext & Hs & HP) Hstep. cbn in Hs, HP. subst s.
      apply batch_step_spec in Hstep
        as (c1 & cb & xb & x_new & yb & c_new & Hc1 & Hcb & Hp & -> & ->).
      exists (ext ++ [TImages x_new; TLabels yb; TConcepts c_new]). cbn.
      split; [by rewrite app_assoc|].
      intros c Hc. assert (c1 = c) as ->.
      { apply (lookup_app_l_Some _ ext) in Hc. congruence. }
      apply Forall2_app.
      + eapply Forall2_impl; [exact (HP c Hc)|]. cbn.
        intros b lc (cb0 & cb0' & ? & Hl & ?). exists cb0, cb0'.
        split; [done|]. split; [|done]. by apply lookup_app_l_Some.
      + constructor; [|constructor]. exists cb, c_new. split; [done|]. split.
        * rewrite lookup_app_r by lia.
          by replace (S (S (length (m ++ ext))) - length (m ++ ext))%nat
            with 2%nat by lia.
        * intros Hrect Hw. by eapply perturb_batch_spec.
    - exists []. cbn. split; [by rewrite app_nil_r|]. intros. constructor. }
  cbn in Hext1, Hrel. subst m1.
  apply bind_Ok in H as (xvs & [ma ga] & Hxs & H).
  apply read_each_images in Hxs as [-> ->].
  apply bind_Ok in H as (xcat & [ma ga] & Hxc & H). apply lift_Ok in Hxc as [_ [= -> ->]].
  apply bind_Ok in H as (yvs & [ma ga] & Hys & H).
  apply read_each_labels in Hys as [-> ->].
  apply bind_Ok in H as (ycat & [ma ga] & Hyc & H). apply lift_Ok in Hyc as [_ [= -> ->]].
  apply bind_Ok in H as (cvs & [ma ga] & Hcs & H).
  apply read_each_concepts in Hcs as (Hcs & -> & ->).
  apply bind_Ok in H as (ccat & [ma ga] & Hcc & H). apply lift_Ok in Hcc as [Hcc [= -> ->]].
  apply concatenate_Ok in Hcc. subst ccat.
  apply bind_Ok in H as (lx & [ma ga] & Hlx & H).
  apply alloc_Ok in Hlx as (-> & -> & ->).
  apply bind_Ok in H as (ly & [ma ga] & Hly & H).
  apply alloc_Ok in Hly as (-> & -> & ->).
  apply bind_Ok in H as (lc & [ma ga] & Hlc & H).
  apply alloc_Ok in Hlc as (-> & -> & ->).
  apply lift_Ok in H as [Hout [= -> ->]].
  apply make_loader_Ok in Hout. rewrite Hout. cbn.
  exists (ext1 ++ [TImages xcat; TLabels ycat; TConcepts (concat cvs)]).
  split; [by rewrite <- !app_assoc|].
  split; [rewrite !length_app; cbn; lia|].
  intros x c Hx Hc Hlen Hrect Hw.
  exists (concat cvs). split.
  { by apply list_lookup_middle. }
  assert (x0 = x) as -> by congruence.
  assert (Forall2 (fun batch v => exists cb,
            take_rows c batch = Ok cb /\ batch_ok cb v)
            (chunks (batch_size ld) (seq 0 (length x))) cvs) as Hmid.
  { specialize (Hrel c Hc). cbn in Hrel.
    apply Forall2_same_length_lookup_2.
    - rewrite (Forall2_length _ _ _ Hrel). by eapply Forall2_length.
    - intros i batch v Hb Hv.
      destruct (Forall2_lookup_l _ _ _ _ _ Hrel Hb) as (l & Hl & cb & cb' & ? & Hm & ?).
      destruct (Forall2_lookup_l _ _ _ _ _ Hcs Hl) as (v' & Hv' & Hm').
      exists cb. split; [done|].
      assert (cb' = v) as <- by congruence. done. }
  apply Forall2_exists_mid in Hmid as (cbs & Hcbs & Hok).
  rewrite Hlen in Hcbs.
  rewrite <- (rows_of_all_batches c _ cbs Hcbs) at 1.
  apply Forall2_concat_rel.
  apply Forall2_same_length_lookup_2; [by eapply Forall2_length|].
  intros i cb v Hcb Hv.
  destruct (Forall2_lookup_r _ _ _ _ _ Hcbs Hcb) as (batch & _ & Hrows).
  apply (Forall2_lookup_lr _ _ _ _ _ _ Hok Hcb Hv); [|done].
  by eapply rectangular_rows.
Qed.

(** *** All input loaders *)

(** The tensors of a dataset exist, have one row per sample, and the concept
    tensor is rectangular (what [TensorDataset] and a tensor guarantee). *)
Definition wf_loader (m : store) (ld : data_loader) : Prop :=
  exists x c,
    m !! ds_x (dataset ld) = Some (TImages x) /\
    m !! ds_c (dataset ld) = Some (TConcepts c) /\
    length x = length c /\ rectangular c.

(** The tensors of [out] were allocated after the store had size [n]. *)
Definition allocated_after (n : nat) (out : data_loader) : Prop :=
  (n <= ds_x (dataset out) /\ n <= ds_y (dataset out) /\
   n <= ds_c (dataset out))%nat.

(** The concept tensor of [out] in [m'] against the one of [ld] in [m]. *)
Definition concepts_related (w : Q) (threshold : bool) (m m' : store)
    (ld out : data_loader) : Prop :=
  exists c c',
    m !! ds_c (dataset ld) = Some (TConcepts c) /\
    m' !! ds_c (dataset out) = Some (TConcepts c') /\
    Forall2 (Forall2 (cell_ok w threshold)) c c'.

Lemma Forall2_with_left {A B} (P : A -> Prop) (R : A -> B -> Prop) l k :
  Forall P l -> Forall2 R l k -> Forall2 (fun a b => P a /\ R a b) l k.
Proof.
  intros HP HR. induction HR; inversion HP; subst; constructor; auto.
Qed.

Lemma inject_each_spec w bs nw mixing threshold lds m g outs m' g' :
  for_each (inject_one w bs nw mixing threshold) lds (m, g)
    = Ok (outs, (m', g')) ->
  exists ext,
    m' = m ++ ext /\
    Forall (allocated_after (length m)) outs /\
    ((0 < w)%Q -> Forall (wf_loader m) lds ->
     Forall2 (concepts_related w threshold m m') lds outs).
Proof.
  revert m g outs. induction lds as [|ld lds IH]; intros m g outs H; cbn in H.
  - apply ret_Ok in H as [-> [= -> ->]]. exists [].
    rewrite app_nil_r. repeat split; constructor.
  - apply bind_Ok in H as (out & [m1 g1] & Hone & H).
    apply bind_Ok in H as (outs' & [m2 g2] & Hrest & H).
    apply ret_Ok in H as [-> [= -> ->]].
    apply inject_one_spec in Hone as (ext1 & -> & Hfresh & Hrel).
    apply IH in Hrest as (ext2 & -> & Hfresh2 & Hrel2).
    exists (ext1 ++ ext2). split; [by rewrite app_assoc|]. split.
    + constructor; [done|]. eapply Forall_impl; [exact Hfresh2|].
      unfold allocated_after. intros o. rewrite length_app. lia.
    + intros Hw Hwf. inversion Hwf as [|? ? (x & c & Hx & Hc & Hlen & Hrect) Hwf']; subst.
      constructor.
      * destruct (Hrel x c Hx Hc Hlen Hrect Hw) as (c' & Hc' & Hall).
        exists c, c'. split; [done|]. split; [|done].
        by apply lookup_app_l_Some.
      * assert (Forall (wf_loader (m ++ ext1)) lds) as Hwf1.
        { eapply Forall_impl; [exact Hwf'|].
          intros l (x1 & c1 & ? & ? & ? & ?). exists x1, c1.
          repeat split; try done; by apply lookup_app_l_Some. }
        eapply Forall2_impl;
          [exact (Forall2_with_left _ _ _ _ Hwf' (Hrel2 Hw Hwf1))|].
        intros l o [(x2 & c2 & _ & Hc2 & _) (c1 & c1' & Hl & Ho & Hall)].
        exists c1, c1'. split; [|done].
        apply (lookup_app_l_Some _ ext1) in Hc2 as Hc2'. congruence.
Qed.

(** C5.  A call of [inject_uncertainty] that returns leaves every tensor
    that existed before the call as it was, in particular the image and
    concept tensors of the datasets of the input loaders; the tensors of the
    returned loaders are new ones, allocated during the call. *)
Theorem inject_uncertainty_leaves_inputs seed datasets w bs nw mixing
    threshold m g outs m' g' :
  inject_uncertainty seed datasets w bs nw mixing threshold (m, g)
    = Ok (outs, (m', g')) ->
  (forall l, (l < length m)%nat -> m' !! l = m !! l) /\
  Forall (fun ld =>
            forall x c,
              m !! ds_x (dataset ld) = Some (TImages x) ->
              m !! ds_c (dataset ld) = Some (TConcepts c) ->
              m' !! ds_x (dataset ld) = Some (TImages x) /\
              m' !! ds_c (dataset ld) = Some (TConcepts c)) datasets /\
  Forall (allocated_after (length m)) outs.
Proof.
  unfold inject_uncertainty. intros H.
  apply bind_Ok in H as (u & [m0 g0] & Hseed & H).
  cbn in Hseed. injection Hseed as _ <- <-.
  apply inject_each_spec in H as (ext & -> & Hfresh & _).
  split; [|split; [|done]].
  - intros l Hl. by apply lookup_app_l.
  - apply Forall_forall. intros ld _ x c Hx Hc.
    split; by apply lookup_app_l_Some.
Qed.

(** C6.  After [inject_uncertainty] with a width [w > 0] on well-formed
    datasets, the concept tensor of every returned loader relates entry by
    entry to the one of the corresponding input loader: with [threshold] off,
    an entry that was 1 lies in [[1 - w, 1]] and an entry that was 0 lies in
    [[0, w]]; with [threshold] on, every entry is exactly 0 or 1, and it is 1
    exactly when the value drawn in the band was at least one half. *)
Theorem inject_uncertainty_bounds seed datasets w bs nw mixing threshold
    m g outs m' g' :
  (0 < w)%Q ->
  Forall (wf_loader m) datasets ->
  inject_uncertainty seed datasets w bs nw mixing threshold (m, g)
    = Ok (outs, (m', g')) ->
  Forall2 (concepts_related w threshold m m') datasets outs.
Proof.
  unfold inject_uncertainty. intros Hw Hwf H.
  apply bind_Ok in H as (u & [m0 g0] & Hseed & H).
  cbn in Hseed. injection Hseed as _ <- <-.
  apply inject_each_spec in H as (ext & -> & _ & Hrel). auto.
Qed.


End UncertaintyProps.

Module UncertaintyExamples.

Import Uncertainty UncertaintyProps Demo.

Lemma injected_run threshold :
  inject_uncertainty seed0 [loader1] (1 # 10) 2 0 false threshold
                     (store1, rng0)
  = Ok ((injected threshold).1,
        ((injected threshold).2.1, (injected threshold).2.2)).
Proof. destruct threshold; vm_compute; reflexivity. Defined.

Lemma loader1_wf : Forall (wf_loader store1) [loader1].
Proof.
  constructor; [|constructor]. exists x1, c1.
  repeat split; repeat constructor.
Defined.

Lemma inject_uncertainty_leaves_inputs_witness :
  (forall l, (l < length store1)%nat ->
             (injected false).2.1 !! l = store1 !! l) /\
  Forall (fun ld =>
            forall x c,
              store1 !! ds_x (dataset ld) = Some (TImages x) ->
              store1 !! ds_c (dataset ld) = Some (TConcepts c) ->
              (injected false).2.1 !! ds_x (dataset ld) = Some (TImages x) /\
              (injected false).2.1 !! ds_c (dataset ld) = Some (TConcepts c))
         [loader1] /\
  Forall (allocated_after (length store1)) (injected false).1.
Proof.
  apply (inject_uncertainty_leaves_inputs seed0 [loader1] (1 # 10) 2 0 false
           false store1 rng0 _ _ (injected false).2.2).
  apply (injected_run false).
Defined.

Lemma inject_uncertainty_bounds_witness :
  Forall2 (concepts_related (1 # 10) false store1 (injected false).2.1)
          [loader1] (injected false).1 /\
  Forall2 (concepts_related (1 # 10) true store1 (injected true).2.1)
          [loader1] (injected true).1.
Proof.
  split.
  - apply (inject_uncertainty_bounds seed0 [loader1] (1 # 10) 2 0 false false
             store1 rng0 _ _ (injected false).2.2).
    + reflexivity.
    + apply loader1_wf.
    + apply (injected_run false).
  - apply (inject_uncertainty_bounds seed0 [loader1] (1 # 10) 2 0 false true
             store1 rng0 _ _ (injected true).2.2).
    + reflexivity.
    + apply loader1_wf.
    + apply (injected_run true).
Defined.

(** The concept tensors of the run, to look at. *)
Example injected_concepts :
  (injected true).2.1 !! 11%nat = Some (TConcepts [[1; 0]; [0; 1]; [1; 1]]%Q) /\
  store1 !! 2%nat = Some (TConcepts [[1; 0]; [0; 1]; [1; 1]]%Q) /\
  (injected false).2.1 !! 2%nat = Some (TConcepts [[1; 0]; [0; 1]; [1; 1]]%Q).
Proof. vm_compute. done. Qed.

End UncertaintyExamples.

(** ** Properties of [generate_data] *)

Module GenDataProps.

Import Addition GenData.

(** *** Permutations, sorting, slices *)









(** *** The selection cache *)





Lemma take_rows_total {A} (a : list A) idxs :
  Forall (fun i => (i < length a)%nat) idxs ->
  exists rows, take_rows a idxs = Ok rows.
Proof.
  intros H. unfold take_rows.
  destruct (mapM (fun i => a !! i) idxs) as [rows|] eqn:E; [by eexists|].
  exfalso. assert (is_Some (mapM (fun i => a !! i) idxs)) as [? ?]; [|congruence].
  apply mapM_is_Some. eapply Forall_impl; [exact H|].
  intros i Hi. by apply lookup_lt_is_Some.
Qed.



(** *** The concept-group map *)













(** *** Rebuilding the group map *)


(** The new members of a group: the positions, within the selection, of its
    selected members. *)
Definition kept (sel : list nat) (g : list nat) : list nat :=
  omap (fun o => if bool_decide (o ∈ sel) then remap_of sel !! o else None) g.



Section Regroup.

Variable cgm : list (nat * list nat).
Variable sel : list nat.
Hypothesis cgm_names : NoDup cgm.*1.







End Regroup.

Lemma Permutation_concat {A} (ls ks : list (list A)) :
  ls ≡ₚ ks -> concat ls ≡ₚ concat ks.
Proof.
  induction 1 as [|l ls ks _ IH|l1 l2 ls|ls ks ms _ IH1 _ IH2]; cbn.
  - done.
  - by rewrite IH.
  - rewrite !app_assoc. f_equiv. apply Permutation_app_comm.
  - by rewrite IH1.
Qed.

#[local] Instance kept_Permutation sel : Proper ((≡ₚ) ==> (≡ₚ)) (kept sel).
Proof. intros l k H. unfold kept. by rewrite H. Qed.







(** *** The subsampling block *)






(** *** The returned metadata *)

Lemma initial_layout_even n dss lay :
  initial_layout true false None n dss = Ok lay -> n_tasks lay = None.
Proof. cbn. by intros [= <-]. Qed.

(** C10 (as amended).  With [even_concepts] on, [even_labels] off and no
    [threshold_labels], [generate_data] never returns: [n_tasks] is assigned
    in no branch that is taken.  When the operand check, the subsampling
    block and the construction of the loaders all complete, the call fails
    with the unbound-name error raised where the returned tuple is built. *)
Theorem n_tasks_unbound {loaders imbalance}
    (load : config -> list (list Z) -> option (list nat) -> Z ->
            ST world (loaders * imbalance)) cfg root rerun w :
  default false (even_concepts cfg) = true ->
  default false (even_labels cfg) = false ->
  threshold_labels cfg = None ->
  let n := default 32%nat (num_operands cfg) in
  (forall r, generate_data load cfg root rerun w <> Ok r) /\
  (forall dss lay s w1 r w2,
      check_selected_digits n
        (default (DigitList [0; 1]) (selected_digits cfg)) = Ok dss ->
      initial_layout true false None n dss = Ok lay ->
      apply_sampling cfg root rerun n lay w = Ok (s, w1) ->
      load cfg dss s.2 s.1.1 w1 = Ok (r, w2) ->
      generate_data load cfg root rerun w = Raise UnboundLocalError).
Proof.
  intros Hec Hel Hthr n. split.
  - intros [r w'] H. unfold generate_data in H. rewrite Hec, Hel, Hthr in H.
    apply bind_Ok in H as (dss & w0 & Hc & H). apply lift_Ok in Hc as [Hc ->].
    apply bind_Ok in H as (lay & w1 & Hl & H). apply lift_Ok in Hl as [Hl ->].
    apply initial_layout_even in Hl.
    apply bind_Ok in H as ([[nc cgm] ct] & w2 & _ & H).
    apply bind_Ok in H as ([dls imb] & w3 & _ & H).
    apply bind_Ok in H as (nt & w4 & Hnt & _).
    rewrite Hl in Hnt. discriminate.
  - intros dss lay [[nc cgm] ct] w1 [dls imb] w2 Hc Hl Hs Hload.
    unfold generate_data. rewrite Hec, Hel, Hthr. fold n.
    unfold bind at 1. unfold lift at 1. rewrite Hc.
    unfold bind at 1. unfold lift at 1. rewrite Hl.
    unfold bind at 1. rewrite Hs.
    unfold bind at 1. cbn in Hload. rewrite Hload.
    unfold bind, lift. by rewrite (initial_layout_even _ _ _ Hl).
Qed.

End GenDataProps.

Module GenDataExamples.

Import Addition GenData GenDataProps Demo.






Lemma n_tasks_unbound_witness :
  (forall r, generate_data load0 config_even "data" false (∅, rng0) <> Ok r) /\
  generate_data load0 config_even "data" false (∅, rng0)
  = Raise UnboundLocalError.
Proof.
  pose proof (n_tasks_unbound load0 config_even "data" false (∅, rng0)
                eq_refl eq_refl eq_refl) as [H1 H2].
  split; [exact H1|].
  apply (H2 digits3 (MkLayout 3 [(0, [0]); (1, [1]); (2, [2])]%nat None)
            (3, [(0, [0]); (1, [1]); (2, [2])]%nat, None) (∅, rng0)
            (tt, tt) (∅, rng0)); reflexivity.
Defined.

(** With [even_concepts] on and an operand list of the wrong length, the
    call fails earlier, with the length-mismatch error. *)
Lemma n_tasks_unbound_counterexample :
  default false (even_concepts config_even_mismatch) = true /\
  default false (even_labels config_even_mismatch) = false /\
  threshold_labels config_even_mismatch = None /\
  generate_data load0 config_even_mismatch "data" false (∅, rng0)
  = Raise ValueError_selected_digits /\
  generate_data load0 config_even_mismatch "data" false (∅, rng0)
  <> Raise UnboundLocalError.
Proof. repeat split; try reflexivity. discriminate. Qed.

End GenDataExamples.

(** ** [get_ss_components]: flags at the boundary ratios, weights, empty input *)

Module SplitProps.

Import SemiSup SemiSupProps.

(** The flags the function works with, by mode. *)
Definition flags_of (labeled_ratio : Q) (training : bool) (ys : list Z)
  : gmap nat bool :=
  if training then l_choice (stratify labeled_ratio ys)
  else all_labeled (length ys).

Lemma all_labeled_S n : all_labeled (S n) = <[n := true]> (all_labeled n).
Proof. unfold all_labeled. by rewrite seq_S, foldl_app. Qed.

Lemma all_labeled_lookup n i :
  all_labeled n !! i = if decide (i < n)%nat then Some true else None.
Proof.
  induction n as [|n IH].
  { unfold all_labeled. cbn. rewrite lookup_empty.
    destruct (decide _); [lia | done]. }
  rewrite all_labeled_S.
  destruct (decide (i = n)) as [->|Hne].
  - rewrite lookup_insert_eq, decide_True by lia. done.
  - rewrite lookup_insert_ne by congruence. rewrite IH.
    destruct (decide (i < n)%nat);
      [rewrite decide_True by lia | rewrite decide_False by lia]; done.
Qed.

(** A dictionary whose keys are the positions below [n] has [n] entries. *)
Lemma size_positions {B} (m : gmap nat B) n :
  (forall j, is_Some (m !! j) <-> (j < n)%nat) -> size m = n.
Proof.
  intros H. rewrite <- size_dom.
  assert (dom m = set_seq (C:=gset nat) 0 n) as ->.
  { apply set_eq. intros j. rewrite elem_of_dom, H, elem_of_set_seq. lia. }
  apply size_set_seq.
Qed.

Lemma flags_of_lookup r training ys j :
  is_Some (flags_of r training ys !! j) <-> (j < length ys)%nat.
Proof.
  unfold flags_of. destruct training.
  - unfold stratify.
    destruct (stratify_prefix r (count_classes ys) ys) as [_ Hflag].
    cbn in Hflag. rewrite Hflag, fmap_is_Some. apply lookup_lt_is_Some.
  - rewrite all_labeled_lookup. destruct (decide _); split; try done.
Qed.

Lemma flags_of_size r training ys :
  size (flags_of r training ys) = length ys.
Proof. apply size_positions, flags_of_lookup. Qed.

(** The parts of a call that returns: the label array is not empty, the
    neighbour search has answered, and every sample is given the flag and the
    neighbour record of the last position. *)
Lemma get_ss_components_Ok {feature concept} knn (xs : list feature) ys
    (cs : list concept) r training out :
  get_ss_components knn xs ys cs r training = Ok out ->
  exists nbrs info row,
    ys <> [] /\
    nearest_neighbors knn xs (flags_of r training ys) 2 = Ok nbrs /\
    nbrs !! (length ys - 1)%nat = Some info /\
    take_rows cs (indices info) = Ok row /\
    out_l out = replicate (length ys)
                  (getd false (flags_of r training ys) (length ys - 1)%nat) /\
    out_nbr_concepts out = replicate (length ys) row /\
    out_nbr_weights out = replicate (length ys) (weights info).
Proof.
  unfold get_ss_components. fold (flags_of r training ys).
  rewrite flags_of_size. intros H.
  destruct (length ys) as [|n] eqn:E; [discriminate|].
  cbn [Nat.eqb after_range] in H.
  apply rbind_Ok in H as (nbrs & Hn & H).
  apply rbind_Ok in H as (rows & Hrows & H). injection H as <-. cbn.
  apply traverse_Forall2 in Hrows.
  assert (exists info row,
             nbrs !! n = Some info /\ take_rows cs (indices info) = Ok row /\
             Forall (fun r' => r' = (getd false (flags_of r training ys) n,
                                     row, weights info)) rows)
    as (info & row & Hinfo & Hrow & Hall).
  { destruct rows as [|r0 rows]; [by apply Forall2_length in Hrows|].
    pose proof (Forall2_lookup_r _ _ _ 0%nat r0 Hrows eq_refl)
      as (i0 & _ & H0).
    unfold gather in H0. cbn in H0.
    apply rbind_Ok in H0 as (info & Hinfo%of_option_Ok & H0).
    apply rbind_Ok in H0 as (row & Hrow & [= <-]).
    exists info, row. repeat split; [done..|].
    apply Forall_forall. intros r' Hr'.
    apply list_elem_of_lookup in Hr' as [i Hi].
    destruct (Forall2_lookup_r _ _ _ _ _ Hrows Hi) as (? & _ & Hg).
    unfold gather in Hg. cbn in Hg. rewrite Hinfo in Hg. cbn in Hg.
    rewrite Hrow in Hg. cbn in Hg. by injection Hg as <-. }
  exists nbrs, info, row. replace (S n - 1)%nat with n by lia.
  assert (length rows = S n) as Hlen.
  { apply Forall2_length in Hrows. by rewrite length_seq in Hrows. }
  assert (rows = replicate (S n)
                   (getd false (flags_of r training ys) n, row, weights info))
    as ->.
  { rewrite <- Hlen. clear -Hall. induction Hall as [|? ? -> _ IH]; [done|].
    cbn. by f_equal. }
  rewrite !fmap_replicate. cbn. rewrite ?Nat.sub_0_r.
  repeat split; try done. intros ->; discriminate.
Qed.

(** *** Evaluation mode *)

Lemma fitted_on_flagged {feature} (xs : list feature) (n : nat)
    (lc : gmap nat bool) :
  (forall j, getd false lc j = bool_decide (j < n)%nat) ->
  omap (fun '(idx, f) => if getd false lc idx then Some f else None)
       (enumerate xs)
  = take n xs.
Proof.
  intros Hlc. induction xs as [|x xs IH] using rev_ind; [by rewrite take_nil|].
  rewrite enumerate_snoc, omap_app, IH. cbn. rewrite Hlc.
  case_bool_decide.
  - rewrite !take_ge; [done | rewrite length_app; cbn; lia | lia].
  - rewrite take_app_le by lia. by rewrite app_nil_r.
Qed.

Lemma all_labeled_flag n j :
  getd false (all_labeled n) j = bool_decide (j < n)%nat.
Proof.
  unfold getd. rewrite all_labeled_lookup.
  destruct (decide _); [by rewrite bool_decide_eq_true_2
                       | by rewrite bool_decide_eq_false_2].
Qed.

Lemma evaluation_flags {feature concept} knn (xs : list feature) ys
    (cs : list concept) r out :
  get_ss_components knn xs ys cs r false = Ok out ->
  out_l out = replicate (length ys) true.
Proof.
  intros H. apply get_ss_components_Ok in H
    as (nbrs & info & row & Hne & _ & _ & _ & Hl & _).
  rewrite Hl. f_equal. cbn. rewrite all_labeled_flag.
  apply bool_decide_eq_true. destruct ys; [done | cbn; lia].
Qed.

(** With [training] off every returned flag is [True], and the neighbour
    index is fitted on every sample that has a label. *)
Theorem evaluation_labels_every_sample {feature concept} knn
    (xs : list feature) ys (cs : list concept) r out :
  get_ss_components knn xs ys cs r false = Ok out ->
  out_l out = replicate (length ys) true /\
  exists distances positions,
    knn 2%nat (take (length ys) xs) xs = Ok (distances, positions).
Proof.
  intros H. split; [by eapply evaluation_flags|].
  apply get_ss_components_Ok in H
    as (nbrs & info & row & Hne & Hn & _ & _ & Hl & _).
  - unfold nearest_neighbors in Hn. cbn in Hn.
    rewrite (fitted_on_flagged xs (length ys)) in Hn
      by apply all_labeled_flag.
    apply rbind_Ok in Hn as ([ds ps] & Hk & _). eauto.
Qed.

(** *** The boundary ratios *)





(** *** Neighbour weights *)

Lemma Qsum_scaled (w : list Q) (s : Q) :
  (Qsum ((fun v => v / s) <$> w) == Qsum w / s)%Q.
Proof.
  induction w as [|v w IH].
  - change (0 == 0 / s)%Q. unfold Qdiv. ring.
  - change (v / s + Qsum ((fun v => v / s) <$> w) == (v + Qsum w) / s)%Q.
    rewrite IH. unfold Qdiv. ring.
Qed.

Lemma Qsum_cons v (w : list Q) : Qsum (v :: w) = (v + Qsum w)%Q.
Proof. done. Qed.

Lemma Qsum_nonneg (w : list Q) :
  Forall (fun v => 0 < v)%Q w -> (0 <= Qsum w)%Q.
Proof.
  induction 1 as [|u w Hu _ IH]; [done|]. rewrite Qsum_cons. lra.
Qed.

Lemma Qsum_pos (w : list Q) :
  w <> [] -> Forall (fun v => 0 < v)%Q w -> (0 < Qsum w)%Q.
Proof.
  intros Hne H. destruct H as [|v w Hv Hw]; [done|]. rewrite Qsum_cons.
  pose proof (Qsum_nonneg w Hw). lra.
Qed.

Lemma Qsum_bounds (w : list Q) v :
  Forall (fun v => 0 < v)%Q w -> v ∈ w -> (v <= Qsum w)%Q.
Proof.
  induction 1 as [|u w Hu Hw IH]; [by intros ?%elem_of_nil|].
  rewrite Qsum_cons. intros [->|Hin]%elem_of_cons.
  - pose proof (Qsum_nonneg w Hw). lra.
  - specialize (IH Hin). lra.
Qed.

(** The weights computed from one row of distances (lines 28-29). *)
Definition normalised (row : list Q) : list Q :=
  let w := (fun d => / (d + (1 # 1000000)))%Q <$> row in
  (fun v => v / Qsum w)%Q <$> w.

Lemma normalised_spec row :
  row <> [] -> Forall (fun d => 0 <= d)%Q row ->
  (Qsum (normalised row) == 1)%Q /\
  Forall (fun v => 0 < v /\ v <= 1)%Q (normalised row).
Proof.
  intros Hne Hrow. unfold normalised.
  set (w := (fun d => / (d + (1 # 1000000)))%Q <$> row).
  assert (Forall (fun v => 0 < v)%Q w) as Hw.
  { apply Forall_fmap. eapply Forall_impl; [exact Hrow|]. cbn.
    intros d Hd. apply Qinv_lt_0_compat. lra. }
  assert (w <> []) as Hwne by (destruct row; [done | discriminate]).
  pose proof (Qsum_pos w Hwne Hw) as Hs.
  split.
  - rewrite Qsum_scaled. field. lra.
  - apply Forall_fmap, Forall_forall. intros v Hv. cbn.
    pose proof (Qsum_bounds w v Hw Hv) as Hle.
    pose proof (Forall_forall (fun v => 0 < v)%Q w) as [F _].
    specialize (F Hw v Hv). cbn in F.
    split.
    + apply Qlt_shift_div_l; lra.
    + apply Qle_shift_div_r; lra.
Qed.

(** The distances a neighbour search may return: at least one per query,
    none negative. *)
Definition proper_search {feature}
    (knn : nat -> list feature -> list feature ->
           result (list (list Q) * list (list nat))) : Prop :=
  forall k fitted queries distances positions,
    knn k fitted queries = Ok (distances, positions) ->
    Forall (fun row => row <> [] /\ Forall (fun d => 0 <= d)%Q row) distances.

(** The weights attached to the neighbours of a sample are positive, none
    exceeds one, and they add up to one. *)
Theorem neighbour_weights_normalised {feature concept} knn
    (xs : list feature) ys (cs : list concept) r training out :
  proper_search knn ->
  get_ss_components knn xs ys cs r training = Ok out ->
  Forall (fun ws => (Qsum ws == 1)%Q /\ Forall (fun v => 0 < v /\ v <= 1)%Q ws)
         (out_nbr_weights out).
Proof.
  intros Hknn H. apply get_ss_components_Ok in H
    as (nbrs & info & row & _ & Hn & Hinfo & _ & _ & _ & ->).
  apply Forall_replicate.
  unfold nearest_neighbors in Hn.
  apply rbind_Ok in Hn as ([ds ps] & Hk & [= <-]).
  rewrite list_lookup_fmap in Hinfo.
  destruct (zip ps _ !! _) as [[idx w]|] eqn:E; [|done].
  injection Hinfo as <-. cbn.
  apply lookup_zip_with_Some in E as (p & w' & [= <- <-] & _ & Hw).
  rewrite list_lookup_fmap in Hw.
  destruct (ds !! _) as [d|] eqn:Ed; [|done]. injection Hw as <-.
  apply Hknn in Hk.
  pose proof (Forall_lookup_1 _ _ _ _ Hk Ed) as [Hne Hd].
  by apply normalised_spec.
Qed.

(** *** An empty label array *)

Lemma traverse_Raise {A B} (f : A -> result B) xs e :
  traverse f xs = Raise e -> exists x, x ∈ xs /\ f x = Raise e.
Proof.
  induction xs as [|x xs IH]; [discriminate|]. cbn.
  destruct (f x) as [b|e'] eqn:E; cbn.
  - destruct (traverse f xs) as [bs|e'']; [discriminate|]. cbn.
    intros [= ->]. destruct IH as (x' & ? & ?); [done|].
    exists x'. split; [by right | done].
  - intros [= ->]. exists x. split; [by left | done].
Qed.

Lemma rbind_Raise {A B} (r : result A) (k : A -> result B) e :
  rbind r k = Raise e -> r = Raise e \/ exists a, r = Ok a /\ k a = Raise e.
Proof. destruct r as [a|e']; cbn; [eauto | intros [= ->]; by left]. Qed.

(** With no label at all the function divides by zero when it logs the
    labelled share; with at least one label it never does (as long as the
    neighbour search does not). *)
Theorem empty_labels_divide_by_zero {feature concept} knn
    (xs : list feature) ys (cs : list concept) r training :
  (forall k fitted queries, knn k fitted queries <> Raise ZeroDivisionError) ->
  get_ss_components knn xs ys cs r training = Raise ZeroDivisionError
  <-> ys = [].
Proof.
  intros Hknn. unfold get_ss_components. fold (flags_of r training ys).
  rewrite flags_of_size. split; [|by intros ->].
  destruct ys as [|y ys]; [done|]. cbn [length Nat.eqb after_range].
  intros H. exfalso.
  apply rbind_Raise in H as [H|(nbrs & _ & H)].
  - unfold nearest_neighbors in H.
    apply rbind_Raise in H as [H|([ds ps] & _ & H)]; [|discriminate].
    by eapply Hknn.
  - apply rbind_Raise in H as [H|(rows & _ & H)]; [|discriminate].
    apply traverse_Raise in H as (i & _ & Hg). unfold gather in Hg.
    apply rbind_Raise in Hg as [Hg|(idx & _ & Hg)]; [discriminate|].
    apply rbind_Raise in Hg as [Hg|(info & _ & Hg)].
    { by destruct (nbrs !! idx). }
    apply rbind_Raise in Hg as [Hg|(row & _ & Hg)]; [|discriminate].
    unfold take_rows in Hg. by destruct (mapM _ _).
Qed.

End SplitProps.

Module SplitExamples.

Import SemiSup SemiSupProps SplitProps Demo.

Lemma evaluation_labels_every_sample_witness :
  exists out,
    get_ss_components knn0 [100; 101; 102] [0; 1; 0] [[1]; [2]; [3]] 1 false
    = Ok out /\
    out_l out = replicate (length [0; 1; 0]) true /\
    exists distances positions,
      knn0 2%nat (take (length [0; 1; 0]) [100; 101; 102]) [100; 101; 102]
      = Ok (distances, positions).
Proof.
  eexists. split; [reflexivity|].
  apply (evaluation_labels_every_sample knn0 [100; 101; 102] [0; 1; 0]
           [[1]; [2]; [3]] 1).
  reflexivity.
Defined.


Lemma knn0_proper : proper_search knn0.
Proof.
  intros k fitted queries distances positions. unfold knn0.
  destruct (_ <? _)%nat; [discriminate|]. intros [= <- <-].
  apply Forall_fmap, Forall_true. intros q. cbn. split; [done|].
  repeat constructor; by vm_compute.
Defined.

Lemma neighbour_weights_normalised_witness :
  exists out,
    get_ss_components knn0 [100; 101; 102] [0; 1; 0] [[1]; [2]; [3]] (1 # 2)
                      true = Ok out /\
    Forall (fun ws => (Qsum ws == 1)%Q /\
                      Forall (fun v => 0 < v /\ v <= 1)%Q ws)
           (out_nbr_weights out).
Proof.
  eexists. split; [reflexivity|].
  apply (neighbour_weights_normalised knn0 [100; 101; 102] [0; 1; 0]
           [[1]; [2]; [3]] (1 # 2) true).
  - apply knn0_proper.
  - reflexivity.
Defined.

Lemma empty_labels_divide_by_zero_witness :
  get_ss_components knn0 [] [] ([] : list (list Z)) 1 false
  = Raise ZeroDivisionError
  <-> ([] : list Z) = [].
Proof.
  apply (empty_labels_divide_by_zero knn0 [] [] ([] : list (list Z)) 1 false).
  intros k fitted queries. unfold knn0. destruct (_ <? _)%nat; discriminate.
Defined.

End SplitExamples.

(** ** [produce_addition_set]: when it returns, and what the concepts encode *)

Module SynthesisProps.

Import Addition AdditionProps.

(** *** Running a computation step by step *)

Lemma bind_intro {S A B} (m : ST S A) (k : A -> ST S B) s a s1 :
  m s = Ok (a, s1) -> bind m k s = k a s1.
Proof. unfold bind. by intros ->. Qed.

Lemma bind_lift_Ok {S A B} (r : result A) a (k : A -> ST S B) s :
  r = Ok a -> bind (lift r) k s = k a s.
Proof. by intros ->. Qed.

Lemma bind_Raise {S A B} (m : ST S A) (k : A -> ST S B) s e :
  m s = Raise e -> bind m k s = Raise e.
Proof. unfold bind. by intros ->. Qed.

Lemma choice_Ok n g :
  n <> 0%nat -> exists i g', choice n g = Ok (i, g') /\ (i < n)%nat.
Proof.
  intros Hn. unfold choice. destruct (Nat.eqb_spec n 0); [done|]. cbn.
  eexists _, _. split; [done|].
  pose proof (Z.mod_pos_bound (raw g (cursor g)) (Z.of_nat n)). lia.
Qed.

(** *** Remap tables *)

Lemma remap_of_snoc {K} `{Countable K} (xs : list K) (a : K) :
  remap_of (xs ++ [a]) = <[a := length xs]> (remap_of xs).
Proof.
  unfold remap_of. by rewrite SemiSupProps.enumerate_snoc, foldl_app.
Qed.

(** A remap table sends every listed key to a position that holds it, and
    nothing else to anything. *)
Lemma remap_of_lookup {K} `{Countable K} (xs : list K) (x : K) :
  (x ∈ xs -> exists i, remap_of xs !! x = Some i) /\
  (forall i, remap_of xs !! x = Some i -> xs !! i = Some x).
Proof.
  induction xs as [|a xs [IH1 IH2]] using rev_ind.
  - split; [by intros ?%elem_of_nil | by unfold remap_of; cbn].
  - rewrite remap_of_snoc. split.
    + intros [Hin|Hin%list_elem_of_singleton]%elem_of_app; [|subst x].
      * destruct (decide (x = a)) as [->|Hne].
        -- rewrite lookup_insert_eq. eauto.
        -- rewrite lookup_insert_ne by done. auto.
      * rewrite lookup_insert_eq. eauto.
    + intros i. destruct (decide (x = a)) as [->|Hne].
      * rewrite lookup_insert_eq. intros [= <-]. by apply list_lookup_middle.
      * rewrite lookup_insert_ne by done. intros Hi%IH2.
        by apply lookup_app_l_Some.
Qed.

Lemma np_max_Ok ds : ds <> [] -> exists m, np_max ds = Ok m.
Proof. destruct ds; [done | cbn; eauto]. Qed.



(** *** One-hot blocks *)







(** *** Stocked operands *)

(** The digits of the corpus an operand may draw: present or not. *)
Definition stocked (y : list Z) (ds : list Z) : Prop :=
  exists i d, y !! i = Some d /\ d ∈ ds.

Lemma stocked_filter y ds : stocked y ds <-> filter_idxs y ds <> [].
Proof.
  split.
  - intros (i & d & Hi & Hd) Hnil.
    assert (i ∈ filter_idxs y ds) as Hin; [|by rewrite Hnil in Hin; apply elem_of_nil in Hin].
    unfold filter_idxs. apply list_elem_of_omap. exists (i, d).
    split; [by apply elem_of_enumerate|]. by rewrite bool_decide_eq_true_2.
  - destruct (filter_idxs y ds) as [|i l] eqn:E; [done|]. intros _.
    destruct (filter_idxs_spec y ds i) as (d & ? & ?);
      [rewrite E; by left|]. by exists i, d.
Qed.

#[local] Instance stocked_dec y ds : Decision (stocked y ds).
Proof.
  destruct (decide (filter_idxs y ds = [])) as [H|H].
  - right. rewrite stocked_filter. intros Hn. exact (Hn H).
  - left. by rewrite stocked_filter.
Defined.

(** *** Pools *)

Section WithImages.

Context {image : Type}.

(** A pool as lines 193-205 build it for the digits [ds]. *)
Definition built_pool (X : list image) (y : list Z) (ds : list Z)
    (p : operand_pool (image:=image)) : Prop :=
  operand_digits p = ds /\ remap p = operand_remap ds /\
  take_rows X (filter_idxs y ds) = Ok (total_samples p) /\
  take_rows y (filter_idxs y ds) = Ok (total_labels p).

Lemma build_pools_built (X : list image) y dss pools :
  build_pools X y dss = Ok pools -> Forall2 (built_pool X y) dss pools.
Proof.
  unfold build_pools. intros H.
  apply rbind_Ok in H as (totals & Ht & [= <-]).
  apply traverse_Forall2 in Ht.
  induction Ht as [|ds [xs ls] dss totals Hhd Htl IH]; cbn; constructor;
    [|done].
  unfold operand_total in Hhd.
  apply rbind_Ok in Hhd as (xs' & Hx & Hhd).
  apply rbind_Ok in Hhd as (ls' & Hl & [= <- <-]).
  by repeat split.
Qed.

Lemma filter_idxs_lt y ds :
  Forall (fun i => (i < length y)%nat) (filter_idxs y ds).
Proof.
  apply Forall_forall. intros i (d & Hd & _)%filter_idxs_spec.
  by eapply lookup_lt_Some.
Qed.

Lemma build_pools_total (X : list image) y dss :
  (length y <= length X)%nat -> exists pools, build_pools X y dss = Ok pools.
Proof.
  intros Hlen. unfold build_pools.
  enough (exists totals, traverse (operand_total X y) dss = Ok totals)
    as [totals ->] by (cbn; eauto).
  induction dss as [|ds dss [totals IH]]; cbn; [eauto|].
  unfold operand_total at 1.
  destruct (GenDataProps.take_rows_total X (filter_idxs y ds)) as [xs ->].
  { eapply Forall_impl; [apply filter_idxs_lt|]. cbn. lia. }
  destruct (GenDataProps.take_rows_total y (filter_idxs y ds)) as [ls ->];
    [apply filter_idxs_lt|].
  cbn. rewrite IH. cbn. eauto.
Qed.

Lemma take_rows_length {A} (a : list A) idxs rows :
  take_rows a idxs = Ok rows -> length rows = length idxs.
Proof. intros H%take_rows_Forall2. symmetry. by eapply Forall2_length. Qed.

(** What a pool holds at one position. *)
Lemma built_pool_lookup (X : list image) y ds p i :
  built_pool X y ds p -> (i < length (total_samples p))%nat ->
  exists img digit,
    total_samples p !! i = Some img /\ total_labels p !! i = Some digit /\
    digit ∈ ds.
Proof.
  intros (Hds & Hr & Hx & Hy) Hi.
  pose proof (take_rows_length _ _ _ Hx) as Lx.
  pose proof (take_rows_length _ _ _ Hy) as Ly.
  apply take_rows_Forall2 in Hx, Hy.
  destruct (lookup_lt_is_Some_2 (total_samples p) i Hi) as [img Himg].
  destruct (lookup_lt_is_Some_2 (total_labels p) i) as [digit Hdig]; [lia|].
  exists img, digit. repeat split; [done..|].
  destruct (Forall2_lookup_r _ _ _ _ _ Hy Hdig) as (k & Hk & Hyk).
  destruct (filter_idxs_spec y ds k) as (d & Hd & Hin);
    [by eapply list_elem_of_lookup_2|]. congruence.
Qed.

(** The concept block an operand over [ds] gets for the digit it drew
    (lines 224-246). *)
Definition block_of (ec : bool) (ds : list Z) (digit : Z) (cv : list Z)
  : Prop :=
  if (2 <? length ds)%nat then
    exists r, ds !! r = Some digit /\
      cv = if ec then [int_of_bool (Z.of_nat r mod 2 =? 0)]
           else (fun k => int_of_bool (k =? r)%nat) <$> seq 0 (length ds)
  else if ec then cv = [int_of_bool (digit mod 2 =? 0)]
  else exists m, np_max ds = Ok m /\ cv = [int_of_bool (digit =? m)].

(** One run of the operand loop body on a pool built for [ds]. *)
Lemma operand_step_built (X : list image) y ec ds p a g a' g' :
  built_pool X y ds p ->
  operand_step ec a p g = Ok (a', g') ->
  exists img digit cv,
    digit ∈ ds /\ block_of ec ds digit cv /\
    a' = {| operands := operands a ++ [img];
            concepts := concepts a ++ [cv];
            sample_label := sample_label a + digit;
            selected := selected a ++ [digit] |}.
Proof.
  intros Hp H. unfold operand_step in H.
  apply bind_Ok in H as (i & g1 & Hi & H). apply choice_lt in Hi.
  destruct (built_pool_lookup _ _ _ _ _ Hp Hi)
    as (img & digit & Himg & Hdig & Hin).
  destruct Hp as (Hds & Hr & _ & _).
  apply bind_Ok in H as (digit' & g2 & Hd & H).
  apply lift_Ok in Hd as [Hd%of_option_Ok ->].
  apply bind_Ok in H as (img' & g2 & Hm & H).
  apply lift_Ok in Hm as [Hm%of_option_Ok ->].
  assert (digit' = digit) as -> by congruence.
  assert (img' = img) as -> by congruence.
  apply bind_Ok in H as (cv & g2 & Hcv & H). apply lift_Ok in Hcv as [Hcv ->].
  apply ret_Ok in H as [-> _].
  exists img, digit, cv. repeat split; [done|].
  unfold block_of. rewrite Hds in Hcv.
  destruct (2 <? length ds)%nat.
  - apply rbind_Ok in Hcv as (r & Hrm%of_option_Ok & Hcv).
    rewrite Hr in Hrm. apply remap_of_lookup in Hrm.
    exists r. split; [done|]. destruct ec; [by injection Hcv as <-|].
    unfold one_hot in Hcv. destruct (r <? length ds)%nat; [|discriminate].
    by injection Hcv as <-.
  - destruct ec; [by injection Hcv as <-|].
    apply rbind_Ok in Hcv as (m & Hmax & [= <-]). eauto.
Qed.

(** The body cannot fail on a stocked pool, and fails with [ValueError] on
    an empty one. *)
Lemma operand_step_total (X : list image) y ec ds p a g :
  built_pool X y ds p -> stocked y ds ->
  exists a' g', operand_step ec a p g = Ok (a', g').
Proof.
  intros Hp Hs. pose proof Hp as (Hds & Hr & Hx & Hy).
  apply stocked_filter in Hs.
  pose proof (take_rows_length _ _ _ Hx) as Lx.
  destruct (choice_Ok (length (total_samples p)) g) as (i & g1 & Hc & Hi).
  { destruct (filter_idxs y ds); [done | cbn in Lx; lia]. }
  destruct (built_pool_lookup _ _ _ _ _ Hp Hi)
    as (img & digit & Himg & Hdig & Hin).
  unfold operand_step. rewrite (bind_intro _ _ _ _ _ Hc).
  rewrite (bind_lift_Ok _ digit) by (by rewrite Hdig).
  rewrite (bind_lift_Ok _ img) by (by rewrite Himg).
  rewrite Hds, Hr.
  assert (exists cv,
    (if (2 <? length ds)%nat
     then (let+ r := of_option KeyError (operand_remap ds !! digit) in
           if ec then Ok [int_of_bool (Z.of_nat r mod 2 =? 0)]
           else one_hot r (length ds))%res
     else if ec then Ok [int_of_bool (digit mod 2 =? 0)]
          else (let+ max_bound := np_max ds in
                Ok [int_of_bool (digit =? max_bound)])%res) = Ok cv)
    as [cv Hcv].
  { destruct (2 <? length ds)%nat.
    - destruct (remap_of_lookup ds digit) as [H1 H2].
      destruct (H1 Hin) as [r Hrm]. unfold operand_remap. rewrite Hrm.
      cbn [of_option rbind]. destruct ec; [eauto|]. unfold one_hot.
      pose proof (lookup_lt_Some _ _ _ (H2 _ Hrm)) as Hlt.
      apply Nat.ltb_lt in Hlt. rewrite Hlt. eauto.
    - destruct ec; [eauto|].
      destruct (np_max_Ok ds) as [m ->];
        [by intros ->; apply elem_of_nil in Hin|].
      cbn [rbind]. eauto. }
  rewrite (bind_lift_Ok _ cv) by done. unfold ret. eauto.
Qed.

Lemma operand_step_empty (X : list image) y ec ds p a g :
  built_pool X y ds p -> ~ stocked y ds ->
  operand_step ec a p g = Raise ValueError.
Proof.
  intros (Hds & Hr & Hx & Hy) Hs. rewrite stocked_filter in Hs.
  assert (filter_idxs y ds = []) as E by (by destruct (filter_idxs y ds); [|exfalso; apply Hs]).
  apply take_rows_length in Hx. rewrite E in Hx.
  unfold operand_step, bind, choice. by rewrite Hx.
Qed.

(** *** Loops that cannot fail, loops that must *)

Lemma for_fold_total {St A T} (body : T -> A -> ST St T) (P : A -> Prop) xs :
  (forall x t s, P x -> exists r, body t x s = Ok r) ->
  Forall P xs -> forall t s, exists r, for_fold body xs t s = Ok r.
Proof.
  intros Hbody. induction 1 as [|x xs Hx _ IH]; intros t s; cbn.
  - unfold ret. eauto.
  - destruct (Hbody x t s Hx) as [[t1 s1] H1].
    rewrite (bind_intro _ _ _ _ _ H1). apply IH.
Qed.

Lemma for_fold_Raise {St A T} (body : T -> A -> ST St T) (P : A -> Prop)
    good bad rest e :
  (forall x t s, P x -> exists r, body t x s = Ok r) ->
  Forall P good -> (forall t s, body t bad s = Raise e) ->
  forall t s, for_fold body (good ++ bad :: rest) t s = Raise e.
Proof.
  intros Hbody Hgood Hbad. induction Hgood as [|x xs Hx _ IH]; intros t s; cbn.
  - by apply bind_Raise.
  - destruct (Hbody x t s Hx) as [[t1 s1] H1].
    rewrite (bind_intro _ _ _ _ _ H1). apply IH.
Qed.

Lemma for_each_total {St A B} (body : A -> ST St B) xs :
  (forall x s, exists r, body x s = Ok r) ->
  forall s, exists bs s', for_each body xs s = Ok (bs, s').
Proof.
  intros Hbody. induction xs as [|x xs IH]; intros s; cbn.
  - unfold ret. eauto.
  - destruct (Hbody x s) as [[b s1] H1]. rewrite (bind_intro _ _ _ _ _ H1).
    destruct (IH s1) as (bs & s2 & H2). rewrite (bind_intro _ _ _ _ _ H2).
    unfold ret. eauto.
Qed.

Lemma for_each_length {St A B} (body : A -> ST St B) xs s bs s' :
  for_each body xs s = Ok (bs, s') -> length bs = length xs.
Proof.
  revert s bs. induction xs as [|x xs IH]; intros s bs H; cbn in H.
  - by apply ret_Ok in H as [-> _].
  - apply bind_Ok in H as (b & s1 & _ & H).
    apply bind_Ok in H as (bs' & s2 & H2 & H). apply ret_Ok in H as [-> ->].
    cbn. f_equal. by eapply IH.
Qed.

(** The first position of a list where a decidable property fails. *)
Lemma first_failure {A} (P : A -> Prop) `{!forall x, Decision (P x)} l :
  ~ Forall P l ->
  exists good bad rest, l = good ++ bad :: rest /\ Forall P good /\ ~ P bad.
Proof.
  induction l as [|x l IH]; intros Hn; [by destruct Hn|].
  destruct (decide (P x)) as [Hx|Hx].
  - destruct IH as (good & bad & rest & -> & Hg & Hb).
    { intros Hl. apply Hn. by constructor. }
    exists (x :: good), bad, rest. repeat split; [by constructor | done].
  - exists [], x, l. repeat split; [constructor | done].
Qed.

(** *** One sample, block by block *)

Lemma operand_loop_blocks (X : list image) y ec dss pools :
  Forall2 (built_pool X y) dss pools ->
  forall a g a' g',
  for_fold (operand_step ec) pools a g = Ok (a', g') ->
  exists imgs digits cvs,
    a' = {| operands := operands a ++ imgs;
            concepts := concepts a ++ cvs;
            sample_label := sample_label a + Zsum digits;
            selected := selected a ++ digits |} /\
    length imgs = length dss /\
    Forall3 (fun ds digit cv => digit ∈ ds /\ block_of ec ds digit cv)
            dss digits cvs.
Proof.
  induction 1 as [|ds p dss pools Hp _ IH]; intros a g a' g' H.
  - apply ret_Ok in H as [-> _]. exists [], [], [].
    rewrite !app_nil_r. unfold Zsum; cbn. rewrite Z.add_0_r.
    repeat split; [by destruct a | constructor].
  - cbn in H. apply bind_Ok in H as (a1 & g1 & Hstep & H).
    eapply operand_step_built in Hstep as (img & digit & cv & Hin & Hb & ->);
      [|done].
    apply IH in H as (imgs & digits & cvs & -> & Hlen & Hall). cbn.
    exists (img :: imgs), (digit :: digits), (cv :: cvs).
    rewrite <- !app_assoc. cbn. repeat split.
    + f_equal. unfold Zsum. cbn. lia.
    + by rewrite Hlen.
    + by constructor.
Qed.

(** What a sample is made of: one drawn digit and one concept block per
    operand. *)
Definition assembled (ec el : bool) (thr : option Z) (dss : list (list Z))
    (s : sample (image:=image)) : Prop :=
  exists cvs,
    s_concepts s = concat cvs /\
    s_label s = transform_label el thr (Zsum (s_selected s)) /\
    length (s_operands s) = length dss /\
    Forall3 (fun ds digit cv => digit ∈ ds /\ block_of ec ds digit cv)
            dss (s_selected s) cvs.

Lemma synth_sample_assembled (X : list image) y ec el thr dss pools g s g' :
  Forall2 (built_pool X y) dss pools ->
  synth_sample ec el thr pools g = Ok (s, g') ->
  dss <> [] /\ assembled ec el thr dss s.
Proof.
  intros Hpools H. unfold synth_sample in H.
  apply bind_Ok in H as (a & g1 & Hloop & H).
  eapply operand_loop_blocks in Hloop
    as (imgs & digits & cvs & -> & Hlen & Hall); [|done].
  cbn in H. destruct imgs as [|img imgs]; [discriminate|].
  apply ret_Ok in H as [-> _]. split.
  - intros ->. discriminate.
  - exists cvs. cbn. repeat split; done.
Qed.

Lemma synthesize_assembled (X : list image) y size n sd ec el thr g samples
    g' :
  synthesize X y size n sd ec el thr g = Ok (samples, g') ->
  exists dss,
    check_selected_digits n sd = Ok dss /\ dss <> [] /\
    samples <> [] /\ length samples = size /\
    Forall (assembled ec el thr dss) samples.
Proof.
  unfold synthesize. intros H.
  apply bind_Ok in H as (dss & g1 & Hc & H). apply lift_Ok in Hc as [Hc ->].
  apply bind_Ok in H as (pools & g2 & Hp & H). apply lift_Ok in Hp as [Hp ->].
  apply bind_Ok in H as (ss & g3 & Hs & H).
  destruct ss as [|s0 ss]; [discriminate|]. apply ret_Ok in H as [-> _].
  apply build_pools_built in Hp.
  pose proof (for_each_length _ _ _ _ _ Hs) as Hlen.
  rewrite length_seq in Hlen.
  assert (Forall (fun s => dss <> [] /\ assembled ec el thr dss s) (s0 :: ss))
    as Hall.
  { eapply for_each_Forall; [|exact Hs].
    cbn. intros _ s1 s2 s1' Hs1. by eapply synth_sample_assembled. }
  exists dss. repeat split; [done | | done | done |].
  - by inversion Hall as [|?? [? _]].
  - eapply Forall_impl; [exact Hall|]. by intros ? [_ ?].
Qed.

End WithImages.

(** *** What a returned bundle looks like *)

Lemma select_columns_rows {A} cols (rows rows' : list (list A)) :
  select_columns cols rows = Ok rows' ->
  Forall2 (fun r r' => length r' = length cols /\ forall v, v ∈ r' -> v ∈ r)
          rows rows'.
Proof.
  intros H%traverse_Forall2. eapply Forall2_impl; [exact H|]. cbn.
  intros r r' Hr. split; [by eapply take_rows_length|].
  apply take_rows_Forall2 in Hr. intros v [i Hi]%list_elem_of_lookup.
  destruct (Forall2_lookup_r _ _ _ _ _ Hr Hi) as (k & _ & Hk).
  by eapply list_elem_of_lookup_2.
Qed.

(** The parts of a call that returns. *)
Lemma produce_addition_set_Ok {image} finish (X : list image) y size n sd sc
    ec el thr ct g b g' :
  produce_addition_set finish X y size n sd sc ec el thr ct g = Ok (b, g') ->
  exists (samples : list (sample (image:=image))) dss cs,
    check_selected_digits n sd = Ok dss /\ dss <> [] /\
    samples <> [] /\ length samples = size /\
    Forall (assembled ec el thr dss) samples /\
    sum_train_labels b = s_label <$> samples /\
    match sc with
    | Some cols => select_columns cols (s_concepts <$> samples)
    | None => Ok (s_concepts <$> samples)
    end = Ok cs /\
    match ct with Some f => f cs | None => Ok cs end
    = Ok (sum_train_concepts b).
Proof.
  unfold produce_addition_set. intros H.
  apply bind_Ok in H as (samples & g1 & Hs & H).
  apply bind_Ok in H as (cs1 & g2 & H1 & H). apply lift_Ok in H1 as [H1 ->].
  apply bind_Ok in H as (cs2 & g3 & H2 & H). apply lift_Ok in H2 as [H2 ->].
  apply bind_Ok in H as (xs & g4 & Hx & H). apply ret_Ok in H as [-> _].
  apply synthesize_assembled in Hs as (dss & ? & ? & ? & ? & ?).
  exists samples, dss, cs1. cbn. by repeat split.
Qed.

(** A returned bundle is never empty: it has [dataset_size] labels and as
    many concept rows, [dataset_size] and [num_operands] are positive, and
    with [sample_concepts] every row has one entry per selected column. *)
Theorem bundle_sizes {image} finish (X : list image) y size n sd sc ec el thr
    g b g' :
  produce_addition_set finish X y size n sd sc ec el thr None g = Ok (b, g') ->
  (0 < size)%nat /\ (0 < n)%nat /\
  length (sum_train_labels b) = size /\
  length (sum_train_concepts b) = size /\
  forall cols, sc = Some cols ->
    Forall (fun row => length row = length cols) (sum_train_concepts b).
Proof.
  intros H. apply produce_addition_set_Ok in H
    as (samples & dss & cs & Hc & Hne & Hsne & Hlen & _ & Hl & Hcs & [= <-]).
  apply check_selected_digits_length in Hc.
  repeat split.
  - destruct samples; [done | cbn in Hlen; lia].
  - destruct dss; [done | cbn in Hc; lia].
  - by rewrite Hl, length_fmap.
  - destruct sc as [cols|].
    + apply select_columns_rows, Forall2_length in Hcs.
      by rewrite <- Hcs, length_fmap.
    + injection Hcs as <-. by rewrite length_fmap.
  - intros cols ->. apply select_columns_rows in Hcs.
    eapply Forall2_Forall_r; [exact Hcs|]. apply Forall_forall.
    by intros ? _ ? [? _].
Qed.

Lemma int_of_bool_binary b : int_of_bool b = 0 \/ int_of_bool b = 1.
Proof. destruct b; auto. Qed.

Lemma block_of_binary ec ds digit cv :
  block_of ec ds digit cv -> Forall (fun v => v = 0 \/ v = 1) cv.
Proof.
  unfold block_of. destruct (2 <? length ds)%nat.
  - intros (r & _ & ->). destruct ec.
    + constructor; [apply int_of_bool_binary | constructor].
    + apply Forall_fmap, Forall_forall. intros k _. apply int_of_bool_binary.
  - destruct ec.
    + intros ->. constructor; [apply int_of_bool_binary | constructor].
    + intros (m & _ & ->).
      constructor; [apply int_of_bool_binary | constructor].
Qed.

(** Every concept of a returned bundle is 0 or 1, in every mode, with or
    without a selection of columns. *)
Theorem concepts_are_binary {image} finish (X : list image) y size n sd sc ec
    el thr g b g' :
  produce_addition_set finish X y size n sd sc ec el thr None g = Ok (b, g') ->
  Forall (Forall (fun v => v = 0 \/ v = 1)) (sum_train_concepts b).
Proof.
  intros H. apply produce_addition_set_Ok in H
    as (samples & dss & cs & _ & _ & _ & _ & Hall & _ & Hcs & [= <-]).
  assert (Forall (Forall (fun v => v = 0 \/ v = 1)) (s_concepts <$> samples))
    as Hbin.
  { apply Forall_fmap. eapply Forall_impl; [exact Hall|]. cbn.
    intros s (cvs & -> & _ & _ & H3). apply Forall_concat.
    clear -H3. induction H3 as [|ds digit cv dss digits cvs [_ Hb] _ IH];
      constructor; [by eapply block_of_binary | done]. }
  destruct sc as [cols|]; [|by injection Hcs as <-].
  apply select_columns_rows in Hcs.
  apply Forall_forall. intros row' [i Hi]%list_elem_of_lookup.
  destruct (Forall2_lookup_r _ _ _ _ _ Hcs Hi) as (row & Hrow & _ & Hsub).
  pose proof (Forall_lookup_1 _ _ _ _ Hbin Hrow) as Hr.
  apply Forall_forall. intros v Hv.
  by apply (Forall_forall (fun v => v = 0 \/ v = 1) row), Hsub.
Qed.



(** *** When the synthesis returns *)

Lemma synth_sample_total {image} (X : list image) y ec el thr dss pools g :
  Forall2 (built_pool X y) dss pools -> dss <> [] -> Forall (stocked y) dss ->
  exists s g', synth_sample ec el thr pools g = Ok (s, g').
Proof.
  intros Hp Hne Hs. unfold synth_sample.
  destruct (for_fold_total (operand_step ec)
              (fun p => exists ds, built_pool X y ds p /\ stocked y ds) pools)
    with (t := @MkAcc image [] [] 0 []) (s := g) as [[a g1] Hloop].
  - intros p a g0 (ds & Hb & Hst).
    destruct (operand_step_total X y ec ds p a g0 Hb Hst) as (a' & g' & ->).
    eauto.
  - clear Hne. induction Hp as [|ds p dss pools Hb _ IH]; [constructor|].
    inversion Hs; subst. constructor; [by exists ds | by apply IH].
  - rewrite (bind_intro _ _ _ _ _ Hloop).
    eapply operand_loop_blocks in Hloop
      as (imgs & digits & cvs & -> & Hlen & _); [|done].
    cbn. destruct imgs; [by destruct dss | unfold ret; eauto].
Qed.

Lemma synth_sample_unstocked {image} (X : list image) y ec el thr dss pools g :
  Forall2 (built_pool X y) dss pools -> ~ Forall (stocked y) dss ->
  synth_sample ec el thr pools g = Raise ValueError.
Proof.
  intros Hp Hs. unfold synth_sample. apply bind_Raise.
  destruct (first_failure (stocked y) dss Hs)
    as (good & bad & rest & -> & Hgood & Hbad).
  apply Forall2_app_inv_l in Hp as (pgood & prest & Hpg & Hpr & ->).
  inversion Hpr as [|?? pbad ? Hb _]; subst.
  apply (for_fold_Raise (operand_step ec)
           (fun p => exists ds, built_pool X y ds p /\ stocked y ds)).
  - intros p a g0 (ds & Hb' & Hst).
    destruct (operand_step_total X y ec ds p a g0 Hb' Hst) as (a' & g' & ->).
    eauto.
  - clear -Hpg Hgood. induction Hpg as [|ds p dss pools Hb _ IH];
      [constructor|].
    inversion Hgood; subst. constructor; [by exists ds | by apply IH].
  - intros a g0. by eapply operand_step_empty.
Qed.

(** With one image per label, no column selection, no concept transform and
    a pixel stage that does not fail, the call returns exactly when
    [dataset_size] and [num_operands] are positive and every operand finds
    one of its allowed digits among the labels; in every other case it raises
    [ValueError]. *)
Theorem synthesis_outcome {image} finish (X : list image) y size n sd ec el
    thr g dss :
  check_selected_digits n sd = Ok dss ->
  (length y <= length X)%nat ->
  (forall imgs g0, exists r, finish imgs g0 = Ok r) ->
  ((0 < size)%nat /\ (0 < n)%nat /\ Forall (stocked y) dss ->
   exists b g',
     produce_addition_set finish X y size n sd None ec el thr None g
     = Ok (b, g')) /\
  (~ ((0 < size)%nat /\ (0 < n)%nat /\ Forall (stocked y) dss) ->
   produce_addition_set finish X y size n sd None ec el thr None g
   = Raise ValueError).
Proof.
  intros Hc Hlen Hfin.
  pose proof (check_selected_digits_length _ _ _ Hc) as Hn.
  destruct (build_pools_total X y dss Hlen) as [pools Hp].
  pose proof (build_pools_built _ _ _ _ Hp) as Hb.
  unfold produce_addition_set, synthesize.
  split.
  - intros (Hsize & Hpos & Hst).
    assert (dss <> []) as Hne by (intros ->; cbn in Hn; lia).
    destruct (for_each_total
                (fun _ : nat => synth_sample ec el thr pools)
                (seq 0 size)) with (s := g) as (samples & g1 & Hs).
    { intros _ g0. destruct (synth_sample_total X y ec el thr dss pools g0)
        as (s & g0' & ?); eauto. }
    pose proof (for_each_length _ _ _ _ _ Hs) as Hl.
    rewrite length_seq in Hl.
    destruct (Hfin (s_operands <$> samples) g1) as [[xs g2] Hx].
    eexists _, g2.
    rewrite (bind_intro _ _ g samples g1).
    + rewrite (bind_lift_Ok _ (s_concepts <$> samples)) by done.
      rewrite (bind_lift_Ok _ (s_concepts <$> samples)) by done.
      rewrite (bind_intro _ _ _ _ _ Hx). done.
    + rewrite (bind_lift_Ok _ dss) by done.
      rewrite (bind_lift_Ok _ pools) by done.
      rewrite (bind_intro _ _ _ _ _ Hs).
      destruct samples; [cbn in Hl; lia | done].
  - intros Hnot. apply bind_Raise.
    rewrite (bind_lift_Ok _ dss) by done.
    rewrite (bind_lift_Ok _ pools) by done.
    destruct size as [|size].
    { done. }
    apply bind_Raise. cbn [seq for_each]. apply bind_Raise.
    destruct (decide (Forall (stocked y) dss)) as [Hst|Hst].
    + assert (dss = []) as ->.
      { destruct dss; [done|]. exfalso. apply Hnot. cbn in Hn. 
        repeat split; [lia | lia | done]. }
      inversion Hb; subst. done.
    + by eapply synth_sample_unstocked.
Qed.

End SynthesisProps.

Module SynthesisExamples.

Import Addition AdditionProps SynthesisProps Demo.

Lemma bundle_sizes_witness :
  exists b g',
    produce_addition_set finish0 X0 y0 3 2 (DigitList [0; 1; 2])
                         (Some [0; 4]%nat) false false None None rng0
    = Ok (b, g') /\
    sum_train_concepts b = [[0; 0]; [0; 0]; [0; 1]] /\
    (0 < 3)%nat /\ (0 < 2)%nat /\
    length (sum_train_labels b) = 3%nat /\
    length (sum_train_concepts b) = 3%nat /\
    forall cols, Some [0; 4]%nat = Some cols ->
      Forall (fun row => length row = length cols) (sum_train_concepts b).
Proof.
  eexists _, _. split; [vm_compute; reflexivity|]. split; [reflexivity|].
  apply (bundle_sizes finish0 X0 y0 3 2 (DigitList [0; 1; 2])
           (Some [0; 4]%nat) false false None rng0 _ (MkRng (raw rng0) 6)).
  reflexivity.
Defined.

Lemma concepts_are_binary_witness :
  exists b g',
    produce_addition_set finish0 X0 y0 3 2 (DigitList [0; 1; 2]) None false
                         false None None rng0 = Ok (b, g') /\
    Forall (Forall (fun v => v = 0 \/ v = 1)) (sum_train_concepts b).
Proof.
  eexists _, _. split; [vm_compute; reflexivity|].
  apply (concepts_are_binary finish0 X0 y0 3 2 (DigitList [0; 1; 2]) None
           false false None rng0 _ (MkRng (raw rng0) 6)).
  reflexivity.
Defined.


Lemma synthesis_outcome_witness :
  (((0 < 3)%nat /\ (0 < 2)%nat /\
    Forall (stocked y0) [[0; 1; 2]; [7]]) ->
   exists b g',
     produce_addition_set finish0 X0 y0 3 2 (DigitLists [[0; 1; 2]; [7]])
                          None false false None None rng0 = Ok (b, g')) /\
  (~ ((0 < 3)%nat /\ (0 < 2)%nat /\
      Forall (stocked y0) [[0; 1; 2]; [7]]) ->
   produce_addition_set finish0 X0 y0 3 2 (DigitLists [[0; 1; 2]; [7]])
                        None false false None None rng0
   = Raise ValueError).
Proof.
  apply (synthesis_outcome finish0 X0 y0 3 2 (DigitLists [[0; 1; 2]; [7]])
           false false None rng0 [[0; 1; 2]; [7]]).
  - reflexivity.
  - vm_compute. lia.
  - intros imgs g0. eexists. reflexivity.
Defined.

(** No image of the corpus shows a 7: the call above raises. *)
Example unstocked_digit_run :
  produce_addition_set finish0 X0 y0 3 2 (DigitLists [[0; 1; 2]; [7]])
                       None false false None None rng0
  = Raise ValueError.
Proof. vm_compute. reflexivity. Qed.

End SynthesisExamples.

(** ** The metadata of [generate_data] against the data of
       [produce_addition_set] *)

Module MetadataProps.

Import Addition AdditionProps GenData SynthesisProps.

Lemma enumerate_values {A} (l : list A) : (enumerate l).*2 = l.
Proof.
  induction l as [|x l IH] using rev_ind; [done|].
  by rewrite SemiSupProps.enumerate_snoc, fmap_app, IH.
Qed.

(** What the loop of lines 533-537 adds up: the widths of the operands and
    the largest digit of each. *)
Lemma layout_loop_counts ods : forall nc cgm nt nc' cgm' nt',
  layout_loop (nc, cgm, nt) ods = Ok (nc', cgm', nt') ->
  nc' = (nc + sum_list (operand_width false <$> ods.*2))%nat /\
  exists ms, Forall2 (fun ds m => np_max ds = Ok m) ods.*2 ms /\
             nt' = nt + Zsum ms.
Proof.
  induction ods as [|[k ds] ods IH]; intros nc cgm nt nc' cgm' nt' H.
  - injection H as <- <- <-. split; [cbn; lia|].
    exists []. split; [constructor | unfold Zsum; cbn; lia].
  - cbn [layout_loop] in H.
    apply rbind_Ok in H as ([[nc1 cgm1] nt1] & Hstep & H).
    unfold layout_step in Hstep.
    apply rbind_Ok in Hstep as (m & Hm & [= <- <- <-]).
    apply IH in H as [-> (ms & Hms & ->)]. split.
    + assert (operand_width false ds
              = if (2 <? length ds)%nat then length ds else 1%nat) as Hw.
      { unfold operand_width.
        destruct (Nat.ltb_spec 2 (length ds)), (Nat.leb_spec (length ds) 2);
          lia. }
      cbn -[operand_width Nat.ltb]. rewrite Hw. lia.
    + exists (m :: ms). split; [by constructor|]. unfold Zsum. cbn. lia.
Qed.


Lemma initial_layout_width ec el thr n dss lay :
  initial_layout ec el thr n dss = Ok lay -> length dss = n ->
  num_concepts lay = sum_list (operand_width ec <$> dss).
Proof.
  unfold initial_layout. intros H Hn.
  apply rbind_Ok in H as (lay0 & Hl & H).
  assert (num_concepts lay = num_concepts lay0) as ->.
  { destruct (_ || _); by injection H as <-. }
  destruct ec.
  - injection Hl as <-. cbn. subst n. clear.
    induction dss as [|ds dss IH]; [done|]. cbn. by rewrite <- IH.
  - apply rbind_Ok in Hl as ([[nc cgm] nt] & Hloop & [= <-]).
    apply layout_loop_counts in Hloop as [-> _].
    by rewrite enumerate_values.
Qed.

Lemma check_digit_lists n dss dss' :
  check_selected_digits n (DigitLists dss) = Ok dss' ->
  dss' = dss /\ length dss = n.
Proof.
  intros H. pose proof (check_selected_digits_length _ _ _ H) as Hlen.
  destruct dss as [|ds dss]; [discriminate|]. cbn in H.
  destruct (negb _); [discriminate|]. by injection H as <-.
Qed.

(** The number of concepts that [generate_data] reports (before any
    subsampling) is the width of every concept vector that
    [produce_addition_set] builds from the same operand digits, in the
    same [even_concepts] mode. *)
Theorem num_concepts_is_concept_width {image} finish (X : list image) y size
    n dss ec el thr el' thr' g b g' lay :
  initial_layout ec el thr n dss = Ok lay ->
  produce_addition_set finish X y size n (DigitLists dss) None ec el' thr'
                       None g = Ok (b, g') ->
  Forall (fun row => length row = num_concepts lay) (sum_train_concepts b).
Proof.
  intros Hlay H.
  apply produce_addition_set_samples in H as (samples & g1 & Hs & _ & Hc).
  rewrite Hc by done.
  apply synthesize_spec in Hs as (dss' & [-> Hn]%check_digit_lists & Hall).
  rewrite (initial_layout_width _ _ _ _ _ _ Hlay Hn).
  apply Forall_fmap. eapply Forall_impl; [exact Hall|]. by intros s (_ & ? & _).
Qed.




End MetadataProps.

Module MetadataExamples.

Import Addition AdditionProps GenData MetadataProps Demo.

Lemma num_concepts_is_concept_width_witness :
  exists b g',
    produce_addition_set finish0 X0 y0 2 3 (DigitLists digits3) None false
                         false None None rng0 = Ok (b, g') /\
    Forall (fun row => length row = num_concepts layout3)
           (sum_train_concepts b).
Proof.
  eexists _, _. split; [vm_compute; reflexivity|].
  apply (num_concepts_is_concept_width finish0 X0 y0 2 3 digits3 false false
           None false None rng0 _ (MkRng (raw rng0) 6) layout3).
  - reflexivity.
  - reflexivity.
Defined.


End MetadataExamples.

(** ** [inject_uncertainty]: what is passed through, and what a call needs *)

Module BatchProps.

Import Uncertainty UncertaintyProps.

(** *** One batch *)

(** What one turn of the loop over batches did: the positions of the batch,
    the rows the loader collated for them and the image and concept buffers
    after the perturbation. *)
Record batch_run : Type := MkRun {
  br_batch : list nat;
  br_x : images;
  br_y : list Z;
  br_c : concept_matrix;
  br_x_new : images;
  br_c_new : concept_matrix
}.

Definition ran (w : Q) (mixing threshold : bool) (x : images) (y : list Z)
    (c : concept_matrix) (r : batch_run) : Prop :=
  take_rows x (br_batch r) = Ok (br_x r) /\
  take_rows y (br_batch r) = Ok (br_y r) /\
  take_rows c (br_batch r) = Ok (br_c r) /\
  exists g1 g2,
    perturb_batch w mixing threshold (br_x r) (br_c r) g1
    = Ok ((br_x_new r, br_c_new r), g2).

Lemma batch_step_full ds w mixing threshold xs ys cs batch m g acc' m' g' :
  batch_step ds w mixing threshold (xs, ys, cs) batch (m, g)
    = Ok (acc', (m', g')) ->
  exists x y c r,
    m !! ds_x ds = Some (TImages x) /\ m !! ds_y ds = Some (TLabels y) /\
    m !! ds_c ds = Some (TConcepts c) /\
    br_batch r = batch /\ ran w mixing threshold x y c r /\
    m' = m ++ [TImages (br_x_new r); TLabels (br_y r); TConcepts (br_c_new r)]
    /\
    acc' = (xs ++ [length m], ys ++ [S (length m)], cs ++ [S (S (length m))]).
Proof.
  unfold batch_step, next_batch. intros H.
  apply bind_Ok in H as ([[lx ly] lc] & [m1 g1] & Hnb & H).
  apply bind_Ok in Hnb as (x & [ma ga] & Hx & Hnb).
  apply read_images_Ok in Hx as (Hx & -> & ->).
  apply bind_Ok in Hnb as (y & [ma ga] & Hy & Hnb).
  apply read_labels_Ok in Hy as (Hy & -> & ->).
  apply bind_Ok in Hnb as (c & [ma ga] & Hc & Hnb).
  apply read_concepts_Ok in Hc as (Hc & -> & ->).
  apply bind_Ok in Hnb as (xb & [ma ga] & Hxb & Hnb).
  apply rows_of_Ok in Hxb as [Hxb [= -> ->]].
  apply bind_Ok in Hnb as (yb & [ma ga] & Hyb & Hnb).
  apply rows_of_Ok in Hyb as [Hyb [= -> ->]].
  apply bind_Ok in Hnb as (cb & [ma ga] & Hcb & Hnb).
  apply rows_of_Ok in Hcb as [Hcb [= -> ->]].
  apply bind_Ok in Hnb as (lx' & [ma ga] & Hlx & Hnb).
  apply alloc_Ok in Hlx as (-> & -> & ->).
  apply bind_Ok in Hnb as (ly' & [ma ga] & Hly & Hnb).
  apply alloc_Ok in Hly as (-> & -> & ->).
  apply bind_Ok in Hnb as (lc' & [ma ga] & Hlc & Hnb).
  apply alloc_Ok in Hlc as (-> & -> & ->).
  apply ret_Ok in Hnb as [[= -> -> ->] [= -> ->]].
  rewrite !length_app in *. cbn [length] in *.
  replace (length m + 1)%nat with (S (length m)) in * by lia.
  replace (S (length m) + 1)%nat with (S (S (length m))) in * by lia.
  rewrite <- !app_assoc in H. cbn [app] in H.
  apply bind_Ok in H as (x1 & [ma ga] & Hx1 & H).
  apply read_images_Ok in Hx1 as (Hx1 & -> & ->).
  rewrite list_lookup_middle in Hx1 by done. injection Hx1 as <-.
  apply bind_Ok in H as (c1 & [ma ga] & Hc1 & H).
  apply read_concepts_Ok in Hc1 as (Hc1 & -> & ->).
  rewrite lookup_app_r in Hc1 by lia.
  replace (S (S (length m)) - length m)%nat with 2%nat in Hc1 by lia.
  injection Hc1 as <-.
  apply bind_Ok in H as ([x_new c_new] & [ma ga] & Hp & H).
  apply with_rng_Ok in Hp as [Hp ->].
  apply bind_Ok in H as (u1 & [mb gb] & Hw1 & H).
  apply write_Ok in Hw1 as (_ & -> & ->).
  apply bind_Ok in H as (u2 & [mc gc] & Hw2 & H).
  apply write_Ok in Hw2 as (_ & -> & ->).
  apply ret_Ok in H as [-> [= -> ->]].
  exists x, y, c, (MkRun batch xb yb cb x_new c_new). cbn.
  repeat split; try done; [by eexists _, _|].
  rewrite insert_app_r_alt by lia. rewrite Nat.sub_diag. cbn.
  rewrite insert_app_r_alt by lia.
  replace (S (S (length m)) - length m)%nat with 2%nat by lia. done.
Qed.

(** *** One loader *)

Lemma read_each_images_values ls m g vs m' g' :
  for_each read_images ls (m, g) = Ok (vs, (m', g')) ->
  Forall2 (fun l v => m !! l = Some (TImages v)) ls vs.
Proof.
  revert vs m' g'. induction ls as [|l ls IH]; intros vs m' g' H; cbn in H.
  - apply ret_Ok in H as [-> _]. constructor.
  - apply bind_Ok in H as (v & [m1 g1] & Hv & H).
    apply read_images_Ok in Hv as (Hv & -> & ->).
    apply bind_Ok in H as (vs' & [m2 g2] & Hvs & H).
    apply IH in Hvs. apply ret_Ok in H as [-> _]. by constructor.
Qed.

Lemma read_each_labels_values ls m g vs m' g' :
  for_each read_labels ls (m, g) = Ok (vs, (m', g')) ->
  Forall2 (fun l v => m !! l = Some (TLabels v)) ls vs.
Proof.
  revert vs m' g'. induction ls as [|l ls IH]; intros vs m' g' H; cbn in H.
  - apply ret_Ok in H as [-> _]. constructor.
  - apply bind_Ok in H as (v & [m1 g1] & Hv & H).
    apply read_labels_Ok in Hv as (Hv & -> & ->).
    apply bind_Ok in H as (vs' & [m2 g2] & Hvs & H).
    apply IH in Hvs. apply ret_Ok in H as [-> _]. by constructor.
Qed.

Lemma Forall2_lookup_values {A B} (f : B -> tensor) (proj : A -> B)
    (m : store) (runs : list A) ls vs :
  (forall a b, f a = f b -> a = b) ->
  Forall2 (fun r l => m !! l = Some (f (proj r))) runs ls ->
  Forall2 (fun l v => m !! l = Some (f v)) ls vs ->
  vs = proj <$> runs.
Proof.
  intros Hinj H1 H2. revert vs H2.
  induction H1 as [|r l runs ls Hr _ IH]; intros vs H2.
  - by inversion H2.
  - inversion H2 as [|? v ? vs' Hv Hvs]; subst. cbn. f_equal.
    + apply Hinj. congruence.
    + by apply IH.
Qed.

Lemma make_loader_checks ds b n ld :
  make_loader ds b n = Ok ld -> dataset ld = ds /\ 0 < b /\ 0 <= n.
Proof.
  unfold make_loader. destruct (Z.ltb_spec n 0); [done|].
  destruct b; try done. intros [= <-]. cbn. repeat split; lia.
Qed.

(** A loader that [inject_one] gets through: the batches it went over are
    the consecutive runs of positions of the dataset, there is at least one,
    and the returned dataset holds the perturbed images, the labels and the
    perturbed concepts of all batches, in order. *)
Lemma inject_one_runs w bs nw mixing threshold ld m g out m' g' :
  inject_one w bs nw mixing threshold ld (m, g) = Ok (out, (m', g')) ->
  exists x y c runs ext,
    m !! ds_x (dataset ld) = Some (TImages x) /\
    m !! ds_y (dataset ld) = Some (TLabels y) /\
    m !! ds_c (dataset ld) = Some (TConcepts c) /\
    br_batch <$> runs = chunks (batch_size ld) (seq 0 (length x)) /\
    Forall (ran w mixing threshold x y c) runs /\
    runs <> [] /\ m' = m ++ ext /\
    m' !! ds_x (dataset out) = Some (TImages (concat (br_x_new <$> runs))) /\
    m' !! ds_y (dataset out) = Some (TLabels (concat (br_y <$> runs))) /\
    m' !! ds_c (dataset out) = Some (TConcepts (concat (br_c_new <$> runs))) /\
    0 < bs /\ 0 <= nw.
Proof.
  unfold inject_one, dataset_len. intros H.
  apply bind_Ok in H as (n & [m0 g0] & Hn & H).
  apply bind_Ok in Hn as (x & [ma ga] & Hx & Hn).
  apply read_images_Ok in Hx as (Hx & -> & ->).
  apply ret_Ok in Hn as [-> [= -> ->]].
  apply bind_Ok in H as ([[xs ys] cs] & [m1 g1] & Hloop & H).
  pose (P := fun (done_ : list (list nat))
                 (acc : list loc * list loc * list loc) (s : world) =>
          exists ext runs, s.1 = m ++ ext /\ br_batch <$> runs = done_ /\
            (forall y c, m !! ds_y (dataset ld) = Some (TLabels y) ->
                         m !! ds_c (dataset ld) = Some (TConcepts c) ->
                         Forall (ran w mixing threshold x y c) runs) /\
            (runs = [] -> ext = []) /\
            (runs <> [] -> exists y c,
                m !! ds_y (dataset ld) = Some (TLabels y) /\
                m !! ds_c (dataset ld) = Some (TConcepts c)) /\
            Forall2 (fun r l => s.1 !! l = Some (TImages (br_x_new r)))
                    runs acc.1.1 /\
            Forall2 (fun r l => s.1 !! l = Some (TLabels (br_y r)))
                    runs acc.1.2 /\
            Forall2 (fun r l => s.1 !! l = Some (TConcepts (br_c_new r)))
                    runs acc.2).
  assert (P (chunks (batch_size ld) (seq 0 (length x))) (xs, ys, cs) (m1, g1))
    as (ext1 & runs & Hext1 & Hb & Hran & _ & Hyc & Hxs & Hys & Hcs).
  { eapply (for_fold_list _ P); [| |exact Hloop].
    - intros done_ batch rest [[xs1 ys1] cs1] [s gs] acc' [s' gs'] _
             (ext & runs & Hs & Hb & Hran & Hnil & Hyc & Hxs & Hys & Hcs)
             Hstep.
      cbn in Hs, Hxs, Hys, Hcs. subst s.
      apply batch_step_full in Hstep
        as (x1 & y1 & c1 & r & Hx1 & Hy1 & Hc1 & Hbr & Hr & -> & ->).
      assert (x1 = x) as ->.
      { apply (lookup_app_l_Some _ ext) in Hx. congruence. }
      exists (ext ++ [TImages (br_x_new r); TLabels (br_y r);
                      TConcepts (br_c_new r)]), (runs ++ [r]). cbn.
      split; [by rewrite app_assoc|].
      split; [rewrite fmap_app, Hb; cbn; by rewrite Hbr|].
      assert (forall y c, m !! ds_y (dataset ld) = Some (TLabels y) ->
                          m !! ds_c (dataset ld) = Some (TConcepts c) ->
                          y1 = y /\ c1 = c) as Heq.
      { intros y c Hy Hc.
        apply (lookup_app_l_Some _ ext) in Hy, Hc. split; congruence. }
      split; [|split; [|split; [|split; [|split]]]].
      + intros y c Hy Hc. destruct (Heq y c Hy Hc) as [-> ->].
        apply Forall_app. split; [by apply Hran|].
        constructor; [exact Hr | constructor].
      + intros [_ [=]]%app_eq_nil.
      + intros _. destruct runs as [|r0 runs].
        * rewrite (Hnil eq_refl), app_nil_r in Hy1, Hc1. eauto.
        * by apply Hyc.
      + apply Forall2_app.
        * eapply Forall2_impl; [exact Hxs|]. cbn. intros ???.
          by apply lookup_app_l_Some.
        * repeat constructor. by rewrite list_lookup_middle.
      + apply Forall2_app.
        * eapply Forall2_impl; [exact Hys|]. cbn. intros ???.
          by apply lookup_app_l_Some.
        * repeat constructor. rewrite lookup_app_r by lia.
          by replace (S (length (m ++ ext)) - length (m ++ ext))%nat
            with 1%nat by lia.
      + apply Forall2_app.
        * eapply Forall2_impl; [exact Hcs|]. cbn. intros ???.
          by apply lookup_app_l_Some.
        * repeat constructor. rewrite lookup_app_r by lia.
          by replace (S (S (length (m ++ ext))) - length (m ++ ext))%nat
            with 2%nat by lia.
    - exists [], []. cbn. rewrite app_nil_r.
      repeat split; try done; constructor. }
  cbn in Hext1, Hxs, Hys, Hcs. subst m1.
  apply bind_Ok in H as (xvs & [ma ga] & Hrx & H).
  pose proof (read_each_images_values _ _ _ _ _ _ Hrx) as Hxv.
  apply read_each_images in Hrx as [-> ->].
  apply bind_Ok in H as (xcat & [ma ga] & Hxc & H).
  apply lift_Ok in Hxc as [Hxc [= -> ->]].
  apply bind_Ok in H as (yvs & [ma ga] & Hry & H).
  pose proof (read_each_labels_values _ _ _ _ _ _ Hry) as Hyv.
  apply read_each_labels in Hry as [-> ->].
  apply bind_Ok in H as (ycat & [ma ga] & Hyc' & H).
  apply lift_Ok in Hyc' as [Hyc' [= -> ->]].
  apply bind_Ok in H as (cvs & [ma ga] & Hrc & H).
  apply read_each_concepts in Hrc as (Hcv & -> & ->).
  apply bind_Ok in H as (ccat & [ma ga] & Hcc & H).
  apply lift_Ok in Hcc as [Hcc [= -> ->]].
  apply bind_Ok in H as (lx & [ma ga] & Hlx & H).
  apply alloc_Ok in Hlx as (-> & -> & ->).
  apply bind_Ok in H as (ly & [ma ga] & Hly & H).
  apply alloc_Ok in Hly as (-> & -> & ->).
  apply bind_Ok in H as (lc & [ma ga] & Hlc & H).
  apply alloc_Ok in Hlc as (-> & -> & ->).
  apply lift_Ok in H as [Hout [= -> ->]].
  apply make_loader_checks in Hout as (Hout & Hbs & Hnw). rewrite Hout. cbn.
  assert (xvs = br_x_new <$> runs) as ->
    by (eapply (Forall2_lookup_values TImages); [by intros ?? [=] | done..]).
  assert (yvs = br_y <$> runs) as ->
    by (eapply (Forall2_lookup_values TLabels); [by intros ?? [=] | done..]).
  assert (cvs = br_c_new <$> runs) as ->
    by (eapply (Forall2_lookup_values TConcepts); [by intros ?? [=] | done..]).
  assert (runs <> []) as Hne by (intros ->; discriminate).
  apply concatenate_Ok in Hxc, Hyc', Hcc. subst xcat ycat ccat.
  destruct (Hyc Hne) as (y & c & Hy & Hc).
  exists x, y, c, runs,
    (ext1 ++ [TImages (concat (br_x_new <$> runs));
              TLabels (concat (br_y <$> runs));
              TConcepts (concat (br_c_new <$> runs))]).
  set (t1 := TImages (concat (br_x_new <$> runs))).
  set (t2 := TLabels (concat (br_y <$> runs))).
  set (t3 := TConcepts (concat (br_c_new <$> runs))).
  rewrite <- !app_assoc. cbn [app].
  repeat split; try done.
  - by apply Hran.
  - rewrite app_assoc. by rewrite list_lookup_middle.
  - assert (length (m ++ ext1 ++ [t1]) = (length (m ++ ext1) + 1)%nat) as ->
      by (rewrite !length_app; cbn; lia).
    rewrite app_assoc, lookup_app_r by lia.
    by replace (_ - _)%nat with 1%nat by lia.
  - assert (length (m ++ ext1 ++ [t1; t2]) = (length (m ++ ext1) + 2)%nat)
      as -> by (rewrite !length_app; cbn; lia).
    rewrite app_assoc, lookup_app_r by lia.
    by replace (_ - _)%nat with 2%nat by lia.
Qed.

(** *** All loaders *)

(** An input loader and the loader returned for it, in the store after the
    call. *)
Definition processed (w : Q) (mixing threshold : bool) (m' : store)
    (ld out : data_loader) : Prop :=
  exists x y c runs,
    m' !! ds_x (dataset ld) = Some (TImages x) /\
    m' !! ds_y (dataset ld) = Some (TLabels y) /\
    m' !! ds_c (dataset ld) = Some (TConcepts c) /\
    br_batch <$> runs = chunks (batch_size ld) (seq 0 (length x)) /\
    Forall (ran w mixing threshold x y c) runs /\ runs <> [] /\
    m' !! ds_x (dataset out) = Some (TImages (concat (br_x_new <$> runs))) /\
    m' !! ds_y (dataset out) = Some (TLabels (concat (br_y <$> runs))) /\
    m' !! ds_c (dataset out) = Some (TConcepts (concat (br_c_new <$> runs))).

Lemma processed_grow w mixing threshold m ext ld out :
  processed w mixing threshold m ld out ->
  processed w mixing threshold (m ++ ext) ld out.
Proof.
  intros (x & y & c & runs & ? & ? & ? & ? & ? & ? & ? & ? & ?).
  exists x, y, c, runs. repeat split; try done; by apply lookup_app_l_Some.
Qed.

Lemma inject_each_runs w bs nw mixing threshold lds m g outs m' g' :
  for_each (inject_one w bs nw mixing threshold) lds (m, g)
    = Ok (outs, (m', g')) ->
  (exists ext, m' = m ++ ext) /\
  Forall2 (processed w mixing threshold m') lds outs /\
  (lds <> [] -> 0 < bs /\ 0 <= nw).
Proof.
  revert m g outs. induction lds as [|ld lds IH]; intros m g outs H; cbn in H.
  - apply ret_Ok in H as [-> [= -> ->]].
    split; [exists []; by rewrite app_nil_r|]. split; [constructor | done].
  - apply bind_Ok in H as (out & [m1 g1] & Hone & H).
    apply bind_Ok in H as (outs' & [m2 g2] & Hrest & H).
    apply ret_Ok in H as [-> [= -> ->]].
    apply inject_one_runs in Hone
      as (x & y & c & runs & ext1 & Hx & Hy & Hc & Hb & Hran & Hne & -> &
          Hox & Hoy & Hoc & Hbs & Hnw).
    apply IH in Hrest as ([ext2 ->] & Hall & _).
    split; [exists (ext1 ++ ext2); by rewrite app_assoc|].
    split; [|done]. constructor; [|done].
    exists x, y, c, runs.
    repeat split; try done; try (by apply lookup_app_l_Some);
      by do 2 apply lookup_app_l_Some.
Qed.

Lemma inject_uncertainty_runs seed datasets w bs nw mixing threshold m g outs
    m' g' :
  inject_uncertainty seed datasets w bs nw mixing threshold (m, g)
    = Ok (outs, (m', g')) ->
  (exists ext, m' = m ++ ext) /\
  Forall2 (processed w mixing threshold m') datasets outs /\
  (datasets <> [] -> 0 < bs /\ 0 <= nw).
Proof.
  unfold inject_uncertainty. intros H.
  apply bind_Ok in H as (u & [m0 g0] & Hseed & H).
  cbn in Hseed. injection Hseed as _ <- <-.
  by apply inject_each_runs in H.
Qed.

(** *** Batches as runs of rows *)

Lemma take_rows_seq {A} (c : list A) a n :
  (a + n <= length c)%nat -> take_rows c (seq a n) = Ok (take n (drop a c)).
Proof.
  intros H. unfold take_rows.
  enough (mapM (fun i => c !! i) (seq a n) = Some (take n (drop a c))) as ->
    by done.
  apply mapM_Some. revert a H. induction n as [|n IH]; intros a H; cbn.
  - rewrite take_0. constructor.
  - destruct (lookup_lt_is_Some_2 c a) as [v Hv]; [lia|].
    rewrite (drop_S _ _ _ Hv). cbn. constructor; [done|]. apply IH. lia.
Qed.

Lemma chunks_fuel_rows {A} (c : list A) k fuel : forall a len,
  (len = 0 \/ a + len <= length c)%nat ->
  Forall2 (fun batch cb => take_rows c batch = Ok cb)
          (chunks_fuel fuel k (seq a len))
          (chunks_fuel fuel k (take len (drop a c))).
Proof.
  induction fuel as [|fuel IH]; intros a len H.
  - destruct len; cbn.
    + rewrite take_0. constructor.
    + destruct (lookup_lt_is_Some_2 c a) as [v Hv]; [lia|].
      rewrite (drop_S _ _ _ Hv). cbn. constructor.
  - destruct len as [|len].
    { cbn. rewrite take_0. constructor. }
    destruct (lookup_lt_is_Some_2 c a) as [v Hv]; [lia|].
    assert (seq a (S len) = a :: seq (S a) len) as Hs by done.
    assert (take (S len) (drop a c) = v :: take len (drop (S a) c)) as Ht
      by (by rewrite (drop_S _ _ _ Hv)).
    rewrite Hs at 1. rewrite Ht at 1. cbn [chunks_fuel].
    rewrite <- Hs, <- Ht. constructor.
    + rewrite take_seq, take_take.
      apply take_rows_seq. lia.
    + rewrite drop_seq, skipn_firstn_comm, drop_drop.
      apply IH. lia.
Qed.

(** The batches of a dataset are the consecutive runs of its rows. *)
Lemma chunks_rows {A} (c : list A) n :
  Forall2 (fun batch cb => take_rows c batch = Ok cb)
          (chunks n (seq 0 (length c))) (chunks n c).
Proof.
  unfold chunks. rewrite length_seq.
  pose proof (chunks_fuel_rows c (Pos.to_nat n) (length c) 0 (length c)) as H.
  rewrite drop_0, firstn_all in H. apply H. lia.
Qed.

Lemma runs_are_chunks w mixing threshold x y c n runs :
  length x = length c ->
  br_batch <$> runs = chunks n (seq 0 (length x)) ->
  Forall (ran w mixing threshold x y c) runs ->
  br_c <$> runs = chunks n c.
Proof.
  intros Hlen Hb Hran. rewrite Hlen in Hb.
  pose proof (chunks_rows c n) as Hrows. rewrite <- Hb in Hrows.
  clear Hb. revert Hrows. generalize (chunks n c) as cbs.
  induction Hran as [|r runs (_ & _ & Hr & _) _ IH]; intros cbs Hrows.
  - by inversion Hrows.
  - cbn in Hrows. inversion Hrows as [|?? cb cbs' Hcb Hcbs]; subst.
    cbn. f_equal; [congruence | by apply IH].
Qed.

(** *** What the perturbation leaves alone *)

Lemma perturb_zero w mixing threshold x c g r :
  Qeq_bool w 0 = true ->
  perturb_batch w mixing threshold x c g = Ok r -> r = ((x, c), g).
Proof. unfold perturb_batch. intros ->. by intros [= <-]. Qed.

Lemma cell_step_images w threshold j ch pos neg x c i g x' c' g' :
  cell_step w false threshold j ch pos neg (x, c) i g = Ok ((x', c'), g') ->
  x' = x.
Proof.
  unfold cell_step. intros H.
  apply bind_Ok in H as (old & g1 & _ & H).
  apply bind_Ok in H as ([x1 c1] & g2 & Hmid & H).
  assert (x1 = x) as ->.
  { destruct (Qeq_bool old 1);
      apply bind_Ok in Hmid as (v & g3 & _ & Hmid);
      by apply ret_Ok in Hmid as [[= -> _] _]. }
  destruct threshold.
  - apply bind_Ok in H as (v & g3 & _ & H).
    by apply ret_Ok in H as [[= -> _] _].
  - by apply ret_Ok in H as [[= -> _] _].
Qed.

Lemma column_step_images w threshold x c j g x' c' g' :
  column_step w false threshold (x, c) j g = Ok ((x', c'), g') -> x' = x.
Proof.
  unfold column_step. intros H.
  apply bind_Ok in H as ([pos neg] & g1 & _ & H).
  apply (for_fold_invariant _ (fun xc => xc.1 = x)) in H; [exact H| |done].
  intros [x1 c1] i s [x2 c2] s' Hx Hstep. cbn in Hx |- *. subst x1.
  by eapply cell_step_images.
Qed.

Lemma perturb_no_mixing w threshold x c g x' c' g' :
  perturb_batch w false threshold x c g = Ok ((x', c'), g') -> x' = x.
Proof.
  unfold perturb_batch. destruct (Qeq_bool w 0); [by intros [= <-]|].
  intros H.
  apply (for_fold_invariant _ (fun xc => xc.1 = x)) in H; [exact H| |done].
  intros [x1 c1] j s [x2 c2] s' Hx Hstep. cbn in Hx |- *. subst x1.
  by eapply column_step_images.
Qed.

Lemma take_rows_functional {A} (a : list A) idxs r1 r2 :
  take_rows a idxs = Ok r1 -> take_rows a idxs = Ok r2 -> r1 = r2.
Proof. congruence. Qed.

(** The rows collated over all batches are the rows of the dataset. *)
Lemma runs_rows w mixing threshold x y c n runs :
  length x = length y -> length x = length c ->
  br_batch <$> runs = chunks n (seq 0 (length x)) ->
  Forall (ran w mixing threshold x y c) runs ->
  concat (br_x <$> runs) = x /\ concat (br_y <$> runs) = y /\
  concat (br_c <$> runs) = c.
Proof.
  intros Hy Hc Hb Hran.
  repeat split.
  - apply (rows_of_all_batches x n). rewrite <- Hb.
    apply Forall2_fmap, Forall_Forall2_diag.
    eapply Forall_impl; [exact Hran|]. by intros r (? & _).
  - apply (rows_of_all_batches y n). rewrite <- Hy, <- Hb.
    apply Forall2_fmap, Forall_Forall2_diag.
    eapply Forall_impl; [exact Hran|]. by intros r (_ & ? & _).
  - apply (rows_of_all_batches c n). rewrite <- Hc, <- Hb.
    apply Forall2_fmap, Forall_Forall2_diag.
    eapply Forall_impl; [exact Hran|]. by intros r (_ & _ & ? & _).
Qed.

(** The tensors of an input dataset, as [TensorDataset] holds them: one row
    per sample in each. *)
Definition holds (m : store) (ld : data_loader) (x : images) (y : list Z)
    (c : concept_matrix) : Prop :=
  m !! ds_x (dataset ld) = Some (TImages x) /\
  m !! ds_y (dataset ld) = Some (TLabels y) /\
  m !! ds_c (dataset ld) = Some (TConcepts c) /\
  length x = length y /\ length x = length c.

(** The labels of a returned loader are those of the input loader, in the
    same order, whatever the width.  Its images are those of the input as
    well when [mixing] is off, and so are its concepts when the width is
    zero. *)
Theorem passed_through seed datasets w bs nw mixing threshold m g outs m' g' :
  inject_uncertainty seed datasets w bs nw mixing threshold (m, g)
    = Ok (outs, (m', g')) ->
  Forall2 (fun ld out =>
             forall x y c, holds m ld x y c ->
               m' !! ds_y (dataset out) = Some (TLabels y) /\
               (mixing = false \/ Qeq_bool w 0 = true ->
                m' !! ds_x (dataset out) = Some (TImages x)) /\
               (Qeq_bool w 0 = true ->
                m' !! ds_c (dataset out) = Some (TConcepts c)))
          datasets outs.
Proof.
  intros H. apply inject_uncertainty_runs in H as ([ext ->] & Hall & _).
  eapply Forall2_impl; [exact Hall|]. cbn.
  intros ld out (x' & y' & c' & runs & Hx' & Hy' & Hc' & Hb & Hran & _ &
                 Hox & Hoy & Hoc) x y c (Hx & Hy & Hc & Hly & Hlc).
  apply (lookup_app_l_Some _ ext) in Hx, Hy, Hc.
  assert (x' = x) as -> by congruence.
  assert (y' = y) as -> by congruence.
  assert (c' = c) as -> by congruence.
  destruct (runs_rows _ _ _ _ _ _ _ _ Hly Hlc Hb Hran) as (Rx & Ry & Rc).
  split; [by rewrite Hoy, Ry|]. split.
  - intros Hcase. rewrite Hox. do 2 f_equal. rewrite <- Rx. f_equal.
    apply Forall_fmap_ext. eapply Forall_impl; [exact Hran|]. cbn.
    intros r (_ & _ & _ & g1 & g2 & Hp). destruct Hcase as [->|Hw].
    + by eapply perturb_no_mixing.
    + by apply (perturb_zero _ _ _ _ _ _ _ Hw) in Hp as [= -> _ _].
  - intros Hw. rewrite Hoc. do 2 f_equal. rewrite <- Rc. f_equal.
    apply Forall_fmap_ext. eapply Forall_impl; [exact Hran|]. cbn.
    intros r (_ & _ & _ & g1 & g2 & Hp).
    by apply (perturb_zero _ _ _ _ _ _ _ Hw) in Hp as [= _ -> _].
Qed.

(** *** What a call needs *)

(** Column [j] of a batch holds the value [q] somewhere. *)
Definition has_value (c : concept_matrix) (j : nat) (q : Q) : Prop :=
  exists i v, cell c i j = Some v /\ (v == q)%Q.

Lemma masked_planes_nonempty x c j value ch planes :
  masked_planes x c j value ch = Ok planes -> planes <> [] ->
  has_value c j value.
Proof.
  unfold masked_planes. destruct (ch <? channels x)%nat; [|discriminate].
  intros H Hne. apply rbind_Ok in H as (col & Hcol & H).
  destruct (omap _ (zip col x)) as [|row rows] eqn:E.
  { injection H as <-. done. }
  assert (row ∈ omap (fun '(v, r) => if Qeq_bool v value then Some r else None)
                     (zip col x)) as Hin by (rewrite E; by left).
  apply list_elem_of_omap in Hin as ([v r] & Hvr & Hv).
  destruct (Qeq_bool v value) eqn:Ev; [|discriminate].
  apply list_elem_of_lookup in Hvr as [i Hi].
  apply lookup_zip_with_Some in Hi as (v' & r' & [= <- <-] & Hv' & _).
  apply traverse_Forall2 in Hcol.
  destruct (Forall2_lookup_r _ _ _ _ _ Hcol Hv') as (r0 & Hr0 & Hj%of_option_Ok).
  exists i, v. split; [|by apply Qeq_bool_iff].
  unfold cell. by rewrite Hr0.
Qed.

(** One assignment with [mixing] on: the other kind of image must be there
    to draw from. *)
Lemma cell_step_mixing w threshold j ch pos neg x c i g x' c' g' :
  cell_step w true threshold j ch pos neg (x, c) i g = Ok ((x', c'), g') ->
  exists old v, cell c i j = Some old /\ c' = set2 c i j v /\
                if Qeq_bool old 1 then neg <> [] else pos <> [].
Proof.
  unfold cell_step. intros H.
  apply bind_Ok in H as (old & g1 & Hold & H).
  apply lift_Ok in Hold as [Hold%get2_Ok ->].
  apply bind_Ok in H as ([x1 c1] & g2 & Hmid & H).
  assert (exists v, c1 = set2 c i j v /\
                    if Qeq_bool old 1 then neg <> [] else pos <> [])
    as (v & -> & Hneed).
  { destruct (Qeq_bool old 1);
      apply bind_Ok in Hmid as (v & g3 & _ & Hmid);
      apply bind_Ok in Hmid as (k & g4 & Hk%choice_lt & Hmid);
      apply bind_Ok in Hmid as (? & ? & _ & Hmid);
      apply bind_Ok in Hmid as (? & ? & _ & Hmid);
      apply ret_Ok in Hmid as [[= _ ->] _];
      (exists v; split; [done|]; intros ->; cbn in Hk; lia). }
  exists old. destruct threshold.
  - apply bind_Ok in H as (v' & g3 & _ & H).
    apply ret_Ok in H as [[= _ ->] _]. rewrite set2_set2. eauto.
  - apply ret_Ok in H as [[= _ ->] _]. eauto.
Qed.

(** The value an entry [old] needs in its column: a 0 for a 1, a 1 for
    anything else. *)
Definition needed (old : Q) : Q := if Qeq_bool old 1 then 0%Q else 1%Q.

Lemma column_step_mixing w threshold x c j g x' c' g' :
  column_step w true threshold (x, c) j g = Ok ((x', c'), g') ->
  (forall i old, cell c i j = Some old -> has_value c j (needed old)) /\
  (forall i j', j' <> j -> cell c' i j' = cell c i j').
Proof.
  unfold column_step. intros H.
  set (ch := (j `div` _)%nat) in H.
  apply bind_Ok in H as ([pos neg] & g1 & Hpn & H).
  apply bind_Ok in Hpn as (pos' & g2 & Hpos & Hpn).
  apply lift_Ok in Hpos as [Hpos ->].
  apply bind_Ok in Hpn as (neg' & g2 & Hneg & Hpn).
  apply lift_Ok in Hneg as [Hneg ->].
  apply ret_Ok in Hpn as [[= -> ->] ->].
  pose (P := fun (k : nat) (xc : images * concept_matrix) (_ : rng) =>
               (forall i, (k <= i)%nat -> cell xc.2 i j = cell c i j) /\
               (forall i j', j' <> j -> cell xc.2 i j' = cell c i j') /\
               (forall i old, (i < k)%nat -> cell c i j = Some old ->
                              has_value c j (needed old))).
  assert (P (length c) (x', c') g') as (_ & Hothers & Hneed).
  { eapply (for_fold_range _ P); [| |exact H].
    - intros i [x1 c1] s [x2 c2] s' Hi (Hcol & Hoth & Hdone) Hstep.
      apply cell_step_mixing in Hstep as (old & v & Hold & -> & Hn).
      cbn in Hcol, Hoth, Hold. rewrite Hcol in Hold by lia.
      unfold P. cbn [snd]. repeat split.
      + intros i' Hi'. rewrite cell_set2_ne by (intros [= ]; lia).
        apply Hcol. lia.
      + intros i' j' Hj'. rewrite cell_set2_ne by congruence. by apply Hoth.
      + intros i' old' Hi' Hold'.
        destruct (decide (i' = i)) as [->|Hne]; [|apply (Hdone i'); [lia|done]].
        assert (old' = old) as -> by congruence. unfold needed.
        destruct (Qeq_bool old 1);
          by eapply masked_planes_nonempty.
    - repeat split; [done..|]. intros; lia. }
  split; [|done]. intros i old Hold. apply (Hneed i); [|done].
  by eapply cell_lt.
Qed.

(** With [mixing] on and a width other than zero, a batch gets through only
    if every entry of it finds the value it needs in its own column. *)
Lemma perturb_mixing w threshold x c g r :
  Qeq_bool w 0 = false ->
  perturb_batch w true threshold x c g = Ok r ->
  forall i j old, (j < ncols c)%nat -> cell c i j = Some old ->
                  has_value c j (needed old).
Proof.
  unfold perturb_batch. intros -> H.
  pose (P := fun (k : nat) (xc : images * concept_matrix) (_ : rng) =>
               (forall i j, (k <= j)%nat -> cell xc.2 i j = cell c i j) /\
               (forall i j old, (j < k)%nat -> cell c i j = Some old ->
                                has_value c j (needed old))).
  destruct r as [[x' c'] g'].
  assert (P (ncols c) (x', c') g') as [_ Hdone].
  { eapply (for_fold_range _ P); [| |exact H].
    - intros j [x1 c1] s [x2 c2] s' Hj (Hrest & Hdone) Hstep.
      apply column_step_mixing in Hstep as [Hneed Hoth].
      cbn in Hrest. unfold P. cbn [snd]. split.
      + intros i j' Hj'. rewrite Hoth by lia. apply Hrest. lia.
      + intros i j' old Hj' Hold.
        destruct (decide (j' = j)) as [->|Hne];
          [|apply (Hdone i j'); [lia|done]].
        rewrite <- Hrest in Hold by lia.
        destruct (Hneed i old Hold) as (i1 & v1 & H1 & Hv1).
        rewrite Hrest in H1 by lia. by exists i1, v1.
    - split; [done|]. intros; lia. }
  intros i j old Hj Hold. by apply (Hdone i j).
Qed.

Lemma needs_both c j :
  (forall i old, cell c i j = Some old -> has_value c j (needed old)) ->
  (exists i old, cell c i j = Some old) ->
  has_value c j 1 /\ has_value c j 0.
Proof.
  intros Hneed (i & old & Hold).
  assert (has_value c j 1 -> has_value c j 0) as H10.
  { intros (i1 & v1 & H1 & Hv1). specialize (Hneed i1 v1 H1).
    unfold needed in Hneed. apply Qeq_bool_iff in Hv1. by rewrite Hv1 in Hneed. }
  assert (has_value c j 1) as H1; [|by auto].
  destruct (Qeq_bool old 1) eqn:E.
  - exists i, old. split; [done | by apply Qeq_bool_iff].
  - specialize (Hneed i old Hold). unfold needed in Hneed. by rewrite E in Hneed.
Qed.

(** A call that returns was given no empty dataset and, when given any
    dataset at all, a positive batch size and a worker count that is not
    negative.  With [mixing] on and a width other than zero, every batch of
    every dataset moreover holds, in each of its concept columns, both a 1
    and a 0. *)
Theorem injection_requirements seed datasets w bs nw mixing threshold m g outs
    m' g' :
  inject_uncertainty seed datasets w bs nw mixing threshold (m, g)
    = Ok (outs, (m', g')) ->
  (datasets <> [] -> 0 < bs /\ 0 <= nw) /\
  Forall (fun ld =>
            forall x y c, holds m ld x y c ->
              x <> [] /\
              (mixing = true -> Qeq_bool w 0 = false ->
               Forall (fun cb => forall j, (j < ncols cb)%nat ->
                                   (exists i old, cell cb i j = Some old) ->
                                   has_value cb j 1 /\ has_value cb j 0)
                      (chunks (batch_size ld) c)))
         datasets.
Proof.
  intros H. apply inject_uncertainty_runs in H as ([ext ->] & Hall & Hargs).
  split; [done|]. eapply Forall2_Forall_l; [exact Hall|].
  apply Forall_forall. intros out _ ld
    (x' & y' & c' & runs & Hx' & Hy' & Hc' & Hb & Hran & Hne & _)
    x y c (Hx & Hy & Hc & Hly & Hlc).
  apply (lookup_app_l_Some _ ext) in Hx, Hy, Hc.
  assert (x' = x) as -> by congruence.
  assert (y' = y) as -> by congruence.
  assert (c' = c) as -> by congruence.
  split.
  - intros ->. cbn in Hb. by destruct runs.
  - intros -> Hw.
    rewrite <- (runs_are_chunks _ _ _ _ _ _ _ _ Hlc Hb Hran).
    apply Forall_fmap. eapply Forall_impl; [exact Hran|]. cbn.
    intros r (_ & _ & _ & g1 & g2 & Hp) j Hj Hsome.
    apply needs_both; [|done]. intros i old Hold.
    by eapply (perturb_mixing _ _ _ _ _ _ Hw Hp).
Qed.

End BatchProps.

Module BatchExamples.

Import Uncertainty UncertaintyProps BatchProps Demo Scenarios.

Lemma mixed_run :
  inject_uncertainty seed0 [loader3] (1 # 10) 3 0 true false (store1, rng0)
  = Ok (mixed.1, (mixed.2.1, mixed.2.2)).
Proof. vm_compute. reflexivity. Defined.

Lemma passed_through_witness :
  Forall2 (fun ld out =>
             forall x y c, holds store1 ld x y c ->
               (injected false).2.1 !! ds_y (dataset out) = Some (TLabels y) /\
               (false = false \/ Qeq_bool (1 # 10) 0 = true ->
                (injected false).2.1 !! ds_x (dataset out)
                = Some (TImages x)) /\
               (Qeq_bool (1 # 10) 0 = true ->
                (injected false).2.1 !! ds_c (dataset out)
                = Some (TConcepts c)))
          [loader1] (injected false).1.
Proof.
  apply (passed_through seed0 [loader1] (1 # 10) 2 0 false false store1 rng0
           _ _ (injected false).2.2).
  apply (UncertaintyExamples.injected_run false).
Defined.

Lemma injection_requirements_witness :
  ([loader3] <> [] -> 0 < 3 /\ 0 <= 0) /\
  Forall (fun ld =>
            forall x y c, holds store1 ld x y c ->
              x <> [] /\
              (true = true -> Qeq_bool (1 # 10) 0 = false ->
               Forall (fun cb => forall j, (j < ncols cb)%nat ->
                                   (exists i old, cell cb i j = Some old) ->
                                   has_value cb j 1 /\ has_value cb j 0)
                      (chunks (batch_size ld) c)))
         [loader3].
Proof.
  apply (injection_requirements seed0 [loader3] (1 # 10) 3 0 true false
           store1 rng0 mixed.1 mixed.2.1 mixed.2.2).
  apply mixed_run.
Defined.

End BatchExamples.

(** ** [load_mnist_addition] *)

Module LoadingProps.

Import Addition SemiSup Loading.

Lemma and_then_inr {A B} (m : LM A) (k : A -> LM B) g r :
  and_then m k g = inr r -> exists a g1, m g = inr (a, g1) /\ k a g1 = inr r.
Proof.
  unfold and_then. destruct (m g) as [e|[a g1]]; [discriminate | eauto].
Qed.

Lemma call_inr {A} (m : M A) g r : call m g = inr r -> m g = Ok r.
Proof. unfold call. destruct (m g); [by intros [= ->] | discriminate]. Qed.

Lemma of_result_inr {A} (r : result A) g a g' :
  of_result r g = inr (a, g') -> r = Ok a /\ g' = g.
Proof. intros H%call_inr. by apply lift_Ok in H. Qed.

Lemma pure_inr {A} (a : A) g b g' : pure a g = inr (b, g') -> b = a /\ g' = g.
Proof. by intros [= <- <-]. Qed.

Section WithCorpus.

Context {image : Type}.
Variable mnist : bool -> result (list image * list Z).
Variable train_test_split :
  list image -> list Z -> Q -> M (list image * list image * list Z * list Z).
Variable finish_images : Q -> list (list image) -> M (list (list image)).
Variable kneighbors :
  nat -> list (list image) -> list (list image) ->
  result (list (list Q) * list (list nat)).
Variable np_random_seed : Z -> rng.

(** The six tensors of a dataset have [n] rows each. *)
Definition rows (n : nat) (d : ss_dataset (image:=image)) : Prop :=
  length (t_x d) = n /\ length (t_y d) = n /\ length (t_c d) = n /\
  length (t_l d) = n /\ length (t_ncs d) = n /\ length (t_nws d) = n.

Lemma tensor_dataset_inr c g d g' :
  tensor_dataset c g = inr (d, g') ->
  d = {| t_x := out_xs c; t_y := out_ys c; t_c := out_cs c; t_l := out_l c;
         t_ncs := out_nbr_concepts c; t_nws := out_nbr_weights c |} /\
  length (out_ys c) <> 1%nat /\ rows (length (out_ys c)) d.
Proof.
  unfold tensor_dataset. destruct (Nat.eqb_spec (length (out_ys c)) 1);
    [discriminate|].
  destruct (forallb _ _) eqn:E; [|discriminate]. intros [= <- <-].
  split; [done|]. split; [done|].
  cbn in E. repeat (apply andb_prop in E as [?%Nat.eqb_eq E]).
  unfold rows. cbn. repeat split; congruence.
Qed.

Lemma data_loader_inr (d : ss_dataset (image:=image)) bs nw g ld g' :
  data_loader d bs nw g = inr (ld, g') ->
  ss_dataset_of ld = d /\ 0 < bs /\ 0 <= nw.
Proof.
  unfold data_loader. destruct (Z.ltb_spec nw 0); [discriminate|].
  destruct bs; try discriminate. intros [= <- <-]. cbn. repeat split; lia.
Qed.

(** What a split that gets its loader went through. *)
Lemma build_split_inr n dss w bs nw sc ec el thr ct X y size noise r tr g ld
    g' :
  build_split finish_images kneighbors n dss w bs nw sc ec el thr ct X y size
              noise r tr g = inr (ld, g') ->
  exists b g1 comps,
    produce_addition_set (finish_images noise) X y size n (DigitLists dss) sc
                         ec el thr ct g = Ok (b, g1) /\
    get_ss_components kneighbors (sum_train_samples b) (sum_train_labels b)
                      (sum_train_concepts b) r tr = Ok comps /\
    t_c (ss_dataset_of ld) = sum_train_concepts b /\
    t_l (ss_dataset_of ld) = out_l comps /\
    rows size (ss_dataset_of ld) /\ (2 <= size)%nat /\
    0 < bs /\ 0 <= nw /\
    (Qeq_bool w 0 = true \/ ec = true).
Proof.
  unfold build_split. intros H.
  apply and_then_inr in H as (b & g1 & Hb%call_inr & H).
  apply and_then_inr in H as (comps & g2 & [Hc ->]%of_result_inr & H).
  apply and_then_inr in H as (d & g3 & Hd & H).
  apply and_then_inr in H as (dl & g4 & Hdl & H).
  apply tensor_dataset_inr in Hd as (-> & Hone & Hrows).
  apply data_loader_inr in Hdl as (Hds & Hbs & Hnw).
  assert (Qeq_bool w 0 = true \/ ec = true) as Hcase.
  { destruct (Qeq_bool w 0); [by left|]. destruct ec; [by right|].
    cbn in H. unfold inject_uncertainty in H.
    by destruct (Uncertainty.chunks _ _). }
  assert (ld = dl) as ->.
  { destruct Hcase as [E| ->].
    - rewrite E in H. cbn in H. by injection H as <-.
    - rewrite andb_false_r in H. by injection H as <-. }
  pose proof (SynthesisProps.produce_addition_set_Ok _ _ _ _ _ _ _ _ _ _ _ _
                _ _ Hb) as (samples & dss' & cs & _ & _ & Hne & Hlen & _ & Hl
                            & _).
  pose proof (SplitProps.get_ss_components_Ok _ _ _ _ _ _ _ Hc)
    as (_ & _ & _ & _ & _ & _ & _ & _ & _ & _).
  assert (out_ys comps = sum_train_labels b /\
          out_cs comps = sum_train_concepts b) as [Hys Hcs].
  { unfold get_ss_components in Hc. destruct (_ =? _)%nat; [discriminate|].
    apply rbind_Ok in Hc as (? & _ & Hc).
    apply rbind_Ok in Hc as (? & _ & [= <-]). done. }
  assert (length (out_ys comps) = size) as Hsize
    by (by rewrite Hys, Hl, length_fmap).
  exists b, g1, comps. rewrite Hds, Hsize in *. cbn [t_c t_l].
  split; [done|]. split; [done|]. split; [done|]. split; [done|].
  split; [exact Hrows|]. split; [|done].
  destruct size as [|[|size]]; [by destruct samples | done | lia].
Qed.

Section WithArguments.

Variable labeled_ratio : Q.
Variable seed : Z.
Variable train_dataset_size test_dataset_size : nat.
Variable num_operands : nat.
Variable selected_digits : list (list Z).
Variable uncertain_width : Q.
Variable val_percent : Q.
Variable batch_size num_workers : Z.
Variable test_only : bool.
Variable sample_concepts : option (list nat).
Variable even_concepts even_labels : bool.
Variable threshold_labels : option Z.
Variable concept_transform :
  option (list (list Z) -> result (list (list Z))).
Variable noise_level : Q.
Variable test_noise_level : option Q.

Let load :=
  load_mnist_addition mnist train_test_split finish_images kneighbors
    np_random_seed labeled_ratio seed train_dataset_size test_dataset_size
    num_operands selected_digits uncertain_width val_percent batch_size
    num_workers test_only sample_concepts even_concepts even_labels
    threshold_labels concept_transform noise_level test_noise_level.

Let split :=
  build_split finish_images kneighbors num_operands selected_digits
    uncertain_width batch_size num_workers sample_concepts even_concepts
    even_labels threshold_labels concept_transform.

(** The number of samples of the validation split. *)
Definition val_dataset_size : nat :=
  Z.to_nat (int_of (inject_Z (Z.of_nat train_dataset_size) * val_percent)).

(** The splits a returning call has built, in the order it built them. *)
Lemma load_inr g r g' :
  load g = inr (r, g') ->
  exists x_test y_test test_dl g1,
    mnist false = Ok (x_test, y_test) /\
    split x_test y_test test_dataset_size
          (default noise_level test_noise_level) 1%Q false
          (np_random_seed seed) = inr (test_dl, g1) /\
    if test_only then r = TestOnly test_dl
    else
      exists x_all y_all x_train y_train train_dl val_dl g2 g3,
        mnist true = Ok (x_all, y_all) /\
        r = Loaders train_dl val_dl test_dl /\
        split x_train y_train train_dataset_size noise_level labeled_ratio
              true g2 = inr (train_dl, g3) /\
        if Qeq_bool val_percent 0
        then val_dl = None /\ x_train = x_all /\ y_train = y_all
        else exists x_val y_val v g4 g5,
               val_dl = Some v /\
               train_test_split x_all y_all val_percent g1
               = Ok ((x_train, x_val, y_train, y_val), g4) /\
               split x_val y_val val_dataset_size noise_level 1%Q false g4
               = inr (v, g5).
Proof.
  subst load split. unfold load_mnist_addition. intros H.
  apply and_then_inr in H as ([] & g0 & [= <-] & H).
  apply and_then_inr in H as ([x_test y_test] & g1 & [Hm ->]%of_result_inr & H).
  apply and_then_inr in H as (test_dl & g2 & Ht & H).
  exists x_test, y_test, test_dl, g2. split; [done|]. split; [done|].
  destruct test_only; [by apply pure_inr in H as [-> _]|].
  apply and_then_inr in H as ([x_all y_all] & g3 & [Hm' ->]%of_result_inr & H).
  apply and_then_inr in H as ([[x_train y_train] val_dl] & g4 & Hv & H).
  apply and_then_inr in H as (train_dl & g5 & Htr & H).
  apply pure_inr in H as [-> ->].
  exists x_all, y_all, x_train, y_train, train_dl, val_dl, g4, g5.
  split; [done|]. split; [done|]. split; [done|].
  destruct (Qeq_bool val_percent 0); cbn in Hv.
  - by apply pure_inr in Hv as [[= -> -> ->] _].
  - apply and_then_inr in Hv
      as ([[[xt xv] yt] yv] & g6 & Hs%call_inr & Hv).
    apply and_then_inr in Hv as (v & g7 & Hvs & Hv).
    apply pure_inr in Hv as [[= -> -> ->] ->].
    exists xv, yv, v, g6, g7. by repeat split.
Qed.

(** A call returns only if it was given a positive batch size and a worker
    count that is not negative, and asked for at least two test samples: the
    [DataLoader] of the test split refuses the first two, and a single
    sample loses its dimension in [squeeze()]. *)
Theorem loading_requirements g r g' :
  load g = inr (r, g') ->
  0 < batch_size /\ 0 <= num_workers /\ (2 <= test_dataset_size)%nat.
Proof.
  intros H. apply load_inr in H as (x & y & dl & g1 & _ & Ht & _).
  subst split. apply build_split_inr in Ht
    as (_ & _ & _ & _ & _ & _ & _ & _ & ? & ? & ? & _). done.
Qed.

(** With a width of uncertainty other than zero and [even_concepts] off
    every call ends in an exception: if nothing fails before, the loader
    handed to [inject_uncertainty] yields batches of six tensors, which do
    not unpack into [x, y, c]. *)
Theorem uncertainty_never_loads g :
  Qeq_bool uncertain_width 0 = false -> even_concepts = false ->
  exists e, load g = inl e.
Proof.
  intros Hw Hec. destruct (load g) as [e|[r g']] eqn:H; [by exists e|].
  apply load_inr in H as (x & y & dl & g1 & _ & Ht & _).
  subst split. apply build_split_inr in Ht
    as (_ & _ & _ & _ & _ & _ & _ & _ & _ & _ & _ & [E|E]); congruence.
Qed.


End WithArguments.

End WithCorpus.

End LoadingProps.

Module LoadingExamples.

Import Loading LoadingProps Demo Scenarios.

Lemma loading_requirements_witness :
  exists r g',
    load_small 0 0 true rng0 = inr (r, g') /\
    0 < 2 /\ 0 <= 0 /\ (2 <= 2)%nat.
Proof.
  eexists _, _. split; [vm_compute; reflexivity|].
  eapply (loading_requirements mnist0 split0 finish_at knn1 seed0 (1 # 2) 42 3
           2 2 [[0; 1]; [0; 1]] 0 (2 # 3) 2 0 true None false false None None
           0 None rng0 _ (MkRng (raw rng0) 4)).
  reflexivity.
Defined.

Lemma uncertainty_never_loads_witness :
  exists e, load_small (1 # 10) 0 false rng0 = inl e.
Proof.
  apply (uncertainty_never_loads mnist0 split0 finish_at knn1 seed0 (1 # 2)
           42 3 2 2 [[0; 1]; [0; 1]] (1 # 10) (2 # 3) 2 0 false None false
           false None None 0 None rng0); reflexivity.
Defined.


End LoadingExamples.

(** ** [generate_hyper_param_configs] *)

Module HyperParamsProps.

Import HyperParams.

Lemma and_then_Return {A B} (r : outcome A) (k : A -> outcome B) b :
  and_then r k = Return b -> exists a, r = Return a /\ k a = Return b.
Proof. destruct r as [a|e]; [eauto | discriminate]. Qed.

Lemma each_Return {A B} (body : A -> outcome B) xs bs :
  each body xs = Return bs <-> Forall2 (fun x b => body x = Return b) xs bs.
Proof.
  revert bs. induction xs as [|x xs IH]; intros bs; cbn.
  - split; [intros [= <-]; constructor | by inversion 1].
  - split.
    + intros (b & Hb & (bs' & Hbs & [= <-])%and_then_Return)%and_then_Return.
      constructor; [done | by apply IH].
    + inversion 1 as [|? b ? bs' Hb Hbs]; subst.
      rewrite Hb; cbn. apply IH in Hbs. by rewrite Hbs.
Qed.

Lemma check_var_Return cfg var name opts :
  check_var cfg var = Return (name, opts)
  <-> var = VStr name /\ cfg !! name = Some (VList opts).
Proof.
  split.
  - destruct var as [| | | |s| |]; cbn; try discriminate.
    destruct (cfg !! s) as [[]|] eqn:E; try discriminate.
    by intros [= <- <-].
  - intros [-> E]; cbn. by rewrite E.
Qed.

(** The variables of a successful call: every item of [grid_variables] is the
    name of a field that holds a list. *)
Lemma checked_vars cfg items checked :
  each (check_var cfg) items = Return checked ->
  items = VStr <$> checked.*1 /\
  Forall2 (fun name opts => cfg !! name = Some (VList opts))
          checked.*1 checked.*2.
Proof.
  intros H%each_Return. induction H as [|x [n o] xs cs Hx _ [IH1 IH2]]; cbn.
  - split; [done | constructor].
  - apply check_var_Return in Hx as [-> Hx]. split; [by f_equal|].
    by constructor.
Qed.

Lemma elem_of_product {A} (pools : list (list A)) t :
  t ∈ product pools <-> Forall2 (fun x pool => x ∈ pool) t pools.
Proof.
  revert t. induction pools as [|pool rest IH]; intros t; cbn.
  - rewrite list_elem_of_singleton. split; [intros ->; constructor | by inversion 1].
  - rewrite list_elem_of_bind. split.
    + intros (x & (t' & -> & Ht')%list_elem_of_fmap & Hx).
      constructor; [done | by apply IH].
    + inversion 1 as [|x ? t' ? Hx Ht']; subst. exists x. split; [|done].
      apply list_elem_of_fmap. exists t'. split; [done | by apply IH].
Qed.

Lemma length_product {A} (pools : list (list A)) :
  length (product pools) = foldr Nat.mul 1%nat (length <$> pools).
Proof.
  induction pools as [|pool rest IH]; [done|]. cbn. rewrite <- IH.
  induction pool as [|x pool IHp]; [done|].
  rewrite bind_cons, length_app, length_fmap, IHp. done.
Qed.

(** The length of the shortest of several lists (zero for no list). *)
Definition shortest {A} (its : list (list A)) : nat :=
  match its with
  | [] => 0%nat
  | it :: rest => foldr Nat.min (length it) (length <$> rest)
  end.

Lemma min_foldr_min a b ls :
  Nat.min a (foldr Nat.min b ls) = Nat.min b (foldr Nat.min a ls).
Proof. induction ls as [|l ls IH]; cbn; lia. Qed.

Lemma length_zip_all {A} (its : list (list A)) :
  length (zip_all its) = shortest its.
Proof.
  induction its as [|it rest IH]; [done|].
  destruct rest as [|it2 rest].
  - cbn. by rewrite length_fmap.
  - change (zip_all (it :: it2 :: rest))
      with (zip_with cons it (zip_all (it2 :: rest))).
    rewrite length_zip_with, IH. unfold shortest. cbn.
    apply min_foldr_min.
Qed.

Lemma zip_all_lookup {A} (its : list (list A)) k t :
  zip_all its !! k = Some t
  <-> its <> [] /\ Forall2 (fun x it => it !! k = Some x) t its.
Proof.
  revert t. induction its as [|it rest IH]; intros t.
  - cbn. split; [done | by intros [? _]].
  - destruct rest as [|it2 rest].
    + cbn. rewrite list_lookup_fmap. split.
      * destruct (it !! k) as [x|] eqn:E; [|done]. intros [= <-].
        split; [done|]. by repeat constructor.
      * intros [_ H]. inversion H as [|x ? t' ? Hx Ht']; subst.
        inversion Ht'; subst. by rewrite Hx.
    + change (zip_all (it :: it2 :: rest))
        with (zip_with cons it (zip_all (it2 :: rest))).
      rewrite lookup_zip_with_Some. split.
      * intros (x & t' & -> & Hx & Ht'). split; [done|].
        constructor; [done|]. by apply IH.
      * intros [_ H]. inversion H as [|x ? t' ? Hx Ht']; subst.
        exists x, t'. repeat split; [done|]. apply IH. by split.
Qed.

Lemma assign_cons cfg n names v vals :
  assign cfg (n :: names) (v :: vals) = assign (<[n := v]> cfg) names vals.
Proof. done. Qed.

(** What a configuration holds after the assignments of lines 189-190. *)
Lemma assign_lookup names : forall cfg vals key,
  length vals = length names ->
  (key ∈ names ->
   exists i v, names !! i = Some key /\ vals !! i = Some v /\
               assign cfg names vals !! key = Some v) /\
  (key ∉ names -> assign cfg names vals !! key = cfg !! key).
Proof.
  induction names as [|n names IH]; intros cfg vals key Hlen.
  - split; [by intros ?%elem_of_nil | done].
  - destruct vals as [|v vals]; [done|]. injection Hlen as Hlen.
    rewrite assign_cons.
    destruct (IH (<[n := v]> cfg) vals key Hlen) as [IHin IHout].
    destruct (decide (key ∈ names)) as [Hin|Hout].
    + split; [|intros Hn; exfalso; apply Hn; by right].
      intros _. destruct (IHin Hin) as (i & w & ? & ? & ?).
      by exists (S i), w.
    + split.
      * intros [->|?]%elem_of_cons; [|done].
        exists 0%nat, v. rewrite (IHout Hout), lookup_insert_eq. done.
      * intros Hn. rewrite (IHout Hout), lookup_insert_ne; [done|].
        intros ->. apply Hn. by left.
Qed.

Lemma Forall2_impl_elem {A B} (R Q : A -> B -> Prop) l k :
  Forall2 R l k -> (forall a b, a ∈ l -> R a b -> Q a b) -> Forall2 Q l k.
Proof.
  induction 1 as [|a b l k HR _ IH]; intros HQ; constructor.
  - apply HQ; [by left | done].
  - apply IH. intros ??? ?. apply HQ; [by right | done].
Qed.

(** The parts of a successful call with a [grid_variables] entry. *)
Lemma generate_Return lower strip cfg vars rs :
  cfg !! "grid_variables"%string = Some vars ->
  generate_hyper_param_configs lower strip cfg = Return rs ->
  exists names options mode,
    iterate vars = Return (VStr <$> names) /\
    Forall2 (fun name opts => cfg !! name = Some (VList opts)) names options /\
    search_mode lower strip cfg = Return mode /\
    ((mode ∈ ["grid"; "exhaustive"]%string /\
      rs = (assign cfg names <$> product options)) \/
     ((mode ∉ ["grid"; "exhaustive"]%string) /\ mode = "paired"%string /\
      rs = (assign cfg names <$> zip_all options))).
Proof.
  intros Hv. unfold generate_hyper_param_configs. rewrite Hv.
  intros (items & Hit & (checked & Hch & (mode & Hmode & H)%and_then_Return)
            %and_then_Return)%and_then_Return.
  apply and_then_Return in H as (iterator & Hiter & [= <-]).
  apply checked_vars in Hch as [-> Hopts].
  exists checked.*1, checked.*2, mode. repeat split; [done..|].
  case_bool_decide as Hg.
  - injection Hiter as <-. by left.
  - case_bool_decide as Hp; [|done]. injection Hiter as <-.
    apply list_elem_of_singleton in Hp. by right.
Qed.

(** X: the size of the search. *)

(** In grid or exhaustive mode the function returns one configuration per
    combination of options: their number is the product of the lengths of the
    option lists.  In paired mode it returns as many configurations as the
    shortest option list has entries, and none when [grid_variables] is
    empty. *)
Theorem search_size lower strip cfg vars rs :
  cfg !! "grid_variables"%string = Some (VList vars) ->
  generate_hyper_param_configs lower strip cfg = Return rs ->
  exists names options mode,
    vars = VStr <$> names /\
    Forall2 (fun name opts => cfg !! name = Some (VList opts)) names options /\
    search_mode lower strip cfg = Return mode /\
    length rs =
      if bool_decide (mode ∈ ["grid"; "exhaustive"]%string)
      then foldr Nat.mul 1%nat (length <$> options)
      else match options with
           | [] => 0%nat
           | opts :: rest => foldr Nat.min (length opts) (length <$> rest)
           end.
Proof.
  intros Hv Hrs.
  destruct (generate_Return _ _ _ _ _ Hv Hrs)
    as (names & options & mode & [= ->] & Hopts & Hmode & H).
  exists names, options, mode. repeat split; [done..|].
  destruct H as [[Hg ->]|(Hg & _ & ->)].
  - rewrite bool_decide_eq_true_2 by done.
    by rewrite length_fmap, length_product.
  - rewrite bool_decide_eq_false_2 by done.
    by rewrite length_fmap, length_zip_all.
Qed.

(** Every returned configuration gives each search variable one of the
    options listed for it, and agrees with the given configuration on every
    other key. *)
Theorem configs_sound lower strip cfg vars items rs r :
  cfg !! "grid_variables"%string = Some vars ->
  iterate vars = Return items ->
  generate_hyper_param_configs lower strip cfg = Return rs ->
  r ∈ rs ->
  (forall name, VStr name ∈ items ->
     exists opts x, cfg !! name = Some (VList opts) /\ x ∈ opts /\
                    r !! name = Some x) /\
  (forall key, VStr key ∉ items -> r !! key = cfg !! key).
Proof.
  intros Hv Hit Hrs Hr.
  destruct (generate_Return _ _ _ _ _ Hv Hrs)
    as (names & options & mode & Hit' & Hopts & Hmode & H).
  rewrite Hit in Hit'. injection Hit' as ->.
  assert (exists t, r = assign cfg names t /\
                    Forall2 (fun x opts => x ∈ opts) t options)
    as (t & -> & Ht).
  { destruct H as [[_ ->]|(_ & _ & ->)];
      apply list_elem_of_fmap in Hr as (t & -> & Ht); exists t; (split; [done|]).
    - by apply elem_of_product.
    - apply list_elem_of_lookup in Ht as [k Ht].
      apply zip_all_lookup in Ht as [_ Ht].
      eapply Forall2_impl; [exact Ht|]. cbn. intros x opts Hx.
      by eapply list_elem_of_lookup_2. }
  assert (length t = length names) as Hlen.
  { rewrite (Forall2_length _ _ _ Ht). symmetry. by eapply Forall2_length. }
  split.
  - intros name Hin.
    apply list_elem_of_fmap in Hin as (name' & [= <-] & Hin).
    destruct (assign_lookup names cfg t name Hlen) as [Hassign _].
    destruct (Hassign Hin) as (i & x & Hi & Hx & Hr').
    destruct (Forall2_lookup_l _ _ _ _ _ Hopts Hi) as (opts & Ho & Hcfg).
    destruct (Forall2_lookup_l _ _ _ _ _ Ht Hx) as (opts' & Ho' & Hxin).
    rewrite Ho in Ho'. injection Ho' as <-. by exists opts, x.
  - intros key Hout.
    destruct (assign_lookup names cfg t key Hlen) as [_ Hassign].
    apply Hassign. intros Hin. apply Hout.
    apply list_elem_of_fmap. by exists key.
Qed.

(** In grid or exhaustive mode the search is complete: whichever option is
    picked for each search variable, the configuration that sets every
    variable to its pick and leaves the other keys alone is among those
    returned. *)
Theorem exhaustive_search_complete lower strip cfg vars items rs mode
    (pick : string -> value) :
  cfg !! "grid_variables"%string = Some vars ->
  iterate vars = Return items ->
  generate_hyper_param_configs lower strip cfg = Return rs ->
  search_mode lower strip cfg = Return mode ->
  mode ∈ ["grid"; "exhaustive"]%string ->
  (forall name opts, VStr name ∈ items -> cfg !! name = Some (VList opts) ->
                     pick name ∈ opts) ->
  exists r, r ∈ rs /\
    (forall name, VStr name ∈ items -> r !! name = Some (pick name)) /\
    (forall key, VStr key ∉ items -> r !! key = cfg !! key).
Proof.
  intros Hv Hit Hrs Hmode Hg Hpick.
  destruct (generate_Return _ _ _ _ _ Hv Hrs)
    as (names & options & mode' & Hit' & Hopts & Hmode' & H).
  rewrite Hit in Hit'. injection Hit' as ->.
  rewrite Hmode in Hmode'. injection Hmode' as <-.
  destruct H as [[_ ->]|(Hng & _)]; [|done].
  assert (length (pick <$> names) = length names) as Hlen
    by by rewrite length_fmap.
  exists (assign cfg names (pick <$> names)). split; [|split].
  - apply list_elem_of_fmap. exists (pick <$> names). split; [done|].
    apply elem_of_product. apply Forall2_fmap_l.
    eapply Forall2_impl_elem; [exact Hopts|].
    intros name opts Hin Hcfg. apply Hpick; [|done].
    apply list_elem_of_fmap. by exists name.
  - intros name Hin.
    apply list_elem_of_fmap in Hin as (name' & [= <-] & Hin).
    destruct (assign_lookup names cfg (pick <$> names) name Hlen)
      as [Hassign _].
    destruct (Hassign Hin) as (i & x & Hi & Hx & Hr').
    rewrite list_lookup_fmap, Hi in Hx. injection Hx as <-. done.
  - intros key Hout.
    destruct (assign_lookup names cfg (pick <$> names) key Hlen)
      as [_ Hassign].
    apply Hassign. intros Hin. apply Hout.
    apply list_elem_of_fmap. by exists key.
Qed.

(** In paired mode the [k]-th returned configuration sets every search
    variable to the [k]-th option of its list. *)
Theorem paired_search_rows lower strip cfg vars items rs (k : nat) r :
  cfg !! "grid_variables"%string = Some vars ->
  iterate vars = Return items ->
  generate_hyper_param_configs lower strip cfg = Return rs ->
  search_mode lower strip cfg = Return "paired"%string ->
  rs !! k = Some r ->
  forall name opts, VStr name ∈ items -> cfg !! name = Some (VList opts) ->
    exists x, opts !! k = Some x /\ r !! name = Some x.
Proof.
  intros Hv Hit Hrs Hmode Hk name opts Hin Hcfg.
  destruct (generate_Return _ _ _ _ _ Hv Hrs)
    as (names & options & mode' & Hit' & Hopts & Hmode' & H).
  rewrite Hit in Hit'. injection Hit' as ->.
  rewrite Hmode in Hmode'. injection Hmode' as <-.
  destruct H as [[Hg _]|(_ & _ & ->)].
  { exfalso. revert Hg. by rewrite !elem_of_cons, elem_of_nil; intros [|[|]]. }
  rewrite list_lookup_fmap in Hk.
  destruct (zip_all options !! k) as [t|] eqn:Ht; [|done].
  injection Hk as <-. apply zip_all_lookup in Ht as [_ Ht].
  assert (length t = length names) as Hlen.
  { rewrite (Forall2_length _ _ _ Ht). symmetry. by eapply Forall2_length. }
  apply list_elem_of_fmap in Hin as (name' & [= <-] & Hin).
  destruct (assign_lookup names cfg t name Hlen) as [Hassign _].
  destruct (Hassign Hin) as (i & x & Hi & Hx & Hr').
  destruct (Forall2_lookup_l _ _ _ _ _ Hopts Hi) as (opts' & Ho & Hcfg').
  rewrite Hcfg in Hcfg'. injection Hcfg' as <-.
  destruct (Forall2_lookup_l _ _ _ _ _ Ht Hx) as (opts' & Ho' & Hxk).
  rewrite Ho in Ho'. injection Ho' as <-. by exists x.
Qed.

Lemma each_Throw {A B} (body : A -> outcome B) good bad rest e :
  Forall (fun x => exists b, body x = Return b) good ->
  body bad = Throw e ->
  each body (good ++ bad :: rest) = Throw e.
Proof.
  induction 1 as [|x good [b Hb] _ IH]; intros Hbad; cbn.
  - by rewrite Hbad.
  - rewrite Hb; cbn. by rewrite IH.
Qed.

Lemma each_total {A B} (body : A -> outcome B) xs :
  Forall (fun x => exists b, body x = Return b) xs ->
  exists bs, each body xs = Return bs.
Proof.
  induction 1 as [|x xs [b Hb] _ [bs IH]]; cbn; [by eexists|].
  rewrite Hb; cbn. rewrite IH; cbn. by eexists.
Qed.

(** A field that holds a list. *)
Definition list_field (cfg : config) (name : string) : Prop :=
  exists opts, cfg !! name = Some (VList opts).

Lemma list_field_checked cfg names :
  Forall (list_field cfg) names ->
  Forall (fun x => exists b, check_var cfg x = Return b) (VStr <$> names).
Proof.
  intros H. apply Forall_fmap. eapply Forall_impl; [exact H|].
  intros name [opts Ho]; cbn. rewrite Ho. by eexists.
Qed.

(** When [grid_variables] is a list of names, the call succeeds exactly when
    every name is a field holding a list and the search mode is one of
    [grid], [exhaustive] and [paired].  Otherwise the first name that is not
    such a field decides the error, whatever the mode: [ValueError] for an
    unknown field, [ValueError] for a field that is not a list; with all
    names in order, an unsupported mode raises [ValueError]. *)
Theorem search_outcome lower strip cfg names :
  cfg !! "grid_variables"%string = Some (VList (VStr <$> names)) ->
  (forall good bad rest,
      names = good ++ bad :: rest -> Forall (list_field cfg) good ->
      ~ list_field cfg bad ->
      generate_hyper_param_configs lower strip cfg
      = Throw (match cfg !! bad with
               | None => ValueError_unknown_field
               | Some _ => ValueError_not_a_list
               end)) /\
  (Forall (list_field cfg) names ->
   forall mode, search_mode lower strip cfg = Return mode ->
     mode ∉ ["grid"; "exhaustive"; "paired"]%string ->
     generate_hyper_param_configs lower strip cfg
     = Throw ValueError_unsupported_mode) /\
  ((exists rs, generate_hyper_param_configs lower strip cfg = Return rs)
   <-> Forall (list_field cfg) names /\
       exists mode, search_mode lower strip cfg = Return mode /\
                    mode ∈ ["grid"; "exhaustive"; "paired"]%string).
Proof.
  intros Hv. split; [|split].
  - intros good bad rest -> Hgood Hbad.
    unfold generate_hyper_param_configs. rewrite Hv. cbn.
    rewrite fmap_app, fmap_cons.
    rewrite (each_Throw _ _ _ _
               (match cfg !! bad with
                | None => ValueError_unknown_field
                | Some _ => ValueError_not_a_list
                end)); [done | by apply list_field_checked |].
    cbn. destruct (cfg !! bad) as [v|] eqn:E; [|done].
    destruct v; try done. exfalso. apply Hbad. by eexists.
  - intros Hall mode Hmode Hbad.
    unfold generate_hyper_param_configs. rewrite Hv. cbn.
    destruct (each_total _ _ (list_field_checked _ _ Hall)) as [bs ->]. cbn.
    rewrite Hmode. cbn.
    rewrite bool_decide_eq_false_2.
    2:{ intros H. apply Hbad. revert H. rewrite !elem_of_cons. tauto. }
    rewrite bool_decide_eq_false_2; [done|].
    intros H. apply Hbad. revert H. rewrite !elem_of_cons. tauto.
  - split.
    + intros [rs Hrs].
      destruct (generate_Return _ _ _ _ _ Hv Hrs)
        as (names' & options & mode & Hit & Hopts & Hmode & H).
      cbn in Hit. injection Hit as Hit.
      assert (Inj (=) (=) VStr) by (by intros ?? [= ->]).
      apply (inj (fmap VStr)) in Hit as ->.
      split.
      * apply Forall_forall. intros name Hin.
        apply list_elem_of_lookup in Hin as [i Hi].
        destruct (Forall2_lookup_l _ _ _ _ _ Hopts Hi) as (opts & _ & Ho).
        by exists opts.
      * exists mode. split; [done|].
        destruct H as [[Hg _]|(_ & -> & _)].
        -- revert Hg. rewrite !elem_of_cons. tauto.
        -- rewrite !elem_of_cons. tauto.
    + intros (Hall & mode & Hmode & Hin).
      unfold generate_hyper_param_configs. rewrite Hv. cbn.
      destruct (each_total _ _ (list_field_checked _ _ Hall)) as [bs ->]. cbn.
      rewrite Hmode. cbn.
      case_bool_decide as Hg; [by eexists|].
      case_bool_decide as Hp; [by eexists|].
      exfalso. revert Hin Hg Hp. rewrite !elem_of_cons, !elem_of_nil. tauto.
Qed.

End HyperParamsProps.

Module HyperParamsExamples.

Import HyperParams HyperParamsProps HyperDemo.

Lemma search_size_witness :
  exists names options mode,
    [VStr "lr"; VStr "batch_size"] = VStr <$> names /\
    Forall2 (fun name opts => grid_config " Grid" !! name = Some (VList opts))
            names options /\
    search_mode lower0 strip0 (grid_config " Grid") = Return mode /\
    length (configs_of " Grid") =
      if bool_decide (mode ∈ ["grid"; "exhaustive"]%string)
      then foldr Nat.mul 1%nat (length <$> options)
      else match options with
           | [] => 0%nat
           | opts :: rest => foldr Nat.min (length opts) (length <$> rest)
           end.
Proof.
  apply (search_size lower0 strip0 (grid_config " Grid")); reflexivity.
Defined.

(** The six configurations of the exhaustive search and the two of the paired
    one. *)
Example grid_sizes :
  length (configs_of "exhaustive") = 6%nat /\
  length (configs_of "PAIRED ") = 2%nat.
Proof. split; reflexivity. Qed.

Lemma configs_sound_witness :
  (forall name, VStr name ∈ [VStr "lr"; VStr "batch_size"] ->
     exists opts x, grid_config "paired" !! name = Some (VList opts) /\
                    x ∈ opts /\ second_paired !! name = Some x) /\
  (forall key, VStr key ∉ [VStr "lr"; VStr "batch_size"] ->
     second_paired !! key = grid_config "paired" !! key).
Proof.
  apply (configs_sound lower0 strip0 (grid_config "paired")
           (VList [VStr "lr"; VStr "batch_size"]) _ (configs_of "paired"));
    [reflexivity | reflexivity | reflexivity |].
  by apply (list_elem_of_lookup_2 _ 1%nat).
Defined.

Lemma exhaustive_search_complete_witness :
  exists r, r ∈ configs_of "grid" /\
    (forall name, VStr name ∈ [VStr "lr"; VStr "batch_size"] ->
                  r !! name = Some (pick0 name)) /\
    (forall key, VStr key ∉ [VStr "lr"; VStr "batch_size"] ->
                 r !! key = grid_config "grid" !! key).
Proof.
  apply (exhaustive_search_complete lower0 strip0 (grid_config "grid")
           (VList [VStr "lr"; VStr "batch_size"]) _ _ "grid" pick0);
    [reflexivity | reflexivity | reflexivity | reflexivity
    | rewrite !elem_of_cons; auto |].
  intros name opts Hin Hcfg. unfold pick0. case_bool_decide as Hn.
  - subst name. vm_compute in Hcfg. injection Hcfg as <-.
    rewrite !elem_of_cons. auto.
  - revert Hin. rewrite !elem_of_cons, elem_of_nil.
    intros [[= ->]|[[= ->]|[]]]; [done|]. vm_compute in Hcfg.
    injection Hcfg as <-. rewrite !elem_of_cons. auto.
Defined.

Lemma paired_search_rows_witness :
  exists x, [VInt 8; VInt 16; VInt 32] !! 1%nat = Some x /\
            second_paired !! "batch_size"%string = Some x.
Proof.
  apply (paired_search_rows lower0 strip0 (grid_config "paired")
           (VList [VStr "lr"; VStr "batch_size"])
           [VStr "lr"; VStr "batch_size"] (configs_of "paired") 1
           second_paired);
    [reflexivity | reflexivity | reflexivity | reflexivity | reflexivity
    | rewrite !elem_of_cons; auto | reflexivity].
Defined.

Lemma search_outcome_witness :
  (forall good bad rest,
      ["lr"; "dropout"; "batch_size"]%string = good ++ bad :: rest ->
      Forall (list_field broken_config) good ->
      ~ list_field broken_config bad ->
      generate_hyper_param_configs lower0 strip0 broken_config
      = Throw (match broken_config !! bad with
               | None => ValueError_unknown_field
               | Some _ => ValueError_not_a_list
               end)) /\
  (Forall (list_field broken_config) ["lr"; "dropout"; "batch_size"]%string ->
   forall mode, search_mode lower0 strip0 broken_config = Return mode ->
     mode ∉ ["grid"; "exhaustive"; "paired"]%string ->
     generate_hyper_param_configs lower0 strip0 broken_config
     = Throw ValueError_unsupported_mode) /\
  ((exists rs, generate_hyper_param_configs lower0 strip0 broken_config
               = Return rs)
   <-> Forall (list_field broken_config) ["lr"; "dropout"; "batch_size"]%string
       /\ exists mode, search_mode lower0 strip0 broken_config = Return mode /\
                       mode ∈ ["grid"; "exhaustive"; "paired"]%string).
Proof.
  apply (search_outcome lower0 strip0 broken_config
           ["lr"; "dropout"; "batch_size"]%string).
  reflexivity.
Defined.

(** The search stops at [dropout], which is no list, before the unsupported
    mode is looked at. *)
Example broken_config_run :
  generate_hyper_param_configs lower0 strip0 broken_config
  = Throw ValueError_not_a_list.
Proof. reflexivity. Qed.

End HyperParamsExamples.
